(** * pyright_shim: the JSON-RPC path rewriting proxy

    A shallow embedding of [python/pyright_shim.py]: the path rewriter
    ([PathRewriter]), the message framer ([read_message], [write_message])
    and the proxy loop ([JsonRpcProxy.run]), with the properties of the
    specification stated over it. *)

From Stdlib Require Import List NArith ZArith Bool Lia String Ascii.
From Stdlib Require Import DecimalPos DecimalN NArithRing.
From Stdlib Require Import Floats.SpecFloat.
Import ListNotations.


(** ** Python values *)

(** A Python [str] is a sequence of code points (0 .. 0x10FFFF, lone
    surrogates included); a [bytes] object is a sequence of octets
    (numbers below 256). *)
Definition char := N.
Definition str := list char.
Definition bytes := list N.

(** String literals of the source, as code points. *)
Definition lit (s : string) : str :=
  List.map N_of_ascii (list_ascii_of_string s).

(** The same for a text written with ['] where it has a double quote, as
    the JSON texts below are. *)
Definition qlit (s : string) : str :=
  List.map (fun c => if N.eqb c 0x27 then 0x22%N else c) (lit s).

(** The exceptions the modelled code can meet. *)
Inductive exn : Set :=
| UnicodeEncodeError
| UnicodeDecodeError
| ValueError
| AttributeError
| TypeError
| JSONDecodeError
| OSError
| OverflowError
| MemoryError
| RecursionError.

(** A computation either returns or raises. *)
Inductive outcome (A : Type) : Type :=
| Ok (a : A)
| Raise (e : exn).
Arguments Ok {A} a.
Arguments Raise {A} e.

Definition bind {A B} (m : outcome A) (k : A -> outcome B) : outcome B :=
  match m with
  | Ok a => k a
  | Raise e => Raise e
  end.

Declare Scope py_scope.
Delimit Scope py_scope with py.
Notation "x <- m ;; k" := (bind m (fun x => k))
  (at level 61, m at next level, right associativity) : py_scope.
Open Scope py_scope.

Section MapM.
Context {A B : Type} (f : A -> outcome B).

(** A list comprehension whose element expression may raise: elements are
    evaluated left to right and the first exception aborts it. *)
Fixpoint mapM (l : list A) : outcome (list B) :=
  match l with
  | [] => Ok []
  | x :: xs => y <- f x ;; ys <- mapM xs ;; Ok (y :: ys)
  end.
End MapM.

(** ** str operations *)

(** [s.startswith(p)] *)
Fixpoint startswith (s p : str) {struct p} : bool :=
  match p with
  | [] => true
  | c :: p' =>
      match s with
      | [] => false
      | d :: s' => N.eqb d c && startswith s' p'
      end
  end.

(** [c in s] for a one-character [c] *)
Definition contains (c : char) (s : str) : bool :=
  existsb (N.eqb c) s.

Fixpoint str_eqb (a b : str) : bool :=
  match a, b with
  | [], [] => true
  | x :: a', y :: b' => N.eqb x y && str_eqb a' b'
  | _, _ => false
  end.

(** ** UTF-8 *)

Definition is_surrogate (c : char) : bool :=
  (N.leb 0xD800 c && N.leb c 0xDFFF)%N.

(** The octets of one code point under the strict codec; [None] where the
    codec refuses (a lone surrogate; values above 0x10FFFF are not code
    points at all). *)
Definition utf8_encode_char (c : char) : option bytes :=
  if N.ltb c 0x80 then Some [c]
  else if N.ltb c 0x800 then
    Some [N.lor 0xC0 (N.shiftr c 6); N.lor 0x80 (N.land c 0x3F)]
  else if N.ltb c 0x10000 then
    if is_surrogate c then None
    else Some [N.lor 0xE0 (N.shiftr c 12);
               N.lor 0x80 (N.land (N.shiftr c 6) 0x3F);
               N.lor 0x80 (N.land c 0x3F)]
  else if N.ltb c 0x110000 then
    Some [N.lor 0xF0 (N.shiftr c 18);
          N.lor 0x80 (N.land (N.shiftr c 12) 0x3F);
          N.lor 0x80 (N.land (N.shiftr c 6) 0x3F);
          N.lor 0x80 (N.land c 0x3F)]
  else None.

(** [s.encode('utf-8')] with [errors='strict'] *)
Fixpoint utf8_encode (s : str) : outcome bytes :=
  match s with
  | [] => Ok []
  | c :: s' =>
      match utf8_encode_char c with
      | None => Raise UnicodeEncodeError
      | Some bs => rest <- utf8_encode s' ;; Ok (bs ++ rest)
      end
  end.

Definition is_cont (b : N) : bool := (N.leb 0x80 b && N.leb b 0xBF)%N.

(** Range of the second octet allowed after lead octet [b0] of a three or
    four octet sequence (this excludes overlong forms, surrogates and
    values above 0x10FFFF). *)
Definition second_ok (b0 b1 : N) : bool :=
  if N.eqb b0 0xE0 then (N.leb 0xA0 b1 && N.leb b1 0xBF)%N
  else if N.eqb b0 0xED then (N.leb 0x80 b1 && N.leb b1 0x9F)%N
  else if N.eqb b0 0xF0 then (N.leb 0x90 b1 && N.leb b1 0xBF)%N
  else if N.eqb b0 0xF4 then (N.leb 0x80 b1 && N.leb b1 0x8F)%N
  else is_cont b1.

Definition cp2 (b0 b1 : N) : char :=
  N.lor (N.shiftl (N.land b0 0x1F) 6) (N.land b1 0x3F).
Definition cp3 (b0 b1 b2 : N) : char :=
  N.lor (N.shiftl (N.land b0 0x0F) 12)
        (N.lor (N.shiftl (N.land b1 0x3F) 6) (N.land b2 0x3F)).
Definition cp4 (b0 b1 b2 b3 : N) : char :=
  N.lor (N.shiftl (N.land b0 0x07) 18)
        (N.lor (N.shiftl (N.land b1 0x3F) 12)
               (N.lor (N.shiftl (N.land b2 0x3F) 6) (N.land b3 0x3F))).

(** The UTF-8 decoder, one item per decoded code point and [None] for each
    ill-formed subsequence (the maximal prefix of a well-formed sequence,
    or one octet). *)
Fixpoint utf8_items (bs : bytes) : list (option char) :=
  match bs with
  | [] => []
  | b0 :: r0 =>
      if N.ltb b0 0x80 then Some b0 :: utf8_items r0
      else if (N.leb 0xC2 b0 && N.leb b0 0xDF)%N then
        match r0 with
        | [] => [None]
        | b1 :: r1 =>
            if is_cont b1 then Some (cp2 b0 b1) :: utf8_items r1
            else None :: utf8_items r0
        end
      else if (N.leb 0xE0 b0 && N.leb b0 0xEF)%N then
        match r0 with
        | [] => [None]
        | b1 :: r1 =>
            if second_ok b0 b1 then
              match r1 with
              | [] => [None]
              | b2 :: r2 =>
                  if is_cont b2 then Some (cp3 b0 b1 b2) :: utf8_items r2
                  else None :: utf8_items r1
              end
            else None :: utf8_items r0
        end
      else if (N.leb 0xF0 b0 && N.leb b0 0xF4)%N then
        match r0 with
        | [] => [None]
        | b1 :: r1 =>
            if second_ok b0 b1 then
              match r1 with
              | [] => [None]
              | b2 :: r2 =>
                  if is_cont b2 then
                    match r2 with
                    | [] => [None]
                    | b3 :: r3 =>
                        if is_cont b3 then
                          Some (cp4 b0 b1 b2 b3) :: utf8_items r3
                        else None :: utf8_items r2
                    end
                  else None :: utf8_items r1
              end
            else None :: utf8_items r0
        end
      else None :: utf8_items r0
  end.

(** [bs.decode('utf-8', errors='replace')]: U+FFFD for each ill-formed
    subsequence. *)
Definition utf8_decode_replace (bs : bytes) : str :=
  List.map (fun i => match i with Some c => c | None => 0xFFFD%N end)
           (utf8_items bs).

Fixpoint all_some {A} (l : list (option A)) : option (list A) :=
  match l with
  | [] => Some []
  | None :: _ => None
  | Some a :: l' =>
      match all_some l' with
      | Some r => Some (a :: r)
      | None => None
      end
  end.

(** [bs.decode('utf-8')]: the strict codec raises on ill-formed input. *)
Definition utf8_decode (bs : bytes) : outcome str :=
  match all_some (utf8_items bs) with
  | Some s => Ok s
  | None => Raise UnicodeDecodeError
  end.

(** ** urllib.parse.quote and unquote *)

Definition is_alnum (b : N) : bool :=
  ((N.leb 0x41 b && N.leb b 0x5A) || (N.leb 0x61 b && N.leb b 0x7A)
   || (N.leb 0x30 b && N.leb b 0x39))%N.

(** urllib's always-safe octets: letters, digits and [_.-~]. *)
Definition always_safe (b : N) : bool :=
  is_alnum b || N.eqb b 0x5F || N.eqb b 0x2E || N.eqb b 0x2D || N.eqb b 0x7E.

Definition hex_digit (n : N) : char :=
  if N.ltb n 10 then (0x30 + n)%N else (0x41 + (n - 10))%N.

(** One octet as [quote] writes it under [safe='/']: itself when safe,
    else [%XX] with upper-case hexadecimal digits. *)
Definition quote_byte (b : N) : str :=
  if always_safe b || N.eqb b 0x2F then [b]
  else [0x25%N; hex_digit (N.shiftr b 4); hex_digit (N.land b 0xF)].

(** [quote(s, safe='/')]: the string is encoded with the strict UTF-8
    codec, then every octet outside the safe set is percent-escaped. *)
Definition quote (s : str) : outcome str :=
  bs <- utf8_encode s ;; Ok (flat_map quote_byte bs).

Definition hex_val (c : char) : option N :=
  if (N.leb 0x30 c && N.leb c 0x39)%N then Some (c - 0x30)%N
  else if (N.leb 0x41 c && N.leb c 0x46)%N then Some (c - 0x41 + 10)%N
  else if (N.leb 0x61 c && N.leb c 0x66)%N then Some (c - 0x61 + 10)%N
  else None.

(** The first pass of [unquote]: every [%XX] with two hexadecimal digits
    becomes the octet it names, every other ASCII character the octet of
    its code ([inl]); non-ASCII characters are kept as they are ([inr]). *)
Fixpoint unquote_tokens (s : str) : list (N + char) :=
  match s with
  | [] => []
  | c :: rest =>
      if N.eqb c 0x25 then
        match rest with
        | h1 :: h2 :: rest' =>
            match hex_val h1, hex_val h2 with
            | Some a, Some b => inl (16 * a + b)%N :: unquote_tokens rest'
            | _, _ => inl c :: unquote_tokens rest
            end
        | _ => inl c :: unquote_tokens rest
        end
      else if N.ltb c 0x80 then inl c :: unquote_tokens rest
      else inr c :: unquote_tokens rest
  end.

(** The second pass: each maximal run of octets is decoded with
    [errors='replace']; [run] holds the current run, last octet first. *)
Fixpoint decode_tokens (ts : list (N + char)) (run : bytes) : str :=
  match ts with
  | [] => utf8_decode_replace (rev run)
  | inl b :: ts' => decode_tokens ts' (b :: run)
  | inr c :: ts' => utf8_decode_replace (rev run) ++ c :: decode_tokens ts' []
  end.

(** [unquote(s)] *)
Definition unquote (s : str) : str :=
  if contains 0x25%N s then decode_tokens (unquote_tokens s) [] else s.

(** ** Messages *)

(** What [json.loads] returns: a dict keeps its keys in insertion order, a
    number is an [int] or a [float]. *)
Unset Elimination Schemes.
Inductive json : Type :=
| JNull
| JBool (b : bool)
| JInt (n : Z)
| JFloat (f : spec_float)
| JStr (s : str)
| JList (l : list json)
| JDict (d : list (str * json)).
Set Elimination Schemes.

Definition dict := list (str * json).

(** [d[key] = v]: an existing key keeps its place, a new key goes last. *)
Fixpoint dict_set {V} (d : list (str * V)) (key : str) (v : V)
  : list (str * V) :=
  match d with
  | [] => [(key, v)]
  | (k, w) :: d' =>
      if str_eqb k key then (k, v) :: d' else (k, w) :: dict_set d' key v
  end.

(** [d.get(key)] *)
Fixpoint dict_get {V} (d : list (str * V)) (key : str) : option V :=
  match d with
  | [] => None
  | (k, w) :: d' => if str_eqb k key then Some w else dict_get d' key
  end.

Definition dict_keys {V} (d : list (str * V)) : list str := List.map fst d.

(** [keys] holds no key twice. *)
Fixpoint distinct (keys : list str) : bool :=
  match keys with
  | [] => true
  | k :: keys' => negb (existsb (str_eqb k) keys') && distinct keys'
  end.

(** The invariant of the Python values: the keys of a dict are distinct. *)
Fixpoint json_wf (j : json) : bool :=
  match j with
  | JList l => forallb json_wf l
  | JDict d =>
      distinct (List.map fst d) && forallb (fun kv => json_wf (snd kv)) d
  | _ => true
  end.

(** ** PathRewriter *)

Module PathRewriter.

Definition PATH_KEYS : list str := Eval cbv in
  List.map lit
    ["uri"; "targetUri"; "source"; "file"; "path";
     "rootPath"; "rootUri"; "workspaceFolders";
     "documentUri"; "newUri"; "oldUri"; "baseUri";
     "referenceUri"; "targetRange"; "targetSelectionRange"]%string.

Definition PATH_ARRAY_KEYS : list str := Eval cbv in
  List.map lit
    ["workspaceFolders"; "files"; "includedFiles"; "excludedFiles"]%string.

(** [key in cls.PATH_KEYS] *)
Definition in_path_keys (key : str) : bool :=
  existsb (str_eqb key) PATH_KEYS.

Definition encode_uri_component (path : str) : outcome str := quote path.

Definition decode_uri_component (path : str) : str := unquote path.

Definition FILE2 : str := Eval cbv in lit "file://".
Definition FILE3 : str := Eval cbv in lit "file:///".
Definition WORKSPACE_FOLDERS : str := Eval cbv in lit "workspaceFolders".
Definition PERCENT : char := 0x25%N.

(** The body of the [file://] case (lines 90-101). *)
Definition file2_branch (value from_prefix to_prefix : str) : outcome str :=
  let path := skipn 7 value in
  let path :=
    if contains PERCENT path then decode_uri_component path else path in
  if startswith path from_prefix then
    let new_path := to_prefix ++ skipn (List.length from_prefix) path in
    enc <- encode_uri_component new_path ;; Ok (FILE2 ++ enc)
  else Ok value.

(** The body of the [file:///] case (lines 105-115). *)
Definition file3_branch (value from_prefix to_prefix : str) : outcome str :=
  let path := skipn 8 value in
  let path :=
    if contains PERCENT path then decode_uri_component path else path in
  if startswith path from_prefix then
    let new_path := to_prefix ++ skipn (List.length from_prefix) path in
    enc <- encode_uri_component new_path ;; Ok (FILE3 ++ enc)
  else Ok value.

(** [rewrite_path] on a value that is a [str]. *)
Definition rewrite_path_str (value from_prefix to_prefix : str)
  : outcome str :=
  if startswith value FILE2 then file2_branch value from_prefix to_prefix
  else if startswith value FILE3 then
    file3_branch value from_prefix to_prefix
  else if startswith value from_prefix then
    Ok (to_prefix ++ skipn (List.length from_prefix) value)
  else Ok value.

Definition rewrite_path (value : json) (from_prefix to_prefix : str)
  : outcome json :=
  match value with
  | JStr s => r <- rewrite_path_str s from_prefix to_prefix ;; Ok (JStr r)
  | _ => Ok value
  end.

(** [rewrite_path] with the [file:///] case (lines 103-115) removed. *)
Definition rewrite_path_no_file3 (value : json) (from_prefix to_prefix : str)
  : outcome json :=
  match value with
  | JStr s =>
      r <- (if startswith s FILE2 then file2_branch s from_prefix to_prefix
            else if startswith s from_prefix then
              Ok (to_prefix ++ skipn (List.length from_prefix) s)
            else Ok s) ;;
      Ok (JStr r)
  | _ => Ok value
  end.

Definition is_list (j : json) : bool :=
  match j with JList _ => true | _ => false end.

Fixpoint rewrite_object (obj : json) (from_prefix to_prefix : str)
  : outcome json :=
  match obj with
  | JDict items =>
      (fix loop (items : list (str * json)) (result : dict)
         : outcome json :=
         match items with
         | [] => Ok (JDict result)
         | (key, value) :: items' =>
             v <- (if in_path_keys key then
                     match value with
                     | JStr _ => rewrite_path value from_prefix to_prefix
                     | JList l =>
                         l' <- mapM (fun item =>
                                 match item with
                                 | JStr _ =>
                                     rewrite_path item from_prefix to_prefix
                                 | _ =>
                                     rewrite_object item from_prefix
                                                    to_prefix
                                 end) l ;;
                         Ok (JList l')
                     | _ => rewrite_object value from_prefix to_prefix
                     end
                   else if str_eqb key WORKSPACE_FOLDERS && is_list value
                   then
                     match value with
                     | JList l =>
                         l' <- mapM (fun item =>
                                 rewrite_object item from_prefix to_prefix)
                                 l ;;
                         Ok (JList l')
                     | _ => rewrite_object value from_prefix to_prefix
                     end
                   else rewrite_object value from_prefix to_prefix) ;;
             loop items' (dict_set result key v)
         end) items []
  | JList l =>
      l' <- mapM (fun item => rewrite_object item from_prefix to_prefix) l ;;
      Ok (JList l')
  | JStr s =>
      if startswith s from_prefix || startswith s FILE2 then
        rewrite_path obj from_prefix to_prefix
      else Ok obj
  | _ => Ok obj
  end.

End PathRewriter.

(** Induction over messages, with the hypothesis available for every
    element of a list and every value of a dict. *)
Section JsonInd.
Variable P : json -> Prop.
Hypothesis Hnull : P JNull.
Hypothesis Hbool : forall b, P (JBool b).
Hypothesis Hint : forall n, P (JInt n).
Hypothesis Hfloat : forall f, P (JFloat f).
Hypothesis Hstr : forall s, P (JStr s).
Hypothesis Hlist : forall l, Forall P l -> P (JList l).
Hypothesis Hdict :
  forall d, Forall (fun kv => P (snd kv)) d -> P (JDict d).

Fixpoint json_ind (j : json) : P j :=
  match j with
  | JNull => Hnull
  | JBool b => Hbool b
  | JInt n => Hint n
  | JFloat f => Hfloat f
  | JStr s => Hstr s
  | JList l =>
      Hlist l ((fix go (l : list json) : Forall P l :=
                match l with
                | [] => Forall_nil _
                | x :: l' => Forall_cons x (json_ind x) (go l')
                end) l)
  | JDict d =>
      Hdict d ((fix go (d : list (str * json))
                : Forall (fun kv => P (snd kv)) d :=
                match d with
                | [] => Forall_nil _
                | kv :: d' => Forall_cons kv (json_ind (snd kv)) (go d')
                end) d)
  end.
End JsonInd.

(** The value stored under [key] by one turn of the dict loop of
    [rewrite_object] (lines 140-157). *)
Definition rewrite_value (key : str) (value : json)
  (from_prefix to_prefix : str) : outcome json :=
  if PathRewriter.in_path_keys key then
    match value with
    | JStr _ => PathRewriter.rewrite_path value from_prefix to_prefix
    | JList l =>
        l' <- mapM (fun item =>
                match item with
                | JStr _ =>
                    PathRewriter.rewrite_path item from_prefix to_prefix
                | _ => PathRewriter.rewrite_object item from_prefix to_prefix
                end) l ;;
        Ok (JList l')
    | _ => PathRewriter.rewrite_object value from_prefix to_prefix
    end
  else if str_eqb key PathRewriter.WORKSPACE_FOLDERS
          && PathRewriter.is_list value
  then
    match value with
    | JList l =>
        l' <- mapM (fun item =>
                PathRewriter.rewrite_object item from_prefix to_prefix) l ;;
        Ok (JList l')
    | _ => PathRewriter.rewrite_object value from_prefix to_prefix
    end
  else PathRewriter.rewrite_object value from_prefix to_prefix.

(** The dict loop of [rewrite_object], from the pairs still to visit and
    the [result] built so far. *)
Fixpoint rewrite_items (from_prefix to_prefix : str)
  (items : list (str * json)) (result : dict) : outcome json :=
  match items with
  | [] => Ok (JDict result)
  | (key, value) :: items' =>
      v <- rewrite_value key value from_prefix to_prefix ;;
      rewrite_items from_prefix to_prefix items' (dict_set result key v)
  end.

(** ** The rewriter on the interpreter's stack

    The interpreter raises [RecursionError] when a call would take the
    stack beyond its limit. The functions below are those of
    [PathRewriter] once more, with the [frames] that still fit the stack
    as a further argument: a call of a Python function takes one frame,
    [isinstance] and the methods of [str] are built in and take none. *)
Section Stack.

(** Whether a list comprehension runs in a frame of its own (up to
    CPython 3.11) or in the frame of its function (from 3.12 on). *)
Variable comprehension_frame : bool.

(** The frames [quote] and [unquote] of the library take on an argument,
    their own included. *)
Variables quote_frames unquote_frames : str -> nat.

(** A call, when [frames] more fit the stack; the body runs with the
    frames left. *)
Definition call {A} (frames : nat) (body : nat -> outcome A) : outcome A :=
  match frames with
  | O => Raise RecursionError
  | S frames' => body frames'
  end.

(** A call of a library function that takes [needed] frames. *)
Definition library_call {A} (frames needed : nat) (result : outcome A)
  : outcome A :=
  if Nat.leb needed frames then result else Raise RecursionError.

Definition encode_uri_component_within (frames : nat) (path : str)
  : outcome str :=
  call frames (fun frames =>
    library_call frames (quote_frames path) (quote path)).

Definition decode_uri_component_within (frames : nat) (path : str)
  : outcome str :=
  call frames (fun frames =>
    library_call frames (unquote_frames path) (Ok (unquote path))).

Definition file2_branch_within (frames : nat)
  (value from_prefix to_prefix : str) : outcome str :=
  let path := skipn 7 value in
  path <- (if contains PathRewriter.PERCENT path
           then decode_uri_component_within frames path else Ok path) ;;
  if startswith path from_prefix then
    let new_path := to_prefix ++ skipn (List.length from_prefix) path in
    enc <- encode_uri_component_within frames new_path ;;
    Ok (PathRewriter.FILE2 ++ enc)
  else Ok value.

Definition file3_branch_within (frames : nat)
  (value from_prefix to_prefix : str) : outcome str :=
  let path := skipn 8 value in
  path <- (if contains PathRewriter.PERCENT path
           then decode_uri_component_within frames path else Ok path) ;;
  if startswith path from_prefix then
    let new_path := to_prefix ++ skipn (List.length from_prefix) path in
    enc <- encode_uri_component_within frames new_path ;;
    Ok (PathRewriter.FILE3 ++ enc)
  else Ok value.

Definition rewrite_path_within (frames : nat) (value : json)
  (from_prefix to_prefix : str) : outcome json :=
  call frames (fun frames =>
    match value with
    | JStr s =>
        r <- (if startswith s PathRewriter.FILE2 then
                file2_branch_within frames s from_prefix to_prefix
              else if startswith s PathRewriter.FILE3 then
                file3_branch_within frames s from_prefix to_prefix
              else if startswith s from_prefix then
                Ok (to_prefix ++ skipn (List.length from_prefix) s)
              else Ok s) ;;
        Ok (JStr r)
    | _ => Ok value
    end).

(** A list comprehension over [l] whose element expression is [f], given
    the frames left to it. *)
Definition comprehension (frames : nat)
  (f : nat -> json -> outcome json) (l : list json) : outcome json :=
  if comprehension_frame then
    call frames (fun frames => l' <- mapM (f frames) l ;; Ok (JList l'))
  else l' <- mapM (f frames) l ;; Ok (JList l').

Fixpoint rewrite_object_within (frames : nat) (obj : json)
  (from_prefix to_prefix : str) {struct frames} : outcome json :=
  match frames with
  | O => Raise RecursionError
  | S frames =>
      match obj with
      | JDict items =>
          (fix loop (items : list (str * json)) (result : dict)
             : outcome json :=
             match items with
             | [] => Ok (JDict result)
             | (key, value) :: items' =>
                 v <- (if PathRewriter.in_path_keys key then
                         match value with
                         | JStr _ =>
                             rewrite_path_within frames value from_prefix
                                                 to_prefix
                         | JList l =>
                             comprehension frames (fun frames item =>
                               match item with
                               | JStr _ =>
                                   rewrite_path_within frames item
                                                       from_prefix to_prefix
                               | _ =>
                                   rewrite_object_within frames item
                                                         from_prefix
                                                         to_prefix
                               end) l
                         | _ =>
                             rewrite_object_within frames value from_prefix
                                                   to_prefix
                         end
                       else if str_eqb key PathRewriter.WORKSPACE_FOLDERS
                               && PathRewriter.is_list value
                       then
                         match value with
                         | JList l =>
                             comprehension frames (fun frames item =>
                               rewrite_object_within frames item
                                                     from_prefix to_prefix)
                               l
                         | _ =>
                             rewrite_object_within frames value from_prefix
                                                   to_prefix
                         end
                       else
                         rewrite_object_within frames value from_prefix
                                               to_prefix) ;;
                 loop items' (dict_set result key v)
             end) items []
      | JList l =>
          comprehension frames (fun frames item =>
            rewrite_object_within frames item from_prefix to_prefix) l
      | JStr s =>
          if startswith s from_prefix || startswith s PathRewriter.FILE2
          then rewrite_path_within frames obj from_prefix to_prefix
          else Ok obj
      | _ => Ok obj
      end
  end.

End Stack.

(** How deep the lists and dicts of a message lie inside one another. *)
Fixpoint nesting (j : json) : nat :=
  match j with
  | JList l => S (fold_right (fun x n => Nat.max (nesting x) n) O l)
  | JDict d =>
      S (fold_right (fun kv n => Nat.max (nesting (snd kv)) n) O d)
  | _ => O
  end.

(** [n] lists around [null], one inside the other. *)
Fixpoint nested (n : nat) : json :=
  match n with
  | O => JNull
  | S n' => JList [nested n']
  end.

(** A workspace folder entry [{"uri": u, "name": n}]. *)
Definition workspace_folder (u n : str) : json :=
  JDict [(lit "uri", JStr u); (lit "name", JStr n)].

(** A code point the strict UTF-8 codec accepts. *)
Definition encodable_char (c : char) : bool :=
  match utf8_encode_char c with
  | Some _ => true
  | None => false
  end.

(** A [str] that [s.encode('utf-8')] accepts: no lone surrogate. *)
Definition encodable (s : str) : bool := forallb encodable_char s.

(** Every string value of the message is encodable. *)
Fixpoint strings_encodable (j : json) : bool :=
  match j with
  | JStr s => encodable s
  | JList l => forallb strings_encodable l
  | JDict d => forallb (fun kv => strings_encodable (snd kv)) d
  | _ => true
  end.

(** The [n] numbers from [lo] on. *)
Fixpoint range (lo : N) (n : nat) : list N :=
  match n with
  | O => []
  | S n' => lo :: range (N.succ lo) n'
  end.

(** The root prefixes the shim uses when the environment sets none. *)
Definition DEFAULT_HOST_ROOT : str := Eval cbv in lit "/work/host".
Definition DEFAULT_CONTAINER_ROOT : str := Eval cbv in lit "/work/container".

(** An absolute path: its first character is the separator. *)
Definition is_absolute (p : str) : bool := startswith p [0x2F%N].

(** A string the fallback scan of [rewrite_object] takes for a path. *)
Definition path_like (from_prefix s : str) : bool :=
  startswith s from_prefix || startswith s PathRewriter.FILE2.


(** ** More of str, bytes and int *)

(** The characters [str.isspace] accepts. *)
Definition is_space (c : char) : bool :=
  ((N.leb 0x09 c && N.leb c 0x0D) || (N.leb 0x1C c && N.leb c 0x20)
   || N.eqb c 0x85 || N.eqb c 0xA0 || N.eqb c 0x1680
   || (N.leb 0x2000 c && N.leb c 0x200A)
   || N.eqb c 0x2028 || N.eqb c 0x2029 || N.eqb c 0x202F
   || N.eqb c 0x205F || N.eqb c 0x3000)%N.

Section Strip.
Variable space : char -> bool.

Fixpoint lstrip_with (s : str) : str :=
  match s with
  | [] => []
  | c :: s' => if space c then lstrip_with s' else s
  end.

Definition strip_with (s : str) : str :=
  rev (lstrip_with (rev (lstrip_with s))).
End Strip.

(** [s.strip()] *)
Definition strip (s : str) : str := strip_with is_space s.

(** [s.lower()]. Upper-case ASCII letters, and the two characters outside
    ASCII whose lower-case form contains an ASCII letter (U+212A, U+0130),
    are mapped as Python maps them; any other character outside ASCII is
    kept, its lower-case form being outside ASCII as well. *)
Definition lower_char (c : char) : str :=
  if (N.leb 0x41 c && N.leb c 0x5A)%N then [(c + 32)%N]
  else if N.eqb c 0x212A then [0x6B%N]
  else if N.eqb c 0x130 then [0x69%N; 0x307%N]
  else [c].

Definition lower (s : str) : str := flat_map lower_char s.

(** [s.split(":", 1)] unpacked into two names: [None] when there is no
    colon to split at (the unpacking then raises [ValueError]). *)
Fixpoint split_colon (s : str) : option (str * str) :=
  match s with
  | [] => None
  | c :: r =>
      if N.eqb c 0x3A then Some ([], r)
      else match split_colon r with
           | Some (a, b) => Some (c :: a, b)
           | None => None
           end
  end.

(** The code points of the digit zero of every decimal digit script
    (category Nd); the nine that follow each are its digits 1 to 9. *)
Definition DIGIT_ZEROS : list N :=
  [
    0x30; 0x660; 0x6F0; 0x7C0; 0x966; 0x9E6; 0xA66; 0xAE6; 0xB66; 0xBE6;
    0xC66; 0xCE6; 0xD66; 0xDE6; 0xE50; 0xED0; 0xF20; 0x1040; 0x1090; 0x17E0;
    0x1810; 0x1946; 0x19D0; 0x1A80; 0x1A90; 0x1B50; 0x1BB0; 0x1C40; 0x1C50;
    0xA620; 0xA8D0; 0xA900; 0xA9D0; 0xA9F0; 0xAA50; 0xABF0; 0xFF10; 0x104A0;
    0x10D30; 0x11066; 0x110F0; 0x11136; 0x111D0; 0x112F0; 0x11450; 0x114D0;
    0x11650; 0x116C0; 0x11730; 0x118E0; 0x11950; 0x11C50; 0x11D50; 0x11DA0;
    0x16A60; 0x16AC0; 0x16B50; 0x1D7CE; 0x1D7D8; 0x1D7E2; 0x1D7EC; 0x1D7F6;
    0x1E140; 0x1E2F0; 0x1E950; 0x1FBF0]%N.

(** The value of a decimal digit character, as [int()] reads it. *)
Definition decimal_value (c : char) : option N :=
  match find (fun z => N.leb z c && N.ltb c (z + 10))%N DIGIT_ZEROS with
  | Some z => Some (c - z)%N
  | None => None
  end.

(** The digits of an [int()] literal: decimal digits, with single
    underscores allowed between two digits. [prev] tells whether the
    character before was a digit. *)
Fixpoint parse_digits (s : str) (acc : N) (prev : bool) : outcome N :=
  match s with
  | [] => if prev then Ok acc else Raise ValueError
  | c :: s' =>
      if N.eqb c 0x5F then
        if prev then parse_digits s' acc false else Raise ValueError
      else match decimal_value c with
           | Some d => parse_digits s' (10 * acc + d)%N true
           | None => Raise ValueError
           end
  end.

(** The white space [int()] strips: that of [str.isspace] but for the
    separators U+001C to U+001F. *)
Definition is_int_space (c : char) : bool :=
  is_space c && negb (N.leb 0x1C c && N.leb c 0x1F)%N.

(** [int(s)] for a [str] *)
Definition py_int (s : str) : outcome Z :=
  match strip_with is_int_space s with
  | c :: s' =>
      if N.eqb c 0x2B then n <- parse_digits s' 0 false ;; Ok (Z.of_N n)
      else if N.eqb c 0x2D then
        n <- parse_digits s' 0 false ;; Ok (- Z.of_N n)%Z
      else n <- parse_digits (c :: s') 0 false ;; Ok (Z.of_N n)
  | [] => Raise ValueError
  end.

Fixpoint uint_chars (u : Decimal.uint) : str :=
  match u with
  | Decimal.Nil => []
  | Decimal.D0 u' => 0x30%N :: uint_chars u'
  | Decimal.D1 u' => 0x31%N :: uint_chars u'
  | Decimal.D2 u' => 0x32%N :: uint_chars u'
  | Decimal.D3 u' => 0x33%N :: uint_chars u'
  | Decimal.D4 u' => 0x34%N :: uint_chars u'
  | Decimal.D5 u' => 0x35%N :: uint_chars u'
  | Decimal.D6 u' => 0x36%N :: uint_chars u'
  | Decimal.D7 u' => 0x37%N :: uint_chars u'
  | Decimal.D8 u' => 0x38%N :: uint_chars u'
  | Decimal.D9 u' => 0x39%N :: uint_chars u'
  end.

(** [str(n)] for a natural number *)
Definition decimal (n : N) : str := uint_chars (N.to_uint n).

Fixpoint bytes_eqb (a b : bytes) : bool :=
  match a, b with
  | [], [] => true
  | x :: a', y :: b' => N.eqb x y && bytes_eqb a' b'
  | _, _ => false
  end.

(** ** Streams *)

(** The octets a peer still delivers; at the end of the list it has
    closed. *)
Definition istream := bytes.

(** [stream.readline()]: up to and with the next line feed, or what is
    left. *)
Fixpoint readline (stream : istream) : bytes * istream :=
  match stream with
  | [] => ([], [])
  | b :: r =>
      if N.eqb b 0x0A then ([b], r)
      else let (line, rest) := readline r in (b :: line, rest)
  end.

(** [sys.maxsize], the largest size of an object. *)
Definition PY_SSIZE_T_MAX : Z := 9223372036854775807.

(** The answer of the interpreter to a request for a buffer of [n] octets:
    [None] when it grants the buffer, the exception it raises when it
    refuses ([MemoryError]; [OverflowError] for a size close to
    [PY_SSIZE_T_MAX]). It depends on the machine. *)
Class Memory : Type := refused : Z -> option exn.

(** [read(n)] when the stream cannot meet the request and has [found]
    octets only: the reader first asks for a buffer of [n] octets, which
    is larger than what is at hand. An [n] above [PY_SSIZE_T_MAX] raises
    [OverflowError] before that. *)
Definition short_read {memory : Memory} {T : Type}
  (n : Z) (found : bytes) (rest : T) : outcome (bytes * T) :=
  if Z.ltb PY_SSIZE_T_MAX n then Raise OverflowError
  else match refused n with
       | Some e => Raise e
       | None => Ok (found, rest)
       end.

(** [stream.read(n)] of a buffered reader, as [sys.stdin.buffer] is: it
    waits until [n] octets have come or the peer has closed. [-1] reads
    to the end, any other negative [n] raises [ValueError]. Octets that
    are there are returned: the model puts no bound on the size of the
    data at hand, only on a buffer asked for beyond it. *)
Definition buffered_read {memory : Memory} (n : Z) (stream : istream)
  : outcome (bytes * istream) :=
  if Z.ltb n (-1) then Raise ValueError
  else if Z.eqb n (-1) then Ok (stream, [])
  else if Z.leb n (Z.of_nat (List.length stream)) then
    Ok (firstn (Z.to_nat n) stream, skipn (Z.to_nat n) stream)
  else short_read n stream [].

(** The read end of a pipe opened with [bufsize=0] (line 192): a raw
    stream. [arriving] are the octets the child still delivers. They
    arrive at the child's pace: [ready] tells, by what is still to
    arrive, how many octets the pipe holds when a [read] is served. *)
Record raw_stream : Type := {
  arriving : istream;
  ready : istream -> nat
}.

(** The octets one [read(2)] finds: it blocks until there is one, unless
    the child has closed. *)
Definition held (stream : raw_stream) : nat :=
  Nat.min (List.length (arriving stream))
          (Nat.max 1 (ready stream (arriving stream))).

Definition raw_after (stream : raw_stream) (rest : istream) : raw_stream :=
  {| arriving := rest; ready := ready stream |}.

(** [stream.readline()] of a raw stream: it reads octet by octet up to the
    line feed, so the line is whole. *)
Definition raw_readline (stream : raw_stream) : bytes * raw_stream :=
  let (line, rest) := readline (arriving stream) in
  (line, raw_after stream rest).

(** [stream.read(n)] of a raw stream: one [read(2)], which returns what
    the pipe holds, up to [n] octets; a negative [n] reads to the end. *)
Definition raw_read {memory : Memory} (n : Z) (stream : raw_stream)
  : outcome (bytes * raw_stream) :=
  if Z.ltb n 0 then Ok (arriving stream, raw_after stream [])
  else if Z.leb n (Z.of_nat (held stream)) then
    Ok (firstn (Z.to_nat n) (arriving stream),
        raw_after stream (skipn (Z.to_nat n) (arriving stream)))
  else
    short_read n (firstn (held stream) (arriving stream))
               (raw_after stream (skipn (held stream) (arriving stream))).

(** What [read_message] asks of the stream it is given: [readline] and
    [read]; [unread] are the octets the stream still delivers. *)
Class Stream (T : Type) : Type := {
  unread : T -> istream;
  stream_readline : T -> bytes * T;
  stream_read : Z -> T -> outcome (bytes * T)
}.

#[global] Instance buffered_stream {memory : Memory} : Stream istream := {|
  unread := fun stream => stream;
  stream_readline := readline;
  stream_read := buffered_read
|}.

#[global] Instance raw_pipe {memory : Memory} : Stream raw_stream := {|
  unread := arriving;
  stream_readline := raw_readline;
  stream_read := raw_read
|}.

(** A stream open for writing: what has been written, and whether the
    other end still takes data (a write to a closed pipe raises). *)
Record ostream : Type := {
  written : bytes;
  writable : bool
}.

Definition stream_write (stream : ostream) (data : bytes) : outcome ostream :=
  if writable stream then
    Ok {| written := written stream ++ data; writable := true |}
  else Raise OSError.

Definition stream_flush (stream : ostream) : outcome ostream :=
  if writable stream then Ok stream else Raise OSError.

(** ** Logging *)

Inductive level : Set := DEBUG | INFO | WARNING | ERROR.

(** The calls made to [logger], by their message. *)
Inductive log_record : Set :=
| NoContentLength
| ShortBody (expected : Z) (got : nat)
| JsonDecodeFailed
| ErrorReading (e : exn)
| ErrorWriting (e : exn)
| StartingLoop
| ClientDisconnected
| ServerDisconnected
| UnexpectedError (e : exn)
| ShuttingDown
| ShutdownComplete.

Definition log_level (r : log_record) : level :=
  match r with
  | NoContentLength | ShortBody _ _ | ServerDisconnected => WARNING
  | JsonDecodeFailed | ErrorReading _ | ErrorWriting _
  | UnexpectedError _ => ERROR
  | StartingLoop | ClientDisconnected | ShuttingDown
  | ShutdownComplete => INFO
  end.

(** ** JsonRpcProxy *)

(** What the header loop of [read_message] ends with. *)
Inductive headers_result (T : Type) : Type :=
| HeadersEof (rest : T)
| HeadersDone (headers : list (str * str)) (rest : T)
| HeadersRaise (e : exn) (rest : T)
| HeadersFuel.
Arguments HeadersEof {T} rest.
Arguments HeadersDone {T} headers rest.
Arguments HeadersRaise {T} e rest.
Arguments HeadersFuel {T}.

(** The calls made on the child process. *)
Inductive child_call : Set :=
| Terminate
| WaitTimeout
| Kill
| Wait.

(** The proxy and the world around it: the two streams of the client
    ([sys.stdin.buffer] is a buffered reader), the two pipes of the child
    (raw streams), whether the child exits within the timeout once asked
    to terminate, and what has been logged and called. *)
Record proxy : Type := {
  running : bool;
  stdin : istream;
  stdout : ostream;
  child_stdin : ostream;
  child_stdout : raw_stream;
  child_exits_in_time : bool;
  child_calls : list child_call;
  logged : list log_record
}.

(** How one turn of the loop of [run] ends. *)
Inductive turn : Type :=
| Continue (st : proxy)
| Break (st : proxy)
| Raised (e : exn) (st : proxy).

Module JsonRpcProxy.
Section Proxy.

(** The root prefixes, read from the environment at start-up. *)
Variables HOST_ROOT CONTAINER_ROOT : str.

(** [json.dumps(message, separators=(',', ':'))] and [json.loads] of the
    Python library. *)
Variable json_dumps : json -> outcome str.
Variable json_loads : str -> outcome json.

(** The memory of the machine the proxy runs on. *)
Context {memory : Memory}.

Definition CRLF : bytes := [0x0D%N; 0x0A%N].
Definition CONTENT_LENGTH : str := Eval cbv in lit "content-length".
Definition ID : str := Eval cbv in lit "id".
Definition TO_CONTAINER : str := Eval cbv in lit "to_container".
Definition TO_HOST : str := Eval cbv in lit "to_host".

(** The header loop of [read_message] (lines 231-239). Every turn that
    goes on has read a non-empty line, so [fuel] above the length of the
    stream is never used up. *)
Fixpoint read_headers {T : Type} {stream_T : Stream T} (fuel : nat)
  (stream : T) (headers : list (str * str)) : headers_result T :=
  match fuel with
  | O => HeadersFuel
  | S fuel' =>
      let (line, rest) := stream_readline stream in
      match line with
      | [] => HeadersEof rest
      | _ :: _ =>
          if bytes_eqb line CRLF then HeadersDone headers rest
          else if contains 0x3A%N line then
            match split_colon (utf8_decode_replace line) with
            | Some (key, value) =>
                read_headers fuel' rest
                  (dict_set headers (lower (strip key)) (strip value))
            | None => HeadersRaise ValueError rest
            end
          else read_headers fuel' rest headers
      end
  end.

(** [read_message]: the value returned ([JNull] is Python's [None]), the
    stream after it, and what it logged. An exception raised by [read]
    leaves the stream where the header block ended. *)
Definition read_message {T : Type} {stream_T : Stream T} (stream : T)
  : json * T * list log_record :=
  match read_headers (S (List.length (unread stream))) stream [] with
  | HeadersFuel => (JNull, stream, [])
  | HeadersEof rest => (JNull, rest, [])
  | HeadersRaise e rest => (JNull, rest, [ErrorReading e])
  | HeadersDone headers rest =>
      match (match dict_get headers CONTENT_LENGTH with
             | Some v => py_int v
             | None => Ok 0%Z
             end) with
      | Raise e => (JNull, rest, [ErrorReading e])
      | Ok content_length =>
          if Z.eqb content_length 0 then (JNull, rest, [NoContentLength])
          else
            match stream_read content_length rest with
            | Raise e => (JNull, rest, [ErrorReading e])
            | Ok (body, rest') =>
                if negb (Z.eqb (Z.of_nat (List.length body)) content_length)
                then (JNull, rest',
                      [ShortBody content_length (List.length body)])
                else
                  match (text <- utf8_decode body ;; json_loads text) with
                  | Ok message => (message, rest', [])
                  | Raise JSONDecodeError =>
                      (JNull, rest', [JsonDecodeFailed])
                  | Raise e => (JNull, rest', [ErrorReading e])
                  end
            end
      end
  end.

(** The framing of [content_bytes]: the header, a blank line, the body. *)
Definition header (content_bytes : bytes) : str :=
  lit "Content-Length: " ++ decimal (N.of_nat (List.length content_bytes))
      ++ [0x0D; 0x0A; 0x0D; 0x0A]%N.

(** [write_message]: the stream after it and what it logged. An exception
    raised on the way is caught and logged; what was written before it
    stays written. *)
Definition write_message (stream : ostream) (message : json)
  : ostream * list log_record :=
  match (content <- json_dumps message ;;
         content_bytes <- utf8_encode content ;;
         header_bytes <- utf8_encode (header content_bytes) ;;
         Ok (header_bytes, content_bytes)) with
  | Raise e => (stream, [ErrorWriting e])
  | Ok (header_bytes, content_bytes) =>
      match stream_write stream header_bytes with
      | Raise e => (stream, [ErrorWriting e])
      | Ok stream1 =>
          match (stream2 <- stream_write stream1 content_bytes ;;
                 stream_flush stream2) with
          | Raise e => (stream1, [ErrorWriting e])
          | Ok stream3 => (stream3, [])
          end
      end
  end.

(** [process_message]. [message.get] exists on a dict only; the debug
    line it may log is left out. *)
Definition process_message (message : json) (direction : str)
  : outcome json :=
  let (from_prefix, to_prefix) :=
    if str_eqb direction TO_CONTAINER then (HOST_ROOT, CONTAINER_ROOT)
    else (CONTAINER_ROOT, HOST_ROOT) in
  match message with
  | JDict _ => PathRewriter.rewrite_object message from_prefix to_prefix
  | _ => Raise AttributeError
  end.

(** [sub in s] for strings *)
Fixpoint substring (sub s : str) : bool :=
  startswith s sub
  || match s with
     | [] => false
     | _ :: s' => substring sub s'
     end.

(** ["id" in client_msg] *)
Definition contains_id (client_msg : json) : outcome bool :=
  match client_msg with
  | JDict d => Ok (existsb (str_eqb ID) (List.map fst d))
  | JList l =>
      Ok (existsb (fun x => match x with
                            | JStr s => str_eqb s ID
                            | _ => false
                            end) l)
  | JStr s => Ok (substring ID s)
  | _ => Raise TypeError
  end.

Definition log (st : proxy) (records : list log_record) : proxy :=
  {| running := running st; stdin := stdin st; stdout := stdout st;
     child_stdin := child_stdin st; child_stdout := child_stdout st;
     child_exits_in_time := child_exits_in_time st;
     child_calls := child_calls st;
     logged := logged st ++ records |}.

Definition set_stdin (st : proxy) (s : istream) : proxy :=
  {| running := running st; stdin := s; stdout := stdout st;
     child_stdin := child_stdin st; child_stdout := child_stdout st;
     child_exits_in_time := child_exits_in_time st;
     child_calls := child_calls st; logged := logged st |}.

Definition set_stdout (st : proxy) (s : ostream) : proxy :=
  {| running := running st; stdin := stdin st; stdout := s;
     child_stdin := child_stdin st; child_stdout := child_stdout st;
     child_exits_in_time := child_exits_in_time st;
     child_calls := child_calls st; logged := logged st |}.

Definition set_child_stdin (st : proxy) (s : ostream) : proxy :=
  {| running := running st; stdin := stdin st; stdout := stdout st;
     child_stdin := s; child_stdout := child_stdout st;
     child_exits_in_time := child_exits_in_time st;
     child_calls := child_calls st; logged := logged st |}.

Definition set_child_stdout (st : proxy) (s : raw_stream) : proxy :=
  {| running := running st; stdin := stdin st; stdout := stdout st;
     child_stdin := child_stdin st; child_stdout := s;
     child_exits_in_time := child_exits_in_time st;
     child_calls := child_calls st; logged := logged st |}.

(** One turn of the [while] loop of [run] (lines 317-337). *)
Definition iteration (st : proxy) : turn :=
  let '(client_msg, rest, records) := read_message (stdin st) in
  let st := log (set_stdin st rest) records in
  match client_msg with
  | JNull => Break (log st [ClientDisconnected])
  | _ =>
      match process_message client_msg TO_CONTAINER with
      | Raise e => Raised e st
      | Ok server_msg =>
          let (pipe, records) :=
            write_message (child_stdin st) server_msg in
          let st := log (set_child_stdin st pipe) records in
          match contains_id client_msg with
          | Raise e => Raised e st
          | Ok false => Continue st
          | Ok true =>
              let '(server_response, rest, records) :=
                read_message (child_stdout st) in
              let st := log (set_child_stdout st rest) records in
              match server_response with
              | JNull => Break (log st [ServerDisconnected])
              | _ =>
                  match process_message server_response TO_HOST with
                  | Raise e => Raised e st
                  | Ok client_response =>
                      let (out, records) :=
                        write_message (stdout st) client_response in
                      Continue (log (set_stdout st out) records)
                  end
              end
          end
      end
  end.

(** [shutdown] *)
Definition shutdown (st : proxy) : proxy :=
  {| running := false; stdin := stdin st; stdout := stdout st;
     child_stdin := child_stdin st; child_stdout := child_stdout st;
     child_exits_in_time := child_exits_in_time st;
     child_calls :=
       child_calls st
       ++ (if child_exits_in_time st then [Terminate; WaitTimeout]
           else [Terminate; WaitTimeout; Kill; Wait]);
     logged := logged st ++ [ShuttingDown; ShutdownComplete] |}.

(** The [while self.running] loop with its [except Exception] handler:
    [None] when [fuel] turns were not enough to leave it. *)
Fixpoint run_loop (fuel : nat) (st : proxy) : option proxy :=
  match fuel with
  | O => None
  | S fuel' =>
      if running st then
        match iteration st with
        | Continue st' => run_loop fuel' st'
        | Break st' => Some st'
        | Raised e st' => Some (log st' [UnexpectedError e])
        end
      else Some st
  end.

(** [run]: the loop, then [shutdown] in the [finally] clause. Every turn
    that goes on has read at least one octet of [stdin], so the fuel
    given here is enough (see [run_loop_terminates]). *)
Definition run (st : proxy) : option proxy :=
  match run_loop (S (List.length (stdin st))) (log st [StartingLoop]) with
  | Some st' => Some (shutdown st')
  | None => None
  end.

End Proxy.
End JsonRpcProxy.

(** ** A JSON codec to run the proxy on

    The proxy is stated over the two functions of Python's [json] module
    that it calls. For running it on concrete streams, here is a compact
    serializer and a parser for the messages without [float] numbers:
    [dumps] writes what [json.dumps(m, separators=(',', ':'))] writes
    (ASCII only, [\uXXXX] for the rest), [loads] reads standard JSON text
    the way [json.loads] does (a repeated key keeps its first place and its
    last value). Both raise on a [float], which the library would accept. *)
Module Json.

Definition hex4 (n : N) : str :=
  let digit d := if N.ltb d 10 then (0x30 + d)%N else (0x61 + (d - 10))%N in
  [0x5C%N; 0x75%N;
   digit (N.land (N.shiftr n 12) 0xF); digit (N.land (N.shiftr n 8) 0xF);
   digit (N.land (N.shiftr n 4) 0xF); digit (N.land n 0xF)].

Definition escape (c : char) : str :=
  if N.eqb c 0x22 then [0x5C%N; 0x22%N]
  else if N.eqb c 0x5C then [0x5C%N; 0x5C%N]
  else if N.eqb c 0x0A then [0x5C%N; 0x6E%N]
  else if N.eqb c 0x0D then [0x5C%N; 0x72%N]
  else if N.eqb c 0x09 then [0x5C%N; 0x74%N]
  else if N.eqb c 0x08 then [0x5C%N; 0x62%N]
  else if N.eqb c 0x0C then [0x5C%N; 0x66%N]
  else if (N.leb 0x20 c && N.leb c 0x7E)%N then [c]
  else if N.ltb c 0x10000 then hex4 c
  else
    let v := (c - 0x10000)%N in
    hex4 (N.lor 0xD800 (N.shiftr v 10)) ++ hex4 (N.lor 0xDC00 (N.land v 0x3FF)).

Definition dumps_str (s : str) : str :=
  0x22%N :: flat_map escape s ++ [0x22%N].

Definition dumps_int (n : Z) : str :=
  if Z.ltb n 0 then 0x2D%N :: decimal (Z.to_N (- n)) else decimal (Z.to_N n).

Fixpoint dumps (j : json) : outcome str :=
  match j with
  | JNull => Ok (lit "null")
  | JBool true => Ok (lit "true")
  | JBool false => Ok (lit "false")
  | JInt n => Ok (dumps_int n)
  | JFloat _ => Raise ValueError
  | JStr s => Ok (dumps_str s)
  | JList l =>
      body <- (fix items (l : list json) (first : bool) : outcome str :=
                 match l with
                 | [] => Ok []
                 | x :: l' =>
                     t <- dumps x ;;
                     r <- items l' false ;;
                     Ok ((if first then [] else [0x2C%N]) ++ t ++ r)
                 end) l true ;;
      Ok (0x5B%N :: body ++ [0x5D%N])
  | JDict d =>
      body <- (fix items (d : list (str * json)) (first : bool)
                 : outcome str :=
                 match d with
                 | [] => Ok []
                 | (k, v) :: d' =>
                     t <- dumps v ;;
                     r <- items d' false ;;
                     Ok ((if first then [] else [0x2C%N])
                           ++ dumps_str k ++ 0x3A%N :: t ++ r)
                 end) d true ;;
      Ok (0x7B%N :: body ++ [0x7D%N])
  end.

Definition is_ws (c : char) : bool :=
  N.eqb c 0x20 || N.eqb c 0x09 || N.eqb c 0x0A || N.eqb c 0x0D.

Fixpoint skip_ws (s : str) : str :=
  match s with
  | c :: s' => if is_ws c then skip_ws s' else s
  | [] => []
  end.

Definition hex4_val (a b c d : char) : option N :=
  match hex_val a, hex_val b, hex_val c, hex_val d with
  | Some x, Some y, Some z, Some w =>
      Some (4096 * x + 256 * y + 16 * z + w)%N
  | _, _, _, _ => None
  end.

Definition simple_escape (e : char) : option char :=
  if N.eqb e 0x22 then Some 0x22%N
  else if N.eqb e 0x5C then Some 0x5C%N
  else if N.eqb e 0x2F then Some 0x2F%N
  else if N.eqb e 0x62 then Some 0x08%N
  else if N.eqb e 0x66 then Some 0x0C%N
  else if N.eqb e 0x6E then Some 0x0A%N
  else if N.eqb e 0x72 then Some 0x0D%N
  else if N.eqb e 0x74 then Some 0x09%N
  else None.

(** The rest of a string literal, after its opening quote: the string
    and what follows the closing quote. [acc] is the string so far, last
    character first. *)
Fixpoint string_body (s : str) (acc : str) : option (str * str) :=
  match s with
  | [] => None
  | c :: r =>
      if N.eqb c 0x22 then Some (rev acc, r)
      else if N.eqb c 0x5C then
        match r with
        | e :: r1 =>
            if N.eqb e 0x75 then
              match r1 with
              | a :: b :: c' :: d :: r2 =>
                  match hex4_val a b c' d with
                  | None => None
                  | Some hi =>
                      match r2 with
                      | b1 :: u1 :: a' :: b' :: c'' :: d' :: r3 =>
                          match hex4_val a' b' c'' d' with
                          | Some lo =>
                              if (N.leb 0xD800 hi && N.leb hi 0xDBFF
                                  && N.eqb b1 0x5C && N.eqb u1 0x75
                                  && N.leb 0xDC00 lo && N.leb lo 0xDFFF)%N
                              then
                                string_body r3
                                  ((0x10000 + 1024 * (hi - 0xD800)
                                    + (lo - 0xDC00))%N :: acc)
                              else string_body r2 (hi :: acc)
                          | None => string_body r2 (hi :: acc)
                          end
                      | _ => string_body r2 (hi :: acc)
                      end
                  end
              | _ => None
              end
            else
              match simple_escape e with
              | Some x => string_body r1 (x :: acc)
              | None => None
              end
        | [] => None
        end
      else if N.ltb c 0x20 then None
      else string_body r (c :: acc)
  end.

Definition is_digit (c : char) : bool := (N.leb 0x30 c && N.leb c 0x39)%N.

Fixpoint digits (s : str) (acc : N) : N * str :=
  match s with
  | c :: s' =>
      if is_digit c then digits s' (10 * acc + (c - 0x30))%N else (acc, s)
  | [] => (acc, [])
  end.

(** An integer literal: [0], or a non-zero digit and more digits; a
    fraction or an exponent after it makes a [float], refused here. *)
Definition number (s : str) : option (N * str) :=
  match s with
  | c :: s' =>
      if is_digit c then
        let (n, rest) :=
          if N.eqb c 0x30 then (0%N, s') else digits s 0 in
        match rest with
        | x :: _ =>
            if N.eqb x 0x2E || N.eqb x 0x65 || N.eqb x 0x45 then None
            else Some (n, rest)
        | [] => Some (n, rest)
        end
      else None
  | [] => None
  end.

Definition expect (word : str) (value : json) (s : str)
  : option (json * str) :=
  if startswith s word
  then Some (value, skipn (List.length word) s) else None.

Fixpoint value (fuel : nat) (s : str) : option (json * str) :=
  match fuel with
  | O => None
  | S fuel' =>
      match skip_ws s with
      | [] => None
      | c :: r =>
          if N.eqb c 0x6E then expect (lit "null") JNull (c :: r)
          else if N.eqb c 0x74 then expect (lit "true") (JBool true) (c :: r)
          else if N.eqb c 0x66 then
            expect (lit "false") (JBool false) (c :: r)
          else if N.eqb c 0x22 then
            match string_body r [] with
            | Some (str, rest) => Some (JStr str, rest)
            | None => None
            end
          else if N.eqb c 0x2D then
            match number r with
            | Some (n, rest) => Some (JInt (- Z.of_N n), rest)
            | None => None
            end
          else if N.eqb c 0x5B then
            match skip_ws r with
            | x :: rest =>
                if N.eqb x 0x5D then Some (JList [], rest)
                else elements fuel' (x :: rest) []
            | [] => None
            end
          else if N.eqb c 0x7B then
            match skip_ws r with
            | x :: rest =>
                if N.eqb x 0x7D then Some (JDict [], rest)
                else members fuel' (x :: rest) []
            | [] => None
            end
          else
            match number (c :: r) with
            | Some (n, rest) => Some (JInt (Z.of_N n), rest)
            | None => None
            end
      end
  end

with elements (fuel : nat) (s : str) (acc : list json)
  : option (json * str) :=
  match fuel with
  | O => None
  | S fuel' =>
      match value fuel' s with
      | Some (v, rest) =>
          match skip_ws rest with
          | x :: rest' =>
              if N.eqb x 0x2C then elements fuel' rest' (v :: acc)
              else if N.eqb x 0x5D then Some (JList (rev (v :: acc)), rest')
              else None
          | [] => None
          end
      | None => None
      end
  end

with members (fuel : nat) (s : str) (acc : list (str * json))
  : option (json * str) :=
  match fuel with
  | O => None
  | S fuel' =>
      match skip_ws s with
      | q :: r =>
          if N.eqb q 0x22 then
            match string_body r [] with
            | Some (key, rest) =>
                match skip_ws rest with
                | colon :: rest1 =>
                    if N.eqb colon 0x3A then
                      match value fuel' rest1 with
                      | Some (v, rest2) =>
                          match skip_ws rest2 with
                          | x :: rest3 =>
                              if N.eqb x 0x2C then
                                members fuel' rest3 (dict_set acc key v)
                              else if N.eqb x 0x7D then
                                Some (JDict (dict_set acc key v), rest3)
                              else None
                          | [] => None
                          end
                      | None => None
                      end
                    else None
                | [] => None
                end
            | None => None
            end
          else None
      | [] => None
      end
  end.

Definition loads (s : str) : outcome json :=
  match value (2 * List.length s + 2) s with
  | Some (v, rest) =>
      match skip_ws rest with
      | [] => Ok v
      | _ :: _ => Raise JSONDecodeError
      end
  | None => Raise JSONDecodeError
  end.

End Json.

(** The framed octets of a message given as ASCII JSON text. *)
Definition frame (text : str) : bytes :=
  lit "Content-Length: " ++ decimal (N.of_nat (List.length text))
      ++ [0x0D; 0x0A; 0x0D; 0x0A]%N ++ text.

Definition open_stream : ostream := {| written := []; writable := true |}.
Definition closed_stream : ostream := {| written := []; writable := false |}.

(** An item of the decoder that the encoder accepts. *)
Definition item_ok (i : option char) : Prop :=
  match i with
  | Some c => encodable_char c = true
  | None => True
  end.

(** The computation returns a value. *)
Definition returns {A} (r : outcome A) : Prop := exists a, r = Ok a.

(** The computation raises nothing but [UnicodeEncodeError]. *)
Definition fails_only_encoding {A} (r : outcome A) : Prop :=
  forall e, r = Raise e -> e = UnicodeEncodeError.

(** The computation on the bounded stack does what the computation on an
    unbounded stack does, or raises [RecursionError]. *)
Definition within_stack {A} (bounded unbounded : outcome A) : Prop :=
  bounded = unbounded \/ bounded = Raise RecursionError.

(** Lead octets of sequences of two, three and four octets. *)
Definition lead2 (b : N) : bool := (N.leb 0xC2 b && N.leb b 0xDF)%N.
Definition lead3 (b : N) : bool := (N.leb 0xE0 b && N.leb b 0xEF)%N.
Definition lead4 (b : N) : bool := (N.leb 0xF0 b && N.leb b 0xF4)%N.

(** What the encoder writes for [c] is one well-formed sequence that the
    decoder reads back as [c]. *)
Definition encoding_ok (c : char) : bool :=
  match utf8_encode_char c with
  | None => true
  | Some [b0] => N.ltb b0 0x80 && N.eqb b0 c
  | Some [b0; b1] => lead2 b0 && is_cont b1 && N.eqb (cp2 b0 b1) c
  | Some [b0; b1; b2] =>
      lead3 b0 && second_ok b0 b1 && is_cont b2 && N.eqb (cp3 b0 b1 b2) c
  | Some [b0; b1; b2; b3] =>
      lead4 b0 && second_ok b0 b1 && is_cont b2 && is_cont b3
      && N.eqb (cp4 b0 b1 b2 b3) c
  | Some _ => false
  end.

(** Octets, or characters, all below 0x80. *)
Definition is_ascii (s : list N) : bool := forallb (fun c => N.ltb c 0x80) s.

(** ASCII decimal digits only. *)
Definition all_digits (s : str) : bool := forallb Json.is_digit s.

(** The start of the header line [write_message] writes. *)
Definition HEADER_NAME : str := Eval cbv in lit "Content-Length: ".

(** A request as a client sends it. *)
Definition hover_request_items : list (str * json) :=
  [(lit "jsonrpc", JStr (lit "2.0"));
   (lit "id", JInt 1);
   (lit "method", JStr (lit "textDocument/hover"));
   (lit "params",
    JDict [(lit "textDocument",
            JDict [(lit "uri", JStr (lit "file:///work/host/a b.py"))]);
           (lit "position",
            JDict [(lit "line", JInt 3); (lit "character", JInt 0)])])].

Definition hover_request : json := JDict hover_request_items.

(** How a turn ends, without the state. *)
Inductive turn_kind : Set :=
| Continues
| Breaks
| Raises (e : exn).

Definition kind_of (t : turn) : turn_kind :=
  match t with
  | Continue _ => Continues
  | Break _ => Breaks
  | Raised e _ => Raises e
  end.

Definition state_of (t : turn) : proxy :=
  match t with
  | Continue st | Break st | Raised _ st => st
  end.

Definition initialized_notification : str :=
  qlit "{'jsonrpc':'2.0','method':'initialized','params':{}}".

Definition did_open_notification : str :=
  qlit ("{'jsonrpc':'2.0','method':'textDocument/didOpen','params':"
        ++ "{'textDocument':{'uri':'file:///work/host/a.py','version':1}}}").

Definition hover_request_text : str :=
  qlit ("{'jsonrpc':'2.0','id':1,'method':'textDocument/hover','params':"
        ++ "{'textDocument':{'uri':'file:///work/host/a b.py'},"
        ++ "'position':{'line':3,'character':0}}}").

(** A pipe from the child that holds, at every read, all the child still
    delivers: the child has written and closed before the proxy reads. *)
Definition delivered (octets : istream) : raw_stream :=
  {| arriving := octets; ready := fun left => List.length left |}.

(** A pipe from the child that holds at most [n] octets at a time. *)
Definition trickling (n : nat) (octets : istream) : raw_stream :=
  {| arriving := octets; ready := fun _ => n |}.

(** A proxy at start-up, with the given input on the two streams it reads
    and the given pipe to the child. *)
Definition start (client_in : istream) (pipe : ostream) (child_out : istream)
  : proxy :=
  {| running := true; stdin := client_in; stdout := open_stream;
     child_stdin := pipe; child_stdout := delivered child_out;
     child_exits_in_time := true; child_calls := []; logged := [] |}.

(** A memory that grants every buffer, and one that grants [limit] octets
    at most. *)
Definition ample_memory : Memory := fun _ => None.

Definition memory_of (limit : Z) : Memory :=
  fun n => if Z.leb n limit then None else Some MemoryError.

(** The proxy with the default roots and the codec above. *)
Definition default_iteration : proxy -> turn :=
  JsonRpcProxy.iteration (memory := ample_memory)
                         DEFAULT_HOST_ROOT DEFAULT_CONTAINER_ROOT
                         Json.dumps Json.loads.

Definition default_run : proxy -> option proxy :=
  JsonRpcProxy.run (memory := ample_memory)
                   DEFAULT_HOST_ROOT DEFAULT_CONTAINER_ROOT
                   Json.dumps Json.loads.

(** A prefix that is a filesystem path and cannot be taken for a URI:
    neither does it start with [file://], nor is it a start of [file://]
    (the empty prefix is). Every absolute path is one. *)
Definition plain_prefix (p : str) : bool :=
  negb (startswith p PathRewriter.FILE2)
  && negb (startswith PathRewriter.FILE2 p).

(** ** Definitions for the further properties *)

(** One octet as [quote_byte] writes it reads back as that octet. *)
Definition quote_byte_ok (b : N) : bool :=
  match quote_byte b with
  | [c] => negb (N.eqb c 0x25) && N.ltb c 0x80 && N.eqb c b
  | [p; h1; h2] =>
      N.eqb p 0x25
      && match hex_val h1, hex_val h2 with
         | Some x, Some y => N.eqb (16 * x + y) b
         | _, _ => false
         end
  | _ => false
  end.

(** [f] applied to every string value of a message, in order; keys, the
    order of keys and of elements, and all other values are kept. *)
Fixpoint map_strings (f : str -> outcome str) (j : json) : outcome json :=
  match j with
  | JStr s => r <- f s ;; Ok (JStr r)
  | JList l => l' <- mapM (map_strings f) l ;; Ok (JList l')
  | JDict d =>
      d' <- mapM (fun kv => v <- map_strings f (snd kv) ;; Ok (fst kv, v)) d ;;
      Ok (JDict d')
  | _ => Ok j
  end.

(** A message with the text of every string value blanked. *)
Fixpoint skeleton (j : json) : json :=
  match j with
  | JStr _ => JStr []
  | JList l => JList (List.map skeleton l)
  | JDict d => JDict (List.map (fun kv => (fst kv, skeleton (snd kv))) d)
  | _ => j
  end.



(** The loop body of [rewrite_object] without the [workspaceFolders] case
    (lines 151-154). *)
Definition rewrite_value_no_workspace (key : str) (value : json)
  (from_prefix to_prefix : str) : outcome json :=
  if PathRewriter.in_path_keys key then
    match value with
    | JStr _ => PathRewriter.rewrite_path value from_prefix to_prefix
    | JList l =>
        l' <- mapM (fun item =>
                match item with
                | JStr _ =>
                    PathRewriter.rewrite_path item from_prefix to_prefix
                | _ =>
                    PathRewriter.rewrite_object item from_prefix to_prefix
                end) l ;;
        Ok (JList l')
    | _ => PathRewriter.rewrite_object value from_prefix to_prefix
    end
  else PathRewriter.rewrite_object value from_prefix to_prefix.


(** One header line as it stands on the wire: the name, a colon, the
    value, CR LF. *)
Definition header_line (name value : str) : bytes :=
  name ++ 0x3A%N :: value ++ JsonRpcProxy.CRLF.

(** A block of header lines. *)
Definition header_block (hs : list (str * str)) : bytes :=
  flat_map (fun h => header_line (fst h) (snd h)) hs.

(** A header in ASCII whose name holds no colon and which holds no line
    feed. *)
Definition simple_header (h : str * str) : bool :=
  is_ascii (fst h) && is_ascii (snd h)
  && negb (contains 0x3A%N (fst h))
  && negb (contains 0x0A%N (fst h)) && negb (contains 0x0A%N (snd h)).

(** The value, trimmed, of the last header of [hs] whose name, trimmed and
    in lower case, is [key]; [start] if there is none. *)
Definition last_header (key : str) (hs : list (str * str))
  (start : option str) : option str :=
  fold_left (fun found h =>
               if str_eqb (lower (strip (fst h))) key
               then Some (strip (snd h)) else found) hs start.

(** A line of a header block, without its line feed: it holds no line
    feed and is not the blank line. *)
Definition plain_line (line : bytes) : bool :=
  negb (contains 0x0A%N line) && negb (bytes_eqb line [0x0D%N]).

(** The lines as they stand on the stream, each with its line feed. *)
Definition lines_octets (lines : list bytes) : bytes :=
  flat_map (fun line => line ++ [0x0A%N]) lines.

(** What the header loop of [read_message] makes of one line (lines
    237-239). *)
Definition header_of_line (headers : list (str * str)) (line : bytes)
  : list (str * str) :=
  if contains 0x3A%N line then
    match split_colon (utf8_decode_replace (line ++ [0x0A%N])) with
    | Some (key, value) =>
        dict_set headers (lower (strip key)) (strip value)
    | None => headers
    end
  else headers.

Definition headers_of_lines (lines : list bytes) : list (str * str) :=
  fold_left header_of_line lines [].

(** [int(headers.get("content-length", 0))] (line 242) *)
Definition content_length_of (headers : list (str * str)) : outcome Z :=
  match dict_get headers JsonRpcProxy.CONTENT_LENGTH with
  | Some v => py_int v
  | None => Ok 0%Z
  end.

(** The result of the header loop on a raw stream, from its result on the
    octets the stream delivers. *)
Definition on_raw (stream : raw_stream) (r : headers_result istream)
  : headers_result raw_stream :=
  match r with
  | HeadersEof rest => HeadersEof (raw_after stream rest)
  | HeadersDone headers rest => HeadersDone headers (raw_after stream rest)
  | HeadersRaise e rest => HeadersRaise e (raw_after stream rest)
  | HeadersFuel => HeadersFuel
  end.

(** A memory of 4 GiB. *)
Definition tight_memory : Memory := memory_of 4294967296.

(** [isinstance(m, dict)] *)
Definition is_mapping (m : json) : bool :=
  match m with
  | JDict _ => true
  | _ => false
  end.

(** The second state continues the first: the flags and the calls made to
    the child are the same, input has only been consumed, output and log
    have only been added to. *)
Definition grows (st st' : proxy) : Prop :=
  running st' = running st
  /\ child_exits_in_time st' = child_exits_in_time st
  /\ child_calls st' = child_calls st
  /\ (exists consumed, stdin st = consumed ++ stdin st')
  /\ (exists consumed,
         arriving (child_stdout st)
         = consumed ++ arriving (child_stdout st'))
  /\ ready (child_stdout st') = ready (child_stdout st)
  /\ (exists data, written (stdout st') = written (stdout st) ++ data)
  /\ (exists data,
         written (child_stdin st') = written (child_stdin st) ++ data)
  /\ (exists records, logged st' = logged st ++ records).

Section Session.

Variables HOST_ROOT CONTAINER_ROOT : str.
Variable json_dumps : json -> outcome str.
Variable json_loads : str -> outcome json.

(** The octets [write_message] puts on an open stream for a message;
    nothing when the message cannot be serialized. *)
Definition wire (message : json) : bytes :=
  match (content <- json_dumps message ;;
         content_bytes <- utf8_encode content ;;
         Ok (JsonRpcProxy.header content_bytes ++ content_bytes)) with
  | Ok data => data
  | Raise _ => []
  end.

(** The serializer gives a text for the message that UTF-8 encodes. *)
Definition sendable (message : json) : Prop :=
  exists text, json_dumps message = Ok text /\ encodable text = true.

(** The message goes through the codec: its text is not empty, encodes,
    and is parsed back to the message. *)
Definition carried (message : json) : Prop :=
  exists text,
    json_dumps message = Ok text /\ json_loads text = Ok message
    /\ text <> [] /\ encodable text = true.

(** The message as [process_message] passes it on ([JNull] when it
    raises). *)
Definition forwarded (message : json) (direction : str) : json :=
  match JsonRpcProxy.process_message HOST_ROOT CONTAINER_ROOT message
                                     direction with
  | Ok m => m
  | Raise _ => JNull
  end.

(** A message of the client with, for a request, the message the server
    sends next. The exchange is sound when the codec carries both, when
    both are rewritten to messages that can be sent, and when there is a
    reply exactly for a message with an [id]. *)
Definition sound_exchange (x : json * option json) : Prop :=
  carried (fst x)
  /\ (exists m,
         JsonRpcProxy.process_message HOST_ROOT CONTAINER_ROOT (fst x)
                                      JsonRpcProxy.TO_CONTAINER
         = Ok m
         /\ sendable m)
  /\ match snd x with
     | Some r =>
         JsonRpcProxy.contains_id (fst x) = Ok true
         /\ carried r
         /\ exists m,
             JsonRpcProxy.process_message HOST_ROOT CONTAINER_ROOT r
                                          JsonRpcProxy.TO_HOST
             = Ok m
             /\ sendable m
     | None => JsonRpcProxy.contains_id (fst x) = Ok false
     end.

(** What the four streams carry in a session made of the exchanges. *)
Definition from_client (script : list (json * option json)) : bytes :=
  flat_map (fun x => wire (fst x)) script.

Definition from_server (script : list (json * option json)) : bytes :=
  flat_map (fun x => match snd x with
                     | Some r => wire r
                     | None => []
                     end) script.

Definition to_server (script : list (json * option json)) : bytes :=
  flat_map (fun x => wire (forwarded (fst x) JsonRpcProxy.TO_CONTAINER)) script.

(** The body of a message on the wire, after the header and the blank
    line. *)
Definition wire_body (message : json) : bytes :=
  match (content <- json_dumps message ;; utf8_encode content) with
  | Ok content_bytes => content_bytes
  | Raise _ => []
  end.

(** The pipe from the child hands over the body of every reply of the
    script in one piece: when the proxy comes to read a body, the pipe
    holds all of it. [pace] is the [ready] of the pipe: how much it
    holds, from what is still to arrive. *)
Fixpoint whole_replies (pace : istream -> nat)
  (script : list (json * option json)) (extra : istream) : bool :=
  match script with
  | [] => true
  | x :: script' =>
      match snd x with
      | Some r =>
          Nat.leb (List.length (wire_body r))
                  (pace (wire_body r ++ from_server script' ++ extra))
      | None => true
      end
      && whole_replies pace script' extra
  end.

Definition to_client (script : list (json * option json)) : bytes :=
  flat_map (fun x => match snd x with
                     | Some r => wire (forwarded r JsonRpcProxy.TO_HOST)
                     | None => []
                     end) script.

End Session.

(** [forward_stderr] (lines 205-215), the loop of the thread that copies
    the child's standard error: [running i] is the value of
    [self.running] the thread sees at its [i]-th test. The result is what
    is left of the child's stream, our standard error, and the exception
    logged if one was raised. Every turn that goes on has read a
    non-empty line, so [fuel] above the length of the stream is never
    used up. *)
Fixpoint forward_stderr (fuel : nat) (running : nat -> bool) (i : nat)
  (child_stderr : istream) (stderr : ostream)
  : option (istream * ostream * option exn) :=
  match fuel with
  | O => None
  | S fuel' =>
      if running i then
        let (line, rest) := readline child_stderr in
        match line with
        | [] => Some (rest, stderr, None)
        | _ :: _ =>
            match (s <- stream_write stderr line ;; stream_flush s) with
            | Ok stderr' =>
                forward_stderr fuel' running (S i) rest stderr'
            | Raise e => Some (rest, stderr, Some e)
            end
        end
      else Some (child_stderr, stderr, None)
  end.

(** A session of two exchanges: a notification, then a request with the
    reply of the server. *)
Definition hover_reply : json :=
  JDict [(lit "jsonrpc", JStr (lit "2.0"));
         (lit "id", JInt 1);
         (lit "result",
          JDict [(lit "uri", JStr (lit "file:///work/container/a b.py"))])].

Definition did_open : json :=
  JDict [(lit "jsonrpc", JStr (lit "2.0"));
         (lit "method", JStr (lit "textDocument/didOpen"));
         (lit "params",
          JDict [(lit "textDocument",
                  JDict [(lit "uri", JStr (lit "file:///work/host/a.py"));
                         (lit "version", JInt 1)])])].

Definition hover_session : list (json * option json) :=
  [(did_open, None); (hover_request, Some hover_reply)].

(** * Properties *)

(** ** Strings *)

Lemma startswith_app (p r : str) : startswith (p ++ r) p = true.
Proof.
  induction p as [|c p IH]; simpl; [reflexivity|].
  now rewrite N.eqb_refl, IH.
Qed.

Lemma startswith_skipn (s p : str) :
  startswith s p = true -> s = p ++ skipn (List.length p) s.
Proof.
  revert s; induction p as [|c p IH]; intros s H; simpl in *; [reflexivity|].
  destruct s as [|d s]; [discriminate|].
  apply andb_true_iff in H as [Hc Hp].
  apply N.eqb_eq in Hc; subst d.
  now rewrite <- (IH s Hp).
Qed.

Lemma startswith_prefix (s p q : str) :
  startswith s (p ++ q) = true -> startswith s p = true.
Proof.
  revert s; induction p as [|c p IH]; intros s H; simpl in *; [reflexivity|].
  destruct s as [|d s]; [discriminate|].
  apply andb_true_iff in H as [Hc Hp].
  rewrite Hc; simpl; eauto.
Qed.

Lemma skipn_length_app (p r : str) : skipn (List.length p) (p ++ r) = r.
Proof. induction p; simpl; auto. Qed.

Lemma str_eqb_refl (a : str) : str_eqb a a = true.
Proof. induction a; simpl; [reflexivity|]. now rewrite N.eqb_refl. Qed.

Lemma str_eqb_eq (a b : str) : str_eqb a b = true <-> a = b.
Proof.
  split; [|intros ->; apply str_eqb_refl].
  revert b; induction a as [|x a IH]; destruct b as [|y b]; simpl;
    try discriminate; auto.
  intros H; apply andb_true_iff in H as [Hx Ha].
  apply N.eqb_eq in Hx; subst; f_equal; auto.
Qed.

Lemma str_eqb_neq (a b : str) : str_eqb a b = false <-> a <> b.
Proof.
  rewrite <- str_eqb_eq. destruct (str_eqb a b); split; congruence.
Qed.

Lemma absolute_mismatch (s from_prefix : str) :
  is_absolute from_prefix = true ->
  is_absolute s = false ->
  startswith s from_prefix = false.
Proof.
  unfold is_absolute.
  destruct from_prefix as [|c f]; simpl; [discriminate|].
  destruct s as [|d s]; simpl; [reflexivity|].
  rewrite !andb_true_r. intros Hc Hd.
  apply N.eqb_eq in Hc; subst c. now rewrite Hd.
Qed.

Lemma startswith_app_cases (x r q : str) :
  startswith (x ++ r) q = true ->
  startswith x q = true \/ startswith q x = true.
Proof.
  revert q; induction x as [|c x IH]; intros q H.
  - right. reflexivity.
  - destruct q as [|d q]; [left; reflexivity|].
    cbn [startswith app] in *.
    apply andb_true_iff in H as [Hc Hq].
    rewrite Hc. rewrite N.eqb_sym in Hc. rewrite Hc. cbn [andb].
    now apply IH.
Qed.

(** Whatever follows a plain prefix, the result is not a [file://] URI. *)
Lemma plain_prefix_not_uri (p r : str) :
  plain_prefix p = true -> startswith (p ++ r) PathRewriter.FILE2 = false.
Proof.
  unfold plain_prefix. intros H.
  apply andb_true_iff in H as [H1 H2].
  apply negb_true_iff in H1, H2.
  destruct (startswith (p ++ r) PathRewriter.FILE2) eqn:E; [|reflexivity].
  apply startswith_app_cases in E as [E|E]; congruence.
Qed.

Lemma absolute_plain_prefix (p : str) :
  is_absolute p = true -> plain_prefix p = true.
Proof.
  unfold is_absolute, plain_prefix.
  destruct p as [|c p]; [discriminate|].
  cbn [startswith]. rewrite andb_true_r. intros H.
  apply N.eqb_eq in H; subst c. reflexivity.
Qed.

Arguments startswith : simpl never.

(** ** rewrite_path *)

Module PathRewriterFacts.
Import PathRewriter.

Lemma file3_is_file2 (s : str) :
  startswith s FILE3 = true -> startswith s FILE2 = true.
Proof. apply (startswith_prefix s FILE2 [0x2F%N]). Qed.

Lemma rewrite_path_str_plain (s from_prefix to_prefix : str) :
  startswith s FILE2 = false ->
  startswith s from_prefix = true ->
  rewrite_path_str s from_prefix to_prefix
  = Ok (to_prefix ++ skipn (List.length from_prefix) s).
Proof.
  intros H2 Hf. unfold rewrite_path_str. rewrite H2.
  destruct (startswith s FILE3) eqn:H3.
  - apply file3_is_file2 in H3. congruence.
  - now rewrite Hf.
Qed.

Lemma rewrite_path_str_other (s from_prefix to_prefix : str) :
  startswith s FILE2 = false ->
  startswith s from_prefix = false ->
  rewrite_path_str s from_prefix to_prefix = Ok s.
Proof.
  intros H2 Hf. unfold rewrite_path_str. rewrite H2.
  destruct (startswith s FILE3) eqn:H3.
  - apply file3_is_file2 in H3. congruence.
  - now rewrite Hf.
Qed.

End PathRewriterFacts.

Import PathRewriter PathRewriterFacts.

(** C1: for root prefixes that are filesystem paths (absolute paths, or any
    prefix that cannot be taken for a [file://] URI) and every path [p]
    that starts with [from_prefix], rewriting [p] from [from_prefix] to
    [to_prefix] and the result back from [to_prefix] to [from_prefix]
    returns [p], whether by [rewrite_path] or by [rewrite_object] on the
    string. No percent-coding takes part: such a path never takes the URI
    case. *)
Theorem rewrite_path_round_trip (p from_prefix to_prefix : str) :
  plain_prefix from_prefix = true ->
  plain_prefix to_prefix = true ->
  startswith p from_prefix = true ->
  (q <- rewrite_path (JStr p) from_prefix to_prefix ;;
   rewrite_path q to_prefix from_prefix) = Ok (JStr p)
  /\ (q <- rewrite_object (JStr p) from_prefix to_prefix ;;
      rewrite_object q to_prefix from_prefix) = Ok (JStr p).
Proof.
  intros Hfrom Hto Hp.
  pose proof (startswith_skipn _ _ Hp) as Ep.
  set (rest := skipn (List.length from_prefix) p) in *.
  assert (H2 : startswith p FILE2 = false)
    by (rewrite Ep; now apply plain_prefix_not_uri).
  assert (Hgo : rewrite_path (JStr p) from_prefix to_prefix
                = Ok (JStr (to_prefix ++ rest))).
  { unfold rewrite_path.
    now rewrite (rewrite_path_str_plain _ _ to_prefix H2 Hp). }
  assert (Hback : rewrite_path (JStr (to_prefix ++ rest)) to_prefix from_prefix
                  = Ok (JStr p)).
  { unfold rewrite_path. rewrite rewrite_path_str_plain.
    - cbn [bind]. now rewrite skipn_length_app, <- Ep.
    - now apply plain_prefix_not_uri.
    - apply startswith_app. }
  split.
  - rewrite Hgo. exact Hback.
  - cbn [rewrite_object]. rewrite Hp. cbn [orb]. rewrite Hgo.
    cbn [bind rewrite_object]. rewrite startswith_app. cbn [orb].
    exact Hback.
Qed.

Lemma rewrite_path_round_trip_witness :
  (q <- rewrite_path (JStr (lit "/work/host/src/a.py"))
          DEFAULT_HOST_ROOT DEFAULT_CONTAINER_ROOT ;;
   rewrite_path q DEFAULT_CONTAINER_ROOT DEFAULT_HOST_ROOT)
  = Ok (JStr (lit "/work/host/src/a.py"))
  /\ (q <- rewrite_object (JStr (lit "/work/host/src/a.py"))
            DEFAULT_HOST_ROOT DEFAULT_CONTAINER_ROOT ;;
      rewrite_object q DEFAULT_CONTAINER_ROOT DEFAULT_HOST_ROOT)
     = Ok (JStr (lit "/work/host/src/a.py")).
Proof.
  apply (rewrite_path_round_trip (lit "/work/host/src/a.py")
           DEFAULT_HOST_ROOT DEFAULT_CONTAINER_ROOT); reflexivity.
Defined.

(** C2: the two worked examples of [rewrite_path]: a plain [file:///] URI
    under the host root, and a URI whose path is percent-encoded, which is
    decoded, rewritten and encoded again with [/] kept. *)
Theorem rewrite_path_examples :
  rewrite_path (JStr (lit "file:///work/host/src/a.py"))
               (lit "/work/host") (lit "/work/container")
  = Ok (JStr (lit "file:///work/container/src/a.py"))
  /\ (enc <- encode_uri_component (lit "/work/host/my file.py") ;;
      rewrite_path (JStr (lit "file://" ++ enc))
                   (lit "/work/host") (lit "/work/container"))
     = (enc' <- encode_uri_component (lit "/work/container/my file.py") ;;
        Ok (JStr (lit "file://" ++ enc')))
  /\ (enc <- encode_uri_component (lit "/work/host/my file.py") ;;
      rewrite_path (JStr (lit "file://" ++ enc))
                   (lit "/work/host") (lit "/work/container"))
     = Ok (JStr (lit "file:///work/container/my%20file.py")).
Proof. repeat split; vm_compute; reflexivity. Qed.

(** C10: a value that begins with [file:///] also begins with [file://],
    so the first URI case handles it, with the third slash as the first
    character of the extracted path; the [file:///] case is never entered,
    and [rewrite_path] agrees everywhere with the function that lacks it.
    Were the dead case entered, it would drop that slash, and a remainder
    that is plain (no [%]) and does not itself begin with a slash would not
    match an absolute prefix: the value would come back unchanged. *)
Theorem file3_branch_unreachable :
  (forall (value : json) (from_prefix to_prefix : str),
      rewrite_path value from_prefix to_prefix
      = rewrite_path_no_file3 value from_prefix to_prefix)
  /\ (forall s from_prefix to_prefix : str,
         startswith s FILE3 = true ->
         rewrite_path (JStr s) from_prefix to_prefix
         = (r <- file2_branch s from_prefix to_prefix ;; Ok (JStr r))
         /\ skipn 7 s = 0x2F%N :: skipn 8 s)
  /\ (forall rest from_prefix to_prefix : str,
         is_absolute from_prefix = true ->
         contains PERCENT rest = false ->
         is_absolute rest = false ->
         file3_branch (FILE3 ++ rest) from_prefix to_prefix
         = Ok (FILE3 ++ rest)).
Proof.
  split; [|split].
  - intros [] from_prefix to_prefix; try reflexivity.
    unfold rewrite_path, rewrite_path_no_file3, rewrite_path_str.
    destruct (startswith s FILE2) eqn:H2; [reflexivity|].
    destruct (startswith s FILE3) eqn:H3; [|reflexivity].
    apply file3_is_file2 in H3; congruence.
  - intros s from_prefix to_prefix H3. split.
    + unfold rewrite_path, rewrite_path_str.
      now rewrite (file3_is_file2 _ H3).
    + rewrite (startswith_skipn _ _ H3) at 1. reflexivity.
  - intros rest from_prefix to_prefix Hf Hp Hr.
    unfold file3_branch.
    change (skipn 8 (FILE3 ++ rest)) with rest.
    rewrite Hp. now rewrite (absolute_mismatch _ _ Hf Hr).
Qed.

Lemma file3_branch_unreachable_witness :
  (rewrite_path (JStr (lit "file:///work/host/src/a.py"))
                DEFAULT_HOST_ROOT DEFAULT_CONTAINER_ROOT
   = rewrite_path_no_file3 (JStr (lit "file:///work/host/src/a.py"))
                           DEFAULT_HOST_ROOT DEFAULT_CONTAINER_ROOT)
  /\ (rewrite_path (JStr (lit "file:///work/host/src/a.py"))
                   DEFAULT_HOST_ROOT DEFAULT_CONTAINER_ROOT
      = (r <- file2_branch (lit "file:///work/host/src/a.py")
                           DEFAULT_HOST_ROOT DEFAULT_CONTAINER_ROOT ;; Ok (JStr r))
      /\ skipn 7 (lit "file:///work/host/src/a.py")
         = 0x2F%N :: skipn 8 (lit "file:///work/host/src/a.py"))
  /\ file3_branch (FILE3 ++ lit "work/host/src/a.py")
                  DEFAULT_HOST_ROOT DEFAULT_CONTAINER_ROOT
     = Ok (FILE3 ++ lit "work/host/src/a.py").
Proof.
  destruct file3_branch_unreachable as (Hext & Hfile2 & Hdead).
  split; [|split].
  - apply Hext.
  - apply (Hfile2 (lit "file:///work/host/src/a.py")); reflexivity.
  - apply (Hdead (lit "work/host/src/a.py")); reflexivity.
Defined.

(** ** rewrite_object *)

Lemma distinct_NoDup (keys : list str) :
  distinct keys = true <-> NoDup keys.
Proof.
  induction keys as [|k keys IH]; simpl.
  - split; [constructor | reflexivity].
  - rewrite andb_true_iff, negb_true_iff, IH. split.
    + intros [Hk Hd]. constructor; [|exact Hd].
      intros Hin.
      assert (E : existsb (str_eqb k) keys = true)
        by (apply existsb_exists; exists k; split;
            [exact Hin | apply str_eqb_refl]).
      congruence.
    + intros H; inversion H as [|? ? Hk Hd]; subst. split; [|exact Hd].
      destruct (existsb (str_eqb k) keys) eqn:E; [|reflexivity].
      apply existsb_exists in E as (k' & Hin & E).
      apply str_eqb_eq in E; subst. contradiction.
Qed.

Lemma forallb_forall_iff {A} (f : A -> bool) (l : list A) :
  forallb f l = true <-> Forall (fun x => f x = true) l.
Proof. rewrite forallb_forall, Forall_forall. reflexivity. Qed.

Lemma json_wf_list (l : list json) :
  json_wf (JList l) = true <-> Forall (fun x => json_wf x = true) l.
Proof. simpl. apply forallb_forall_iff. Qed.

Lemma json_wf_dict (d : list (str * json)) :
  json_wf (JDict d) = true
  <-> NoDup (List.map fst d)
      /\ Forall (fun kv => json_wf (snd kv) = true) d.
Proof.
  simpl. rewrite andb_true_iff, distinct_NoDup.
  apply and_iff_compat_l.
  apply (forallb_forall_iff (fun kv => json_wf (snd kv))).
Qed.



Lemma bind_ext {A B} (m : outcome A) (k1 k2 : A -> outcome B) :
  (forall a, k1 a = k2 a) -> bind m k1 = bind m k2.
Proof. intros H. destruct m; simpl; auto. Qed.

Lemma rewrite_object_dict (d : list (str * json)) (from_prefix to_prefix : str) :
  rewrite_object (JDict d) from_prefix to_prefix
  = rewrite_items from_prefix to_prefix d [].
Proof.
  simpl. generalize (@nil (str * json)) as acc.
  induction d as [|[k v] d IH]; intros acc; [reflexivity|].
  simpl. unfold rewrite_value.
  apply bind_ext. intros a. apply IH.
Qed.

Lemma rewrite_object_list (l : list json) (from_prefix to_prefix : str) :
  rewrite_object (JList l) from_prefix to_prefix
  = (l' <- mapM (fun item => rewrite_object item from_prefix to_prefix) l ;;
     Ok (JList l')).
Proof. reflexivity. Qed.

Lemma dict_set_fresh {V} (d : list (str * V)) (key : str) (v : V) :
  ~ In key (List.map fst d) -> dict_set d key v = d ++ [(key, v)].
Proof.
  induction d as [|[k w] d IH]; simpl; intros H; [reflexivity|].
  destruct (str_eqb k key) eqn:E.
  - apply str_eqb_eq in E. tauto.
  - f_equal. apply IH. tauto.
Qed.

(** On a dict (distinct keys) the loop is a map over the items, in order. *)
Lemma rewrite_items_map (from_prefix to_prefix : str)
  (items : list (str * json)) :
  forall acc : dict,
    NoDup (List.map fst (acc ++ items)) ->
    rewrite_items from_prefix to_prefix items acc
    = (vs <- mapM (fun kv =>
                     v <- rewrite_value (fst kv) (snd kv)
                            from_prefix to_prefix ;;
                     Ok (fst kv, v)) items ;;
       Ok (JDict (acc ++ vs))).
Proof.
  induction items as [|[k v] items IH]; intros acc Hnd; simpl.
  - now rewrite app_nil_r.
  - destruct (rewrite_value k v from_prefix to_prefix) as [v'|e]; simpl;
      [|reflexivity].
    assert (Hk : ~ In k (List.map fst acc)).
    { rewrite map_app in Hnd. simpl in Hnd.
      apply NoDup_remove_2 in Hnd. rewrite in_app_iff in Hnd. tauto. }
    rewrite (dict_set_fresh _ _ _ Hk), IH.
    + destruct (mapM _ items); simpl; [|reflexivity].
      now rewrite <- app_assoc.
    + rewrite <- app_assoc. simpl.
      rewrite !map_app in *. simpl in *. exact Hnd.
Qed.






Lemma rewrite_object_str_not_path_like (s from_prefix to_prefix : str) :
  path_like from_prefix s = false ->
  rewrite_object (JStr s) from_prefix to_prefix = Ok (JStr s).
Proof.
  intros H. cbn [rewrite_object]. unfold path_like in H. now rewrite H.
Qed.

(** One workspace folder entry: the [uri] goes through [rewrite_path], the
    [name] stays when it does not look like a path. *)
Lemma rewrite_workspace_folder (u n from_prefix to_prefix : str) :
  path_like from_prefix n = false ->
  rewrite_object (workspace_folder u n) from_prefix to_prefix
  = (u' <- rewrite_path_str u from_prefix to_prefix ;;
     Ok (workspace_folder u' n)).
Proof.
  intros Hn. unfold workspace_folder.
  rewrite rewrite_object_dict.
  cbn [rewrite_items].
  change (rewrite_value (lit "uri") (JStr u) from_prefix to_prefix)
    with (rewrite_path (JStr u) from_prefix to_prefix).
  change (rewrite_value (lit "name") (JStr n) from_prefix to_prefix)
    with (rewrite_object (JStr n) from_prefix to_prefix).
  unfold rewrite_path.
  destruct (rewrite_path_str u from_prefix to_prefix) as [u'|e];
    [|reflexivity].
  cbn [bind].
  now rewrite (rewrite_object_str_not_path_like _ _ _ Hn).
Qed.

Lemma mapM_map {A B C} (g : A -> B) (f : B -> outcome C) (l : list A) :
  mapM f (List.map g l) = mapM (fun x => f (g x)) l.
Proof.
  induction l as [|x l IH]; simpl; [reflexivity|]. now rewrite IH.
Qed.

Lemma mapM_ext_in {A B} (f g : A -> outcome B) (l : list A) :
  (forall x, In x l -> f x = g x) -> mapM f l = mapM g l.
Proof.
  induction l as [|x l IH]; simpl; intros H; [reflexivity|].
  rewrite (H x) by auto. rewrite IH by auto. reflexivity.
Qed.

(** C7 (as the code has it): the mapping [{"uri": "file:///work/host/x.py",
    "otherField": 42}] rewritten toward the server, by [rewrite_object]
    and so by [process_message], is
    [{"uri": "file:///work/container/x.py", "otherField": 42}], keys in the
    same order; and in a sequence of workspace folder mappings, at top
    level or under the [workspaceFolders] key, every [uri] goes through
    [rewrite_path] and every [name] that does not itself start with
    [from_prefix] or [file://] is left as it is. *)
Theorem rewrite_object_touches_paths_only :
  rewrite_object
    (JDict [(lit "uri", JStr (lit "file:///work/host/x.py"));
            (lit "otherField", JInt 42)])
    DEFAULT_HOST_ROOT DEFAULT_CONTAINER_ROOT
  = Ok (JDict [(lit "uri", JStr (lit "file:///work/container/x.py"));
               (lit "otherField", JInt 42)])
  /\ JsonRpcProxy.process_message DEFAULT_HOST_ROOT DEFAULT_CONTAINER_ROOT
       (JDict [(lit "uri", JStr (lit "file:///work/host/x.py"));
               (lit "otherField", JInt 42)])
       JsonRpcProxy.TO_CONTAINER
     = Ok (JDict [(lit "uri", JStr (lit "file:///work/container/x.py"));
                  (lit "otherField", JInt 42)])
  /\ forall (folders : list (str * str)) (from_prefix to_prefix : str),
      forallb (fun f => negb (path_like from_prefix (snd f))) folders = true ->
      let rewritten :=
        mapM (fun f =>
                u' <- rewrite_path_str (fst f) from_prefix to_prefix ;;
                Ok (workspace_folder u' (snd f))) folders in
      let entries :=
        List.map (fun f => workspace_folder (fst f) (snd f)) folders in
      rewrite_object (JList entries) from_prefix to_prefix
      = (l' <- rewritten ;; Ok (JList l'))
      /\ rewrite_object (JDict [(WORKSPACE_FOLDERS, JList entries)])
                        from_prefix to_prefix
         = (l' <- rewritten ;; Ok (JDict [(WORKSPACE_FOLDERS, JList l')])).
Proof.
  split; [vm_compute; reflexivity|]. split; [vm_compute; reflexivity|].
  intros folders from_prefix to_prefix Hnames rewritten entries.
  assert (E : mapM (fun item => rewrite_object item from_prefix to_prefix)
                   entries = rewritten).
  { unfold entries, rewritten. rewrite mapM_map.
    apply mapM_ext_in. intros [u n] Hin. simpl.
    apply rewrite_workspace_folder.
    rewrite forallb_forall in Hnames.
    specialize (Hnames _ Hin). now apply negb_true_iff in Hnames. }
  split.
  - rewrite rewrite_object_list. now rewrite E.
  - rewrite rewrite_object_dict. cbn [rewrite_items].
    assert (Ev : rewrite_value WORKSPACE_FOLDERS (JList entries)
                               from_prefix to_prefix
                 = (l' <- rewritten ;; Ok (JList l'))).
    { unfold rewrite_value.
      change (in_path_keys WORKSPACE_FOLDERS) with true. cbv iota.
      rewrite <- E. f_equal.
      unfold entries. rewrite !mapM_map. reflexivity. }
    rewrite Ev. destruct rewritten; reflexivity.
Qed.

Lemma rewrite_object_touches_paths_only_witness :
  rewrite_object
    (JList [workspace_folder (lit "file:///work/host/proj") (lit "proj");
            workspace_folder (lit "file:///srv/other") (lit "other")])
    DEFAULT_HOST_ROOT DEFAULT_CONTAINER_ROOT
  = Ok (JList [workspace_folder (lit "file:///work/container/proj")
                                (lit "proj");
               workspace_folder (lit "file:///srv/other") (lit "other")]).
Proof.
  apply (proj2 (proj2 rewrite_object_touches_paths_only)
           [(lit "file:///work/host/proj", lit "proj");
            (lit "file:///srv/other", lit "other")]
           DEFAULT_HOST_ROOT DEFAULT_CONTAINER_ROOT).
  reflexivity.
Defined.

(** C7, the part that fails: a workspace folder whose [name] is the folder's
    path is rewritten in its [name] as well, by the fallback scan. *)
Lemma workspace_folder_name_rewritten :
  rewrite_object
    (JList [workspace_folder (lit "file:///work/host/proj")
                             (lit "/work/host/proj")])
    DEFAULT_HOST_ROOT DEFAULT_CONTAINER_ROOT
  = Ok (JList [workspace_folder (lit "file:///work/container/proj")
                                (lit "/work/container/proj")])
  /\ rewrite_object
       (JList [workspace_folder (lit "file:///work/host/proj")
                                (lit "/work/host/proj")])
       DEFAULT_HOST_ROOT DEFAULT_CONTAINER_ROOT
     <> Ok (JList [workspace_folder (lit "file:///work/container/proj")
                                    (lit "/work/host/proj")]).
Proof. split; vm_compute; [reflexivity | discriminate]. Qed.

(** ** UTF-8 facts *)

Lemma in_range (lo : N) (n : nat) (x : N) :
  (lo <= x < lo + N.of_nat n)%N -> In x (range lo n).
Proof.
  revert lo; induction n as [|n IH]; intros lo H; simpl.
  - lia.
  - destruct (N.eq_dec lo x) as [->|Hne]; [now left|right].
    apply IH. lia.
Qed.

Lemma forallb_range (f : N -> bool) (lo : N) (n : nat) :
  forallb f (range lo n) = true ->
  forall x, (lo <= x < lo + N.of_nat n)%N -> f x = true.
Proof.
  intros H x Hx. rewrite forallb_forall in H. apply H. now apply in_range.
Qed.

Ltac bool_to_prop :=
  repeat match goal with
    | H : (_ && _) = true |- _ => apply andb_true_iff in H; destruct H
    | H : (_ || _) = true |- _ => apply orb_true_iff in H
    | H : N.leb _ _ = true |- _ => apply N.leb_le in H
    | H : N.ltb _ _ = true |- _ => apply N.ltb_lt in H
    | H : N.eqb _ _ = true |- _ => apply N.eqb_eq in H
    | H : N.leb _ _ = false |- _ => apply N.leb_gt in H
    | H : N.ltb _ _ = false |- _ => apply N.ltb_ge in H
    | H : N.eqb _ _ = false |- _ => apply N.eqb_neq in H
    end.

Lemma is_cont_range (b : N) :
  is_cont b = true -> (0x80 <= b < 0x80 + N.of_nat 64)%N.
Proof. unfold is_cont; intros H; bool_to_prop; lia. Qed.

Lemma second_ok_cont (b0 b1 : N) : second_ok b0 b1 = true -> is_cont b1 = true.
Proof.
  unfold second_ok, is_cont.
  repeat match goal with |- context [if ?c then _ else _] => destruct c end;
    intros H; bool_to_prop;
    apply andb_true_iff; split; apply N.leb_le; lia.
Qed.

Lemma cp2_encodable (b0 b1 : N) :
  (N.leb 0xC2 b0 && N.leb b0 0xDF)%N = true ->
  is_cont b1 = true ->
  encodable_char (cp2 b0 b1) = true.
Proof.
  intros H0 H1. apply is_cont_range in H1.
  assert (Hall : forallb (fun x => forallb (fun y => encodable_char (cp2 x y))
                                           (range 0x80 64))
                         (range 0xC2 30) = true) by (vm_cast_no_check (eq_refl true)).
  bool_to_prop.
  apply (forallb_range _ _ _ (forallb_range _ _ _ Hall b0 ltac:(lia)) b1 H1).
Qed.

Lemma cp3_encodable (b0 b1 b2 : N) :
  (N.leb 0xE0 b0 && N.leb b0 0xEF)%N = true ->
  second_ok b0 b1 = true ->
  is_cont b2 = true ->
  encodable_char (cp3 b0 b1 b2) = true.
Proof.
  intros H0 H1 H2. pose proof (second_ok_cont _ _ H1) as H1'.
  apply is_cont_range in H1', H2.
  assert (Hall :
    forallb (fun x =>
      forallb (fun y =>
        forallb (fun z => implb (second_ok x y) (encodable_char (cp3 x y z)))
                (range 0x80 64))
              (range 0x80 64))
            (range 0xE0 16) = true) by (vm_cast_no_check (eq_refl true)).
  bool_to_prop.
  pose proof (forallb_range _ _ _
                (forallb_range _ _ _
                   (forallb_range _ _ _ Hall b0 ltac:(lia)) b1 H1') b2 H2) as HH.
  cbv beta in HH. now rewrite H1 in HH.
Qed.

Lemma cp4_encodable (b0 b1 b2 b3 : N) :
  (N.leb 0xF0 b0 && N.leb b0 0xF4)%N = true ->
  second_ok b0 b1 = true ->
  is_cont b2 = true ->
  is_cont b3 = true ->
  encodable_char (cp4 b0 b1 b2 b3) = true.
Proof.
  intros H0 H1 H2 H3. pose proof (second_ok_cont _ _ H1) as H1'.
  apply is_cont_range in H1', H2, H3.
  assert (Hall :
    forallb (fun x =>
      forallb (fun y =>
        forallb (fun z =>
          forallb (fun w =>
                     implb (second_ok x y)
                           (encodable_char (cp4 x y z w)))
                  (range 0x80 64))
                (range 0x80 64))
              (range 0x80 64))
            (range 0xF0 5) = true) by (vm_cast_no_check (eq_refl true)).
  bool_to_prop.
  pose proof (forallb_range _ _ _
                (forallb_range _ _ _
                   (forallb_range _ _ _
                      (forallb_range _ _ _ Hall b0 ltac:(lia)) b1 H1')
                   b2 H2) b3 H3) as HH.
  cbv beta in HH. now rewrite H1 in HH.
Qed.

Lemma ascii_encodable (c : char) : N.ltb c 0x80 = true -> encodable_char c = true.
Proof. intros H. unfold encodable_char, utf8_encode_char. now rewrite H. Qed.

(** The decoder only ever yields code points that the encoder accepts. *)
Lemma utf8_items_valid (bs : bytes) : Forall item_ok (utf8_items bs).
Proof.
  assert (H : forall n bs, (List.length bs <= n)%nat ->
                           Forall item_ok (utf8_items bs)).
  { clear bs. induction n as [|n IH]; intros bs Hlen.
    - destruct bs; [constructor | simpl in Hlen; lia].
    - destruct bs as [|b0 r0]; [constructor|].
      simpl in Hlen.
      assert (IH0 : Forall item_ok (utf8_items r0)) by (apply IH; lia).
      cbn [utf8_items].
      destruct (N.ltb b0 0x80) eqn:Ha.
      { constructor; [now apply ascii_encodable | exact IH0]. }
      destruct (N.leb 0xC2 b0 && N.leb b0 0xDF)%N eqn:H2.
      { destruct r0 as [|b1 r1]; [repeat constructor|].
        destruct (is_cont b1) eqn:Hc1.
        - constructor; [now apply cp2_encodable|].
          apply IH. simpl in Hlen. lia.
        - constructor; [exact I | exact IH0]. }
      destruct (N.leb 0xE0 b0 && N.leb b0 0xEF)%N eqn:H3.
      { destruct r0 as [|b1 r1]; [repeat constructor|].
        destruct (second_ok b0 b1) eqn:Hs;
          [|constructor; [exact I | exact IH0]].
        assert (IH1 : Forall item_ok (utf8_items r1))
          by (apply IH; simpl in Hlen; lia).
        destruct r1 as [|b2 r2]; [repeat constructor|].
        destruct (is_cont b2) eqn:Hc2.
        - constructor; [now apply cp3_encodable|].
          apply IH. simpl in Hlen. lia.
        - constructor; [exact I | exact IH1]. }
      destruct (N.leb 0xF0 b0 && N.leb b0 0xF4)%N eqn:H4.
      { destruct r0 as [|b1 r1]; [repeat constructor|].
        destruct (second_ok b0 b1) eqn:Hs;
          [|constructor; [exact I | exact IH0]].
        assert (IH1 : Forall item_ok (utf8_items r1))
          by (apply IH; simpl in Hlen; lia).
        destruct r1 as [|b2 r2]; [repeat constructor|].
        destruct (is_cont b2) eqn:Hc2;
          [|constructor; [exact I | exact IH1]].
        assert (IH2 : Forall item_ok (utf8_items r2))
          by (apply IH; simpl in Hlen; lia).
        destruct r2 as [|b3 r3]; [repeat constructor|].
        destruct (is_cont b3) eqn:Hc3.
        - constructor; [now apply cp4_encodable|].
          apply IH. simpl in Hlen. lia.
        - constructor; [exact I | exact IH2]. }
      constructor; [exact I | exact IH0]. }
  apply (H (List.length bs)). lia.
Qed.

Lemma encodable_app (a b : str) :
  encodable (a ++ b) = encodable a && encodable b.
Proof. apply forallb_app. Qed.

Lemma encodable_skipn (n : nat) (s : str) :
  encodable s = true -> encodable (skipn n s) = true.
Proof.
  revert s; induction n as [|n IH]; intros [|c s] H; simpl; auto.
  apply IH. simpl in H. now apply andb_true_iff in H as [_ H].
Qed.

Lemma utf8_decode_replace_encodable (bs : bytes) :
  encodable (utf8_decode_replace bs) = true.
Proof.
  unfold utf8_decode_replace, encodable.
  pose proof (utf8_items_valid bs) as H.
  induction H as [|[c|] l Hc _ IH]; simpl; [reflexivity| |exact IH].
  simpl in Hc. now rewrite Hc.
Qed.

Lemma decode_tokens_encodable (ts : list (N + char)) :
  Forall (fun t => match t with inl _ => True
                           | inr c => encodable_char c = true end) ts ->
  forall run, encodable (decode_tokens ts run) = true.
Proof.
  induction 1 as [|[b|c] ts Ht _ IH]; intros run; simpl.
  - apply utf8_decode_replace_encodable.
  - apply IH.
  - rewrite encodable_app, utf8_decode_replace_encodable. simpl.
    now rewrite Ht, IH.
Qed.

Lemma unquote_tokens_chars (s : str) :
  encodable s = true ->
  Forall (fun t => match t with inl _ => True
                           | inr c => encodable_char c = true end)
         (unquote_tokens s).
Proof.
  assert (H : forall n s, (List.length s <= n)%nat -> encodable s = true ->
              Forall (fun t => match t with inl _ => True
                                       | inr c => encodable_char c = true end)
                     (unquote_tokens s)).
  { clear s. induction n as [|n IH]; intros s Hlen He.
    - destruct s; [constructor | simpl in Hlen; lia].
    - destruct s as [|c rest]; [constructor|].
      simpl in Hlen, He. apply andb_true_iff in He as [Hc He].
      assert (IH0 : Forall (fun t => match t with inl _ => True
                                      | inr c => encodable_char c = true end)
                           (unquote_tokens rest)) by (apply IH; [lia|exact He]).
      cbn [unquote_tokens].
      destruct (N.eqb c 0x25).
      + destruct rest as [|h1 [|h2 rest']]; try (constructor; [exact I|exact IH0]).
        destruct (hex_val h1), (hex_val h2);
          try (constructor; [exact I|exact IH0]).
        constructor; [exact I|].
        apply IH; [simpl in Hlen; lia|].
        simpl in He. apply andb_true_iff in He as [_ He].
        now apply andb_true_iff in He as [_ He].
      + destruct (N.ltb c 0x80); constructor; auto. }
  intros He. apply (H (List.length s)); [lia | exact He].
Qed.

Lemma unquote_encodable (s : str) :
  encodable s = true -> encodable (unquote s) = true.
Proof.
  intros H. unfold unquote. destruct (contains _ s); [|exact H].
  apply decode_tokens_encodable. now apply unquote_tokens_chars.
Qed.

Lemma utf8_encode_encodable (s : str) :
  encodable s = true -> exists bs, utf8_encode s = Ok bs.
Proof.
  induction s as [|c s IH]; simpl; intros H; [now exists []|].
  apply andb_true_iff in H as [Hc Hs].
  unfold encodable_char in Hc.
  destruct (utf8_encode_char c) as [bs|]; [|discriminate].
  destruct (IH Hs) as [rest ->]. simpl. now eexists.
Qed.

Lemma utf8_encode_not_encodable (s : str) :
  encodable s = false -> utf8_encode s = Raise UnicodeEncodeError.
Proof.
  induction s as [|c s IH]; simpl; intros H; [discriminate|].
  unfold encodable_char in H.
  destruct (utf8_encode_char c) as [bs|]; [|reflexivity].
  simpl in H. now rewrite (IH H).
Qed.

Lemma quote_encodable (s : str) :
  encodable s = true -> exists q, quote s = Ok q.
Proof.
  intros H. unfold quote.
  destruct (utf8_encode_encodable _ H) as [bs ->]. simpl. now eexists.
Qed.

(** ** Totality of the rewriter *)

Lemma quote_fails_only_encoding (s : str) : fails_only_encoding (quote s).
Proof.
  intros e. unfold quote.
  destruct (encodable s) eqn:E.
  - destruct (utf8_encode_encodable _ E) as [bs ->]. discriminate.
  - rewrite (utf8_encode_not_encodable _ E). simpl. congruence.
Qed.

Lemma bind_returns {A B} (m : outcome A) (k : A -> outcome B) :
  returns m -> (forall a, returns (k a)) -> returns (bind m k).
Proof. intros [a ->] Hk. apply Hk. Qed.

Lemma bind_fails_only {A B} (m : outcome A) (k : A -> outcome B) :
  fails_only_encoding m -> (forall a, fails_only_encoding (k a)) ->
  fails_only_encoding (bind m k).
Proof.
  intros Hm Hk e. destruct m as [a|e']; simpl.
  - apply Hk.
  - intros [= <-]. now apply Hm.
Qed.

Lemma ok_returns {A} (a : A) : returns (Ok a).
Proof. now exists a. Qed.

Lemma ok_fails_only {A} (a : A) : fails_only_encoding (Ok a).
Proof. intros e; discriminate. Qed.

Create HintDb rewriter.
#[local] Hint Resolve ok_returns ok_fails_only : rewriter.

Lemma mapM_returns {A B} (f : A -> outcome B) (l : list A) :
  Forall (fun x => returns (f x)) l -> returns (mapM f l).
Proof.
  induction 1 as [|x l Hx _ IH]; simpl; auto with rewriter.
  apply bind_returns; [exact Hx|]. intros y.
  apply bind_returns; [exact IH|]. auto with rewriter.
Qed.

Lemma mapM_fails_only {A B} (f : A -> outcome B) (l : list A) :
  Forall (fun x => fails_only_encoding (f x)) l ->
  fails_only_encoding (mapM f l).
Proof.
  induction 1 as [|x l Hx _ IH]; simpl; auto with rewriter.
  apply bind_fails_only; [exact Hx|]. intros y.
  apply bind_fails_only; [exact IH|]. auto with rewriter.
Qed.

Lemma file2_branch_returns (s from_prefix to_prefix : str) :
  encodable to_prefix = true -> encodable s = true ->
  returns (file2_branch s from_prefix to_prefix).
Proof.
  intros Ht Hs. unfold file2_branch.
  set (path := if contains PERCENT (skipn 7 s)
               then decode_uri_component (skipn 7 s) else skipn 7 s).
  assert (Hp : encodable path = true).
  { unfold path. destruct (contains _ _).
    - apply unquote_encodable. now apply encodable_skipn.
    - now apply encodable_skipn. }
  destruct (startswith path from_prefix); auto with rewriter.
  apply bind_returns; auto with rewriter.
  apply quote_encodable.
  rewrite encodable_app, Ht. now apply encodable_skipn.
Qed.

Lemma file3_branch_returns (s from_prefix to_prefix : str) :
  encodable to_prefix = true -> encodable s = true ->
  returns (file3_branch s from_prefix to_prefix).
Proof.
  intros Ht Hs. unfold file3_branch.
  set (path := if contains PERCENT (skipn 8 s)
               then decode_uri_component (skipn 8 s) else skipn 8 s).
  assert (Hp : encodable path = true).
  { unfold path. destruct (contains _ _).
    - apply unquote_encodable. now apply encodable_skipn.
    - now apply encodable_skipn. }
  destruct (startswith path from_prefix); auto with rewriter.
  apply bind_returns; auto with rewriter.
  apply quote_encodable.
  rewrite encodable_app, Ht. now apply encodable_skipn.
Qed.

Lemma rewrite_path_returns (v : json) (from_prefix to_prefix : str) :
  encodable to_prefix = true -> strings_encodable v = true ->
  returns (rewrite_path v from_prefix to_prefix).
Proof.
  intros Ht Hv. destruct v; cbn [rewrite_path]; auto with rewriter.
  apply bind_returns; auto with rewriter.
  unfold rewrite_path_str.
  destruct (startswith s FILE2); [now apply file2_branch_returns|].
  destruct (startswith s FILE3); [now apply file3_branch_returns|].
  destruct (startswith s from_prefix); auto with rewriter.
Qed.

Lemma rewrite_path_fails_only (v : json) (from_prefix to_prefix : str) :
  fails_only_encoding (rewrite_path v from_prefix to_prefix).
Proof.
  destruct v; cbn [rewrite_path]; auto with rewriter.
  apply bind_fails_only; auto with rewriter.
  unfold rewrite_path_str, file2_branch, file3_branch.
  repeat match goal with
         | |- context [if ?c then _ else _] => destruct c
         end; auto with rewriter;
    (apply bind_fails_only;
     [apply quote_fails_only_encoding | auto with rewriter]).
Qed.

Section Totality.
Variables from_prefix to_prefix : str.
Variable Q : outcome json -> Prop.
Variable good : json -> Prop.

Hypothesis Q_ok : forall j, Q (Ok j).
Hypothesis Q_bind :
  forall (m : outcome json) (k : json -> outcome json),
    Q m -> (forall a, Q (k a)) -> Q (bind m k).
Hypothesis Q_list :
  forall (f : json -> outcome json) (l : list json),
    Forall (fun x => Q (f x)) l ->
    Q (l' <- mapM f l ;; Ok (JList l')).
Hypothesis Q_path :
  forall v, good v -> Q (rewrite_path v from_prefix to_prefix).
Hypothesis good_list : forall l, good (JList l) -> Forall good l.
Hypothesis good_dict :
  forall d, good (JDict d) -> Forall (fun kv => good (snd kv)) d.

Lemma rewrite_items_Q (items : list (str * json)) :
  Forall (fun kv => Q (rewrite_value (fst kv) (snd kv)
                                     from_prefix to_prefix)) items ->
  forall acc, Q (rewrite_items from_prefix to_prefix items acc).
Proof.
  induction 1 as [|[k v] items Hkv _ IH]; intros acc; simpl.
  - apply Q_ok.
  - apply Q_bind; [exact Hkv|]. intros a. apply IH.
Qed.

(** Whatever holds of every [rewrite_path] result, of [Ok], and is kept
    by sequencing, holds of [rewrite_object]. *)
Lemma rewrite_object_Q (m : json) :
  good m -> Q (rewrite_object m from_prefix to_prefix).
Proof.
  pose (P := fun x => good x -> Q (rewrite_object x from_prefix to_prefix)).
  enough (H : P m /\ (forall l, m = JList l -> Forall P l)) by apply H.
  induction m as [| | | |s|l IH|d IH] using json_ind;
    (split; [intros Hg | try discriminate]); try apply Q_ok.
  - cbn [rewrite_object]. destruct (_ || _); [now apply Q_path|apply Q_ok].
  - rewrite rewrite_object_list. apply Q_list.
    apply good_list in Hg. rewrite Forall_forall in *.
    intros x Hx. now apply (IH x Hx), Hg.
  - intros l0 [= <-]. rewrite Forall_forall in *.
    intros x Hx. apply (IH x Hx).
  - rewrite rewrite_object_dict. apply rewrite_items_Q.
    apply good_dict in Hg. rewrite Forall_forall in *.
    intros [k v] Hin. specialize (IH _ Hin). specialize (Hg _ Hin).
    simpl in *. destruct IH as [IHv IHl]. unfold rewrite_value.
    destruct (in_path_keys k).
    + destruct v; try (now apply IHv).
      * now apply Q_path.
      * apply Q_list. apply good_list in Hg.
        specialize (IHl _ eq_refl).
        rewrite Forall_forall in *. intros x Hx.
        specialize (IHl x Hx). specialize (Hg x Hx).
        destruct x; try (now apply IHl). now apply Q_path.
    + destruct (_ && _); [|now apply IHv].
      destruct v; now apply IHv.
Qed.
End Totality.

(** ** The rewriter on a bounded stack *)

Lemma within_stack_refl {A} (a : outcome A) : within_stack a a.
Proof. now left. Qed.

Lemma within_stack_raise {A} (a : outcome A) :
  within_stack (Raise RecursionError) a.
Proof. now right. Qed.

Lemma within_stack_bind {A B} (a a0 : outcome A) (k k0 : A -> outcome B) :
  within_stack a a0 -> (forall x, within_stack (k x) (k0 x)) ->
  within_stack (bind a k) (bind a0 k0).
Proof.
  intros [->| ->] Hk; [|now right].
  destruct a0 as [x|e]; [apply Hk | now left].
Qed.

Lemma within_stack_mapM {A B} (f f0 : A -> outcome B) (l : list A) :
  (forall x, In x l -> within_stack (f x) (f0 x)) ->
  within_stack (mapM f l) (mapM f0 l).
Proof.
  induction l as [|x l IH]; intros H; [now left|].
  cbn [mapM]. apply within_stack_bind; [apply H; now left|].
  intros y. apply within_stack_bind; [apply IH; intros; apply H; now right|].
  intros ys. now left.
Qed.

Lemma within_stack_call {A} (frames : nat) (body : nat -> outcome A)
  (a : outcome A) :
  (forall inner, frames = S inner -> within_stack (body inner) a) ->
  within_stack (call frames body) a.
Proof.
  destruct frames as [|inner]; intros H; [now right | now apply H].
Qed.

Lemma within_stack_library {A} (frames needed : nat) (a : outcome A) :
  within_stack (library_call frames needed a) a.
Proof. unfold library_call. destruct (Nat.leb _ _); [now left | now right]. Qed.

Section StackFacts.

Variable comprehension_frame : bool.
Variables quote_frames unquote_frames : str -> nat.
Variables from_prefix to_prefix : str.

Lemma encode_within_stack (frames : nat) (path : str) :
  within_stack (encode_uri_component_within quote_frames frames path)
               (encode_uri_component path).
Proof.
  apply within_stack_call. intros inner _. apply within_stack_library.
Qed.

Lemma decode_within_stack (frames : nat) (path : str) :
  within_stack (decode_uri_component_within unquote_frames frames path)
               (Ok (decode_uri_component path)).
Proof.
  apply within_stack_call. intros inner _. apply within_stack_library.
Qed.

Lemma file2_within_stack (frames : nat) (s : str) :
  within_stack
    (file2_branch_within quote_frames unquote_frames frames s
                         from_prefix to_prefix)
    (file2_branch s from_prefix to_prefix).
Proof.
  unfold file2_branch_within, file2_branch.
  destruct (contains PERCENT (skipn 7 s)).
  - destruct (decode_within_stack frames (skipn 7 s)) as [-> | ->];
      [|now right].
    cbn [bind]. destruct (startswith _ from_prefix); [|now left].
    apply within_stack_bind; [apply encode_within_stack | now left].
  - cbn [bind]. destruct (startswith _ from_prefix); [|now left].
    apply within_stack_bind; [apply encode_within_stack | now left].
Qed.

Lemma file3_within_stack (frames : nat) (s : str) :
  within_stack
    (file3_branch_within quote_frames unquote_frames frames s
                         from_prefix to_prefix)
    (file3_branch s from_prefix to_prefix).
Proof.
  unfold file3_branch_within, file3_branch.
  destruct (contains PERCENT (skipn 8 s)).
  - destruct (decode_within_stack frames (skipn 8 s)) as [-> | ->];
      [|now right].
    cbn [bind]. destruct (startswith _ from_prefix); [|now left].
    apply within_stack_bind; [apply encode_within_stack | now left].
  - cbn [bind]. destruct (startswith _ from_prefix); [|now left].
    apply within_stack_bind; [apply encode_within_stack | now left].
Qed.

Lemma rewrite_path_within_stack (frames : nat) (v : json) :
  within_stack
    (rewrite_path_within quote_frames unquote_frames frames v
                         from_prefix to_prefix)
    (rewrite_path v from_prefix to_prefix).
Proof.
  apply within_stack_call. intros inner _.
  destruct v; try (now left). cbn [rewrite_path]. unfold rewrite_path_str.
  apply within_stack_bind; [|now left].
  destruct (startswith s FILE2); [apply file2_within_stack|].
  destruct (startswith s FILE3); [apply file3_within_stack|].
  now left.
Qed.

Lemma comprehension_within_stack (frames : nat)
  (f : nat -> json -> outcome json) (f0 : json -> outcome json)
  (l : list json) :
  (forall inner x, (inner <= frames)%nat -> In x l ->
                   within_stack (f inner x) (f0 x)) ->
  within_stack (comprehension comprehension_frame frames f l)
               (l' <- mapM f0 l ;; Ok (JList l')).
Proof.
  intros H. unfold comprehension. destruct comprehension_frame.
  - apply within_stack_call. intros inner ->.
    apply within_stack_bind; [|now left].
    apply within_stack_mapM. intros x Hx. apply H; [lia | exact Hx].
  - apply within_stack_bind; [|now left].
    apply within_stack_mapM. intros x Hx. apply H; [lia | exact Hx].
Qed.

(** On a bounded stack [rewrite_object] does what it does on an unbounded
    one, until it runs out of frames. *)
Lemma rewrite_object_within_stack (frames : nat) :
  forall obj : json,
    within_stack
      (rewrite_object_within comprehension_frame quote_frames unquote_frames
                             frames obj from_prefix to_prefix)
      (rewrite_object obj from_prefix to_prefix).
Proof.
  induction frames as [frames IH] using lt_wf_ind. intros obj.
  destruct frames as [|frames]; [now right|].
  assert (IH' : forall inner x, (inner <= frames)%nat ->
                  within_stack
                    (rewrite_object_within comprehension_frame quote_frames
                       unquote_frames inner x from_prefix to_prefix)
                    (rewrite_object x from_prefix to_prefix))
    by (intros inner x Hle; apply IH; lia).
  destruct obj as [| | | |s|l|d]; try (now left).
  - cbn [rewrite_object_within rewrite_object].
    destruct (_ || _); [apply rewrite_path_within_stack | now left].
  - cbn [rewrite_object_within]. rewrite rewrite_object_list.
    apply comprehension_within_stack. intros inner x Hle _. now apply IH'.
  - cbn [rewrite_object_within rewrite_object].
    generalize (@nil (str * json)) as acc.
    induction d as [|[k v] d IHd]; intros acc; [now left|].
    apply within_stack_bind; [|intros a; apply IHd].
    destruct (in_path_keys k).
    + destruct v; try (now apply IH').
      * apply rewrite_path_within_stack.
      * apply comprehension_within_stack. intros inner x Hle _.
        destruct x; try (now apply IH'). apply rewrite_path_within_stack.
    + destruct (_ && _); [|now apply IH'].
      destruct v; try (now apply IH').
      apply comprehension_within_stack. intros inner x Hle _. now apply IH'.
Qed.

End StackFacts.

Lemma bind_cong {A B} (a a0 : outcome A) (k k0 : A -> outcome B) :
  a = a0 -> (forall x, k x = k0 x) -> bind a k = bind a0 k0.
Proof. intros -> H. destruct a0; simpl; auto. Qed.

Lemma nesting_in_list (x : json) (l : list json) :
  In x l -> (nesting x < nesting (JList l))%nat.
Proof.
  cbn [nesting]. induction l as [|y l IH]; intros H; [contradiction|].
  cbn [fold_right]. destruct H as [->|H]; [lia|]. specialize (IH H). lia.
Qed.

Lemma nesting_in_dict (kv : str * json) (d : list (str * json)) :
  In kv d -> (nesting (snd kv) < nesting (JDict d))%nat.
Proof.
  cbn [nesting]. induction d as [|y d IH]; intros H; [contradiction|].
  cbn [fold_right]. destruct H as [->|H]; [lia|]. specialize (IH H). lia.
Qed.

Section StackEnough.

Variable comprehension_frame : bool.
Variables quote_frames unquote_frames : str -> nat.
Variables from_prefix to_prefix : str.
Variable depth : nat.
Hypothesis library_depth :
  forall s, (quote_frames s <= depth /\ unquote_frames s <= depth)%nat.

Lemma library_call_enough {A} (frames needed : nat) (a : outcome A) :
  (needed <= frames)%nat -> library_call frames needed a = a.
Proof.
  intros H. unfold library_call.
  now destruct (Nat.leb_spec needed frames); [|lia].
Qed.

Lemma encode_enough (frames : nat) (path : str) :
  (1 + depth <= frames)%nat ->
  encode_uri_component_within quote_frames frames path
  = encode_uri_component path.
Proof.
  intros H. destruct frames as [|inner]; [lia|]. cbn [encode_uri_component_within call].
  apply library_call_enough. destruct (library_depth path). lia.
Qed.

Lemma decode_enough (frames : nat) (path : str) :
  (1 + depth <= frames)%nat ->
  decode_uri_component_within unquote_frames frames path
  = Ok (decode_uri_component path).
Proof.
  intros H. destruct frames as [|inner]; [lia|]. cbn [decode_uri_component_within call].
  apply library_call_enough. destruct (library_depth path). lia.
Qed.

Lemma file2_enough (frames : nat) (s : str) :
  (1 + depth <= frames)%nat ->
  file2_branch_within quote_frames unquote_frames frames s
                      from_prefix to_prefix
  = file2_branch s from_prefix to_prefix.
Proof.
  intros H. unfold file2_branch_within, file2_branch.
  destruct (contains PERCENT (skipn 7 s));
    rewrite ?decode_enough by lia; cbn [bind];
    (destruct (startswith _ from_prefix); [|reflexivity]);
    now rewrite encode_enough by lia.
Qed.

Lemma file3_enough (frames : nat) (s : str) :
  (1 + depth <= frames)%nat ->
  file3_branch_within quote_frames unquote_frames frames s
                      from_prefix to_prefix
  = file3_branch s from_prefix to_prefix.
Proof.
  intros H. unfold file3_branch_within, file3_branch.
  destruct (contains PERCENT (skipn 8 s));
    rewrite ?decode_enough by lia; cbn [bind];
    (destruct (startswith _ from_prefix); [|reflexivity]);
    now rewrite encode_enough by lia.
Qed.

Lemma rewrite_path_enough (frames : nat) (v : json) :
  (2 + depth <= frames)%nat ->
  rewrite_path_within quote_frames unquote_frames frames v
                      from_prefix to_prefix
  = rewrite_path v from_prefix to_prefix.
Proof.
  intros H. destruct frames as [|inner]; [lia|].
  cbn [rewrite_path_within call]. destruct v; try reflexivity.
  cbn [rewrite_path]. unfold rewrite_path_str.
  now rewrite file2_enough, file3_enough by lia.
Qed.

Lemma comprehension_enough (frames : nat)
  (f : nat -> json -> outcome json) (f0 : json -> outcome json)
  (l : list json) :
  (1 <= frames)%nat ->
  (forall inner x, (frames - 1 <= inner <= frames)%nat -> In x l ->
                   f inner x = f0 x) ->
  comprehension comprehension_frame frames f l
  = (l' <- mapM f0 l ;; Ok (JList l')).
Proof.
  intros Hf H. unfold comprehension. destruct comprehension_frame.
  - destruct frames as [|inner]; [lia|]. cbn [call].
    rewrite (mapM_ext_in (f inner) f0); [reflexivity|].
    intros x Hx. apply H; [lia | exact Hx].
  - rewrite (mapM_ext_in (f frames) f0); [reflexivity|].
    intros x Hx. apply H; [lia | exact Hx].
Qed.

(** With frames enough for its nesting, a message is rewritten as on an
    unbounded stack. *)
Lemma rewrite_object_enough (frames : nat) :
  forall obj : json,
    (2 * nesting obj + 3 + depth <= frames)%nat ->
    rewrite_object_within comprehension_frame quote_frames unquote_frames
                          frames obj from_prefix to_prefix
    = rewrite_object obj from_prefix to_prefix.
Proof.
  induction frames as [frames IH] using lt_wf_ind. intros obj Hn.
  destruct frames as [|frames]; [lia|].
  destruct obj as [| | | |s|l|d]; try reflexivity.
  - cbn [rewrite_object_within rewrite_object].
    destruct (_ || _); [|reflexivity].
    apply rewrite_path_enough. cbn [nesting] in Hn. lia.
  - cbn [rewrite_object_within]. rewrite rewrite_object_list.
    apply comprehension_enough; [lia|].
    intros inner x Hle Hx. pose proof (nesting_in_list x l Hx).
    apply IH; lia.
  - assert (Hd : forall kv, In kv d ->
                   (2 * nesting (snd kv) + 5 + depth <= S frames)%nat).
    { intros kv Hin. pose proof (nesting_in_dict kv d Hin). lia. }
    clear Hn. cbn [rewrite_object_within rewrite_object].
    generalize (@nil (str * json)) as acc.
    induction d as [|[k v] d IHd]; intros acc; [reflexivity|].
    apply bind_cong;
      [|intros a; apply IHd; intros kv Hin; apply Hd; now right].
    specialize (Hd (k, v) (or_introl eq_refl)). cbn [snd] in Hd.
    destruct (in_path_keys k).
    + destruct v; try (apply IH; cbn [nesting] in *; lia).
      * apply rewrite_path_enough. lia.
      * apply comprehension_enough; [lia|].
        intros inner x Hle Hx. pose proof (nesting_in_list x l Hx).
        destruct x; try (apply IH; cbn [nesting] in *; lia).
        apply rewrite_path_enough. lia.
    + destruct (_ && _); [|apply IH; lia].
      destruct v; try (apply IH; cbn [nesting] in *; lia).
      apply comprehension_enough; [lia|].
      intros inner x Hle Hx. pose proof (nesting_in_list x l Hx).
      apply IH; lia.
Qed.

End StackEnough.

Lemma rewrite_object_returns (m : json) (from_prefix to_prefix : str) :
  encodable to_prefix = true -> strings_encodable m = true ->
  returns (rewrite_object m from_prefix to_prefix).
Proof.
  intros Ht Hm.
  apply (rewrite_object_Q from_prefix to_prefix returns
           (fun j => strings_encodable j = true)); auto with rewriter.
  - intros; now apply bind_returns.
  - intros f l Hl. apply bind_returns; auto with rewriter.
    now apply mapM_returns.
  - intros v Hv. now apply rewrite_path_returns.
  - intros l Hl. now apply forallb_forall_iff.
  - intros d Hd.
    now apply (forallb_forall_iff (fun kv => strings_encodable (snd kv))).
Qed.

Lemma rewrite_object_fails_only (m : json) (from_prefix to_prefix : str) :
  fails_only_encoding (rewrite_object m from_prefix to_prefix).
Proof.
  apply (rewrite_object_Q from_prefix to_prefix fails_only_encoding
           (fun _ => True)); auto with rewriter.
  - intros; now apply bind_fails_only.
  - intros f l Hl. apply bind_fails_only; auto with rewriter.
    now apply mapM_fails_only.
  - intros v _. apply rewrite_path_fails_only.
  - intros l _. apply Forall_forall; auto.
  - intros d _. apply Forall_forall; auto.
Qed.

(** Lists nested deeper than the stack takes run out of frames. *)
Lemma rewrite_object_within_nested (comprehension_frame : bool)
  (quote_frames unquote_frames : str -> nat) (from_prefix to_prefix : str)
  (n : nat) :
  forall frames : nat,
    (frames <= n)%nat ->
    rewrite_object_within comprehension_frame quote_frames unquote_frames
                          frames (nested n) from_prefix to_prefix
    = Raise RecursionError.
Proof.
  induction n as [|n IH]; intros frames Hle.
  - destruct frames; [reflexivity | lia].
  - destruct frames as [|frames]; [reflexivity|].
    cbn [nested rewrite_object_within]. unfold comprehension.
    destruct comprehension_frame.
    + destruct frames as [|inner]; [reflexivity|].
      cbn [call mapM]. now rewrite IH by lia.
    + cbn [mapM]. now rewrite IH by lia.
Qed.

(** C8 (as the code has it): [rewrite_object] returns a message whenever
    [to_prefix] and all string values of the message are free of lone
    surrogates and the stack takes the nesting of the message (two frames
    for each level, three for the call and for [rewrite_path] and the URI
    coder, and those of the library); the only exceptions it can raise
    are the percent-encoder's [UnicodeEncodeError] and the interpreter's
    [RecursionError]; what it returns is the value of [rewrite_object]
    on an unbounded stack; a number, a boolean or null is returned
    unchanged by a call that fits the stack; and lists nested deeper than
    the stack takes raise [RecursionError], with no string in them. *)
Theorem rewrite_object_total (comprehension_frame : bool)
  (quote_frames unquote_frames : str -> nat) (frames : nat) (m : json)
  (from_prefix to_prefix : str) :
  (forall depth : nat,
      (forall s, (quote_frames s <= depth /\ unquote_frames s <= depth)%nat) ->
      (2 * nesting m + 3 + depth <= frames)%nat ->
      encodable to_prefix = true -> strings_encodable m = true ->
      exists m',
        rewrite_object_within comprehension_frame quote_frames
          unquote_frames frames m from_prefix to_prefix = Ok m')
  /\ (forall e,
         rewrite_object_within comprehension_frame quote_frames
           unquote_frames frames m from_prefix to_prefix = Raise e ->
         e = UnicodeEncodeError \/ e = RecursionError)
  /\ (forall m',
         rewrite_object_within comprehension_frame quote_frames
           unquote_frames frames m from_prefix to_prefix = Ok m' ->
         rewrite_object m from_prefix to_prefix = Ok m')
  /\ match m with
     | JNull | JBool _ | JInt _ | JFloat _ =>
         rewrite_object_within comprehension_frame quote_frames
           unquote_frames (S frames) m from_prefix to_prefix = Ok m
     | _ => True
     end
  /\ rewrite_object_within comprehension_frame quote_frames unquote_frames
       frames (nested frames) from_prefix to_prefix
     = Raise RecursionError.
Proof.
  pose proof (rewrite_object_within_stack comprehension_frame quote_frames
                unquote_frames from_prefix to_prefix frames m) as Hsim.
  split; [|split; [|split; [|split]]].
  - intros depth Hlib Hn Ht Hm.
    rewrite (rewrite_object_enough comprehension_frame quote_frames
               unquote_frames from_prefix to_prefix depth Hlib frames m Hn).
    now apply rewrite_object_returns.
  - intros e He. destruct Hsim as [Hsim|Hsim]; rewrite Hsim in He.
    + left. now apply (rewrite_object_fails_only m from_prefix to_prefix).
    + right. congruence.
  - intros m' Hm'. destruct Hsim as [Hsim|Hsim]; rewrite Hsim in Hm'.
    + exact Hm'.
    + discriminate.
  - destruct m; auto.
  - now apply rewrite_object_within_nested.
Qed.

Lemma rewrite_object_total_witness :
  exists m',
    rewrite_object_within true (fun _ => 6%nat) (fun _ => 6%nat) 1000
      (JDict [(lit "uri", JStr (lit "file:///work/host/a%20b.py"));
              (lit "version", JInt 3);
              (lit "files", JList [JStr (lit "/work/host/c.py"); JNull])])
      DEFAULT_HOST_ROOT DEFAULT_CONTAINER_ROOT
    = Ok m'.
Proof.
  apply (proj1 (rewrite_object_total true (fun _ => 6%nat) (fun _ => 6%nat)
                  1000
                  (JDict [(lit "uri", JStr (lit "file:///work/host/a%20b.py"));
                          (lit "version", JInt 3);
                          (lit "files",
                           JList [JStr (lit "/work/host/c.py"); JNull])])
                  DEFAULT_HOST_ROOT DEFAULT_CONTAINER_ROOT) 6%nat).
  - intros s. split; apply Nat.le_refl.
  - apply Nat.leb_le. reflexivity.
  - reflexivity.
  - reflexivity.
Defined.

(** C8, where it fails: a [file://] URI under the host root that carries a
    lone surrogate (as [json.loads] yields for the escape [\ud800]) makes
    the percent-encoder raise, at top level and inside a mapping alike;
    and lists inside one another, with no string in them, do not fit a
    stack of a thousand frames when they are a thousand, nor when they
    are six hundred and each comprehension takes a frame of its own. *)
Lemma rewrite_object_raises :
  rewrite_object (JStr (lit "file:///work/host/" ++ [0xD800%N]))
                 DEFAULT_HOST_ROOT DEFAULT_CONTAINER_ROOT
  = Raise UnicodeEncodeError
  /\ rewrite_object
       (JDict [(lit "uri", JStr (lit "file:///work/host/" ++ [0xD800%N]))])
       DEFAULT_HOST_ROOT DEFAULT_CONTAINER_ROOT
     = Raise UnicodeEncodeError
  /\ rewrite_object_within true (fun _ => 6%nat) (fun _ => 6%nat) 1000
       (JDict [(lit "uri", JStr (lit "file:///work/host/" ++ [0xD800%N]))])
       DEFAULT_HOST_ROOT DEFAULT_CONTAINER_ROOT
     = Raise UnicodeEncodeError
  /\ rewrite_object_within true (fun _ => 6%nat) (fun _ => 6%nat) 1000
       (nested 1000) DEFAULT_HOST_ROOT DEFAULT_CONTAINER_ROOT
     = Raise RecursionError
  /\ rewrite_object_within false (fun _ => 6%nat) (fun _ => 6%nat) 1000
       (nested 1000) DEFAULT_HOST_ROOT DEFAULT_CONTAINER_ROOT
     = Raise RecursionError
  /\ rewrite_object_within true (fun _ => 6%nat) (fun _ => 6%nat) 1000
       (nested 600) DEFAULT_HOST_ROOT DEFAULT_CONTAINER_ROOT
     = Raise RecursionError.
Proof. repeat split; vm_compute; reflexivity. Qed.

(** ** UTF-8 round trip *)

Lemma utf8_items_1 (b0 : N) (r : bytes) :
  N.ltb b0 0x80 = true -> utf8_items (b0 :: r) = Some b0 :: utf8_items r.
Proof. intros H. cbn [utf8_items]. now rewrite H. Qed.

Lemma utf8_items_2 (b0 b1 : N) (r : bytes) :
  lead2 b0 = true -> is_cont b1 = true ->
  utf8_items (b0 :: b1 :: r) = Some (cp2 b0 b1) :: utf8_items r.
Proof.
  intros H0 H1. cbn [utf8_items]. unfold lead2 in H0. rewrite H0, H1.
  assert (E : N.ltb b0 0x80 = false) by (bool_to_prop; apply N.ltb_ge; lia).
  now rewrite E.
Qed.

Lemma utf8_items_3 (b0 b1 b2 : N) (r : bytes) :
  lead3 b0 = true -> second_ok b0 b1 = true -> is_cont b2 = true ->
  utf8_items (b0 :: b1 :: b2 :: r) = Some (cp3 b0 b1 b2) :: utf8_items r.
Proof.
  intros H0 H1 H2. cbn [utf8_items]. unfold lead3 in H0. rewrite H0, H1, H2.
  assert (E : N.ltb b0 0x80 = false) by (bool_to_prop; apply N.ltb_ge; lia).
  assert (E2 : (N.leb 0xC2 b0 && N.leb b0 0xDF)%N = false).
  { bool_to_prop. apply andb_false_iff. right. apply N.leb_gt. lia. }
  now rewrite E, E2.
Qed.

Lemma utf8_items_4 (b0 b1 b2 b3 : N) (r : bytes) :
  lead4 b0 = true -> second_ok b0 b1 = true ->
  is_cont b2 = true -> is_cont b3 = true ->
  utf8_items (b0 :: b1 :: b2 :: b3 :: r)
  = Some (cp4 b0 b1 b2 b3) :: utf8_items r.
Proof.
  intros H0 H1 H2 H3. cbn [utf8_items]. unfold lead4 in H0.
  rewrite H0, H1, H2, H3.
  assert (E : N.ltb b0 0x80 = false) by (bool_to_prop; apply N.ltb_ge; lia).
  assert (E2 : (N.leb 0xC2 b0 && N.leb b0 0xDF)%N = false).
  { bool_to_prop. apply andb_false_iff. right. apply N.leb_gt. lia. }
  assert (E3 : (N.leb 0xE0 b0 && N.leb b0 0xEF)%N = false).
  { bool_to_prop. apply andb_false_iff. right. apply N.leb_gt. lia. }
  now rewrite E, E2, E3.
Qed.

Lemma split_code_point (c : N) :
  (c < 0x110000)%N ->
  exists p m l, (c = 65536 * p + 256 * m + l)%N
                /\ (0 <= p < 0 + N.of_nat 17)%N
                /\ (0 <= m < 0 + N.of_nat 256)%N
                /\ (0 <= l < 0 + N.of_nat 256)%N.
Proof.
  intros Hc.
  exists (c / 65536)%N, ((c mod 65536) / 256)%N, ((c mod 65536) mod 256)%N.
  pose proof (N.div_mod c 65536 ltac:(lia)) as E1.
  pose proof (N.div_mod (c mod 65536) 256 ltac:(lia)) as E2.
  pose proof (N.mod_upper_bound c 65536 ltac:(lia)) as B1.
  pose proof (N.mod_upper_bound (c mod 65536) 256 ltac:(lia)) as B2.
  change (N.of_nat 17) with 17%N. change (N.of_nat 256) with 256%N.
  assert (B3 : (c / 65536 < 17)%N)
    by (apply N.Div0.div_lt_upper_bound; lia).
  assert (B4 : (c mod 65536 / 256 < 256)%N)
    by (apply N.Div0.div_lt_upper_bound; exact B1).
  set (x := (c / 65536)%N) in *. set (y := (c mod 65536)%N) in *.
  set (z := (y / 256)%N) in *. set (w := (y mod 256)%N) in *.
  split; [lia|]. split; [lia|]. split; lia.
Qed.

Lemma encoding_ok_all (c : N) : encoding_ok c = true.
Proof.
  destruct (N.ltb c 0x110000) eqn:Hc.
  - assert (Hall :
      forallb (fun p =>
        forallb (fun m =>
          forallb (fun l => encoding_ok (65536 * p + 256 * m + l)%N)
                  (range 0 256))
                (range 0 256))
              (range 0 17) = true) by (vm_cast_no_check (eq_refl true)).
    apply N.ltb_lt in Hc.
    destruct (split_code_point c Hc) as (p & m & l & -> & Hp & Hm & Hl).
    exact (forallb_range _ _ _
             (forallb_range _ _ _ (forallb_range _ _ _ Hall p Hp) m Hm) l Hl).
  - unfold encoding_ok, utf8_encode_char.
    apply N.ltb_ge in Hc.
    repeat match goal with
           | |- context [N.ltb c ?k] =>
               let E := fresh in
               assert (E : N.ltb c k = false) by (apply N.ltb_ge; lia);
               rewrite E; clear E
           end.
    reflexivity.
Qed.

Lemma utf8_items_encode_char (c : char) (bs r : bytes) :
  utf8_encode_char c = Some bs ->
  utf8_items (bs ++ r) = Some c :: utf8_items r.
Proof.
  intros E. pose proof (encoding_ok_all c) as H.
  unfold encoding_ok in H. rewrite E in H.
  destruct bs as [|b0 [|b1 [|b2 [|b3 [|]]]]]; try discriminate; simpl app;
    repeat match goal with
           | H : (_ && _) = true |- _ => apply andb_true_iff in H; destruct H
           | H : N.eqb _ c = true |- _ => apply N.eqb_eq in H; subst c
           end.
  - now apply utf8_items_1.
  - now apply utf8_items_2.
  - now apply utf8_items_3.
  - now apply utf8_items_4.
Qed.

Lemma utf8_items_encode (s : str) (bs : bytes) :
  utf8_encode s = Ok bs -> utf8_items bs = List.map Some s.
Proof.
  revert bs; induction s as [|c s IH]; simpl; intros bs H.
  - now injection H as <-.
  - destruct (utf8_encode_char c) as [b|] eqn:Ec; [|discriminate].
    destruct (utf8_encode s) as [r|]; [|discriminate].
    simpl in H. injection H as <-.
    rewrite (utf8_items_encode_char _ _ _ Ec). now rewrite (IH r).
Qed.

Lemma all_some_map {A} (l : list A) : all_some (List.map Some l) = Some l.
Proof. induction l; simpl; [reflexivity|]. now rewrite IHl. Qed.

(** Decoding what the strict encoder wrote gives the string back. *)
Lemma utf8_decode_encode (s : str) (bs : bytes) :
  utf8_encode s = Ok bs -> utf8_decode bs = Ok s.
Proof.
  intros H. unfold utf8_decode.
  now rewrite (utf8_items_encode _ _ H), all_some_map.
Qed.

Import JsonRpcProxy.

(** ** Facts for the framer *)

Lemma utf8_encode_ascii (s : str) : is_ascii s = true -> utf8_encode s = Ok s.
Proof.
  induction s as [|c s IH]; simpl; intros H; [reflexivity|].
  apply andb_true_iff in H as [Hc Hs].
  unfold utf8_encode_char. rewrite Hc, (IH Hs). reflexivity.
Qed.

Lemma utf8_decode_replace_ascii (bs : bytes) :
  is_ascii bs = true -> utf8_decode_replace bs = bs.
Proof.
  unfold utf8_decode_replace.
  induction bs as [|b bs IH]; simpl; intros H; [reflexivity|].
  apply andb_true_iff in H as [Hb Hs].
  rewrite Hb. simpl. now rewrite (IH Hs).
Qed.

Lemma is_ascii_app (a b : list N) :
  is_ascii (a ++ b) = is_ascii a && is_ascii b.
Proof. apply forallb_app. Qed.

Lemma uint_chars_digits (u : Decimal.uint) : all_digits (uint_chars u) = true.
Proof. induction u; simpl; auto. Qed.

Lemma decimal_digits (n : N) : all_digits (decimal n) = true.
Proof. apply uint_chars_digits. Qed.

Lemma decimal_not_nil (n : N) : decimal n <> [].
Proof.
  unfold decimal. destruct n as [|p]; simpl; [discriminate|].
  pose proof (DecimalPos.Unsigned.to_uint_nonnil p) as H.
  destruct (Pos.to_uint p); [contradiction | discriminate ..].
Qed.

Lemma digit_ascii (s : str) : all_digits s = true -> is_ascii s = true.
Proof.
  unfold all_digits, is_ascii. rewrite !forallb_forall.
  intros H c Hc. specialize (H c Hc). unfold Json.is_digit in H.
  bool_to_prop. apply N.ltb_lt. lia.
Qed.

Lemma parse_digits_uint (u : Decimal.uint) :
  forall (acc : N) (prev : bool),
    u <> Decimal.Nil \/ prev = true ->
    parse_digits (uint_chars u) acc prev
    = Ok (acc * 10 ^ Unsigned.usize u + Unsigned.of_lu (Decimal.rev u))%N.
Proof.
  induction u; intros acc prev Hne;
    [ destruct Hne as [Hne| ->]; [contradiction|]; simpl; f_equal;
      rewrite N.mul_1_r, N.add_0_r; reflexivity
    | unfold Decimal.rev; cbn [Decimal.revapp];
      rewrite Unsigned.of_lu_revapp;
      cbn [uint_chars parse_digits Unsigned.usize Unsigned.of_lu];
      change (N.eqb _ 0x5F) with false; cbv iota;
      match goal with
      | |- context [decimal_value ?c] =>
          let v := eval vm_compute in (decimal_value c) in
          change (decimal_value c) with v
      end; cbv iota;
      rewrite IHu by (now right);
      rewrite N.pow_succ_r'; f_equal; ring .. ].
Qed.

Lemma parse_digits_decimal (n : N) :
  parse_digits (decimal n) 0 false = Ok n.
Proof.
  unfold decimal. rewrite parse_digits_uint.
  - rewrite N.mul_0_l, N.add_0_l, <- Unsigned.of_uint_alt.
    f_equal. apply (DecimalN.Unsigned.of_to n).
  - left. intros E. apply (decimal_not_nil n). unfold decimal. now rewrite E.
Qed.

Lemma lstrip_spaces (space : char -> bool) (pre s : str) :
  forallb space pre = true -> lstrip_with space (pre ++ s) = lstrip_with space s.
Proof.
  induction pre as [|c pre IH]; simpl; intros H; [reflexivity|].
  apply andb_true_iff in H as [Hc Hp]. rewrite Hc. auto.
Qed.

Lemma lstrip_no_space (space : char -> bool) (c : char) (s : str) :
  space c = false -> lstrip_with space (c :: s) = c :: s.
Proof. intros H. simpl. now rewrite H. Qed.

Lemma forallb_rev_true {A} (f : A -> bool) (l : list A) :
  forallb f l = true -> forallb f (rev l) = true.
Proof.
  rewrite !forallb_forall. intros H x Hx. apply H. now apply in_rev.
Qed.

(** Stripping removes exactly the white space around a text that neither
    begins nor ends with white space. *)
Lemma strip_with_spec (space : char -> bool) (pre post s : str) :
  forallb space pre = true -> forallb space post = true ->
  forallb (fun c => negb (space c)) s = true ->
  strip_with space (pre ++ s ++ post) = s.
Proof.
  intros Hpre Hpost Hs. unfold strip_with.
  rewrite lstrip_spaces by exact Hpre.
  destruct s as [|c s].
  - simpl. clear Hs.
    assert (E : lstrip_with space post = []).
    { rewrite <- (app_nil_r post). rewrite lstrip_spaces by exact Hpost.
      reflexivity. }
    now rewrite E.
  - simpl in Hs. apply andb_true_iff in Hs as [Hc Hs].
    apply negb_true_iff in Hc.
    change ((c :: s) ++ post) with (c :: (s ++ post)).
    rewrite lstrip_no_space by exact Hc.
    change (c :: s ++ post) with ((c :: s) ++ post).
    rewrite rev_app_distr.
    rewrite lstrip_spaces by (now apply forallb_rev_true).
    destruct (rev (c :: s)) as [|d t] eqn:Er.
    + apply (f_equal (@List.length _)) in Er.
      rewrite length_rev in Er. discriminate.
    + assert (Hd : space d = false).
      { assert (Hin : In d (c :: s))
          by (apply in_rev; rewrite Er; now left).
        destruct Hin as [<-|Hin]; [exact Hc|].
        rewrite forallb_forall in Hs. specialize (Hs d Hin).
        now apply negb_true_iff in Hs. }
      rewrite lstrip_no_space by exact Hd.
      rewrite <- Er. apply rev_involutive.
Qed.

Lemma digits_not_space (space : char -> bool) (s : str) :
  (forall c, Json.is_digit c = true -> space c = false) ->
  all_digits s = true -> forallb (fun c => negb (space c)) s = true.
Proof.
  intros Hsp H. unfold all_digits in H. rewrite forallb_forall in *.
  intros c Hc. apply negb_true_iff. auto.
Qed.

Lemma digit_not_space (c : char) : Json.is_digit c = true -> is_space c = false.
Proof.
  unfold Json.is_digit, is_space. intros H. bool_to_prop.
  repeat (apply orb_false_iff; split);
    try (apply andb_false_iff);
    try (apply N.eqb_neq; lia);
    try (left; apply N.leb_gt; lia); try (right; apply N.leb_gt; lia).
Qed.

Lemma digit_not_int_space (c : char) :
  Json.is_digit c = true -> is_int_space c = false.
Proof.
  intros H. unfold is_int_space. now rewrite (digit_not_space _ H).
Qed.

(** [int(str(n)) == n] *)
Lemma py_int_decimal (n : N) : py_int (decimal n) = Ok (Z.of_N n).
Proof.
  unfold py_int.
  pose proof (strip_with_spec is_int_space [] [] (decimal n)
                eq_refl eq_refl
                (digits_not_space _ _ digit_not_int_space (decimal_digits n)))
    as E.
  simpl in E. rewrite app_nil_r in E. rewrite E.
  pose proof (decimal_digits n) as Hd. pose proof (decimal_not_nil n) as Hn.
  pose proof (parse_digits_decimal n) as Hp.
  destruct (decimal n) as [|c s]; [contradiction|].
  simpl in Hd. apply andb_true_iff in Hd as [Hc _].
  assert (E1 : N.eqb c 0x2B = false)
    by (unfold Json.is_digit in Hc; bool_to_prop; apply N.eqb_neq; lia).
  assert (E2 : N.eqb c 0x2D = false)
    by (unfold Json.is_digit in Hc; bool_to_prop; apply N.eqb_neq; lia).
  rewrite E1, E2, Hp. reflexivity.
Qed.

Lemma readline_line (line : bytes) (rest : istream) :
  contains 0x0A%N line = false ->
  readline (line ++ 0x0A%N :: rest) = (line ++ [0x0A%N], rest).
Proof.
  unfold contains.
  induction line as [|b line IH]; cbn [existsb readline app]; intros H;
    [reflexivity|].
  apply orb_false_iff in H as [Hb Hl].
  rewrite N.eqb_sym in Hb. rewrite Hb, (IH Hl). reflexivity.
Qed.

Lemma digits_no_char (c : char) (s : str) :
  Json.is_digit c = false -> all_digits s = true -> contains c s = false.
Proof.
  intros Hc. unfold contains, all_digits.
  induction s as [|d s IH]; cbn [existsb forallb]; intros H; [reflexivity|].
  apply andb_true_iff in H as [Hd Hs]. rewrite (IH Hs), orb_false_r.
  apply N.eqb_neq. intros <-. congruence.
Qed.

Lemma contains_app (c : char) (a b : str) :
  contains c (a ++ b) = contains c a || contains c b.
Proof. apply existsb_app. Qed.

Lemma bytes_eqb_eq (a b : bytes) : bytes_eqb a b = true -> a = b.
Proof.
  revert b; induction a as [|x a IH]; destruct b as [|y b];
    cbn [bytes_eqb]; try discriminate; auto.
  intros H. apply andb_true_iff in H as [Hx Ha].
  apply N.eqb_eq in Hx. subst. f_equal. auto.
Qed.

Lemma cont_not_colon (b : N) (r : bytes) :
  is_cont b = true -> contains 0x3A%N (b :: r) = contains 0x3A%N r.
Proof.
  intros H. apply is_cont_range in H. unfold contains. cbn [existsb].
  assert (E : N.eqb 0x3A b = false) by (apply N.eqb_neq; lia).
  now rewrite E.
Qed.

Lemma high_not_colon (b : N) (r : bytes) :
  N.ltb b 0x80 = false -> contains 0x3A%N (b :: r) = contains 0x3A%N r.
Proof.
  intros H. apply N.ltb_ge in H. unfold contains. cbn [existsb].
  assert (E : N.eqb 0x3A b = false) by (apply N.eqb_neq; lia).
  now rewrite E.
Qed.

(** The decoder with [errors='replace'] keeps every colon: a colon is
    never part of a sequence of several octets. *)
Lemma utf8_decode_replace_colon (n : nat) :
  forall bs : bytes,
    (List.length bs <= n)%nat ->
    contains 0x3A%N bs = true ->
    contains 0x3A%N (utf8_decode_replace bs) = true.
Proof.
  unfold utf8_decode_replace.
  induction n as [|n IH]; intros bs Hlen Hc.
  { destruct bs; [discriminate | simpl in Hlen; lia]. }
  destruct bs as [|b0 r0]; [discriminate|].
  assert (Hskip : forall r : bytes,
             (List.length r <= n)%nat ->
             contains 0x3A%N r = true ->
             contains 0x3A%N
               (0xFFFD%N
                :: List.map (fun i => match i with
                                      | Some c => c
                                      | None => 0xFFFD%N
                                      end) (utf8_items r)) = true).
  { intros r Hr Hcr. unfold contains. cbn [existsb].
    apply orb_true_iff. right. now apply IH. }
  assert (Hsome : forall (c : char) (r : bytes),
             (List.length r <= n)%nat ->
             contains 0x3A%N r = true ->
             contains 0x3A%N
               (c :: List.map (fun i => match i with
                                        | Some c => c
                                        | None => 0xFFFD%N
                                        end) (utf8_items r)) = true).
  { intros c r Hr Hcr. unfold contains. cbn [existsb].
    apply orb_true_iff. right. now apply IH. }
  cbn [utf8_items]. cbn [List.length] in Hlen.
  destruct (N.ltb b0 0x80) eqn:E0.
  { cbn [List.map]. unfold contains in *. cbn [existsb] in *.
    apply orb_true_iff in Hc as [Hc|Hc]; apply orb_true_iff;
      [now left | right].
    apply IH; [lia | exact Hc]. }
  rewrite (high_not_colon _ _ E0) in Hc.
  assert (H0 : (List.length r0 <= n)%nat) by lia.
  destruct (N.leb 0xC2 b0 && N.leb b0 0xDF)%N.
  { destruct r0 as [|b1 r1]; [discriminate|].
    destruct (is_cont b1) eqn:E1; cbn [List.map]; [|now apply Hskip].
    rewrite (cont_not_colon _ _ E1) in Hc.
    apply Hsome; [simpl in H0 |- *; lia | exact Hc]. }
  destruct (N.leb 0xE0 b0 && N.leb b0 0xEF)%N.
  { destruct r0 as [|b1 r1]; [discriminate|].
    destruct (second_ok b0 b1) eqn:E1; cbn [List.map]; [|now apply Hskip].
    pose proof (second_ok_cont _ _ E1) as C1.
    pose proof Hc as Hc1. rewrite (cont_not_colon _ _ C1) in Hc1.
    destruct r1 as [|b2 r2]; [discriminate|].
    destruct (is_cont b2) eqn:E2; cbn [List.map].
    - rewrite (cont_not_colon _ _ E2) in Hc1.
      apply Hsome; [simpl in H0 |- *; lia | exact Hc1].
    - apply Hskip; [simpl in H0 |- *; lia | exact Hc1]. }
  destruct (N.leb 0xF0 b0 && N.leb b0 0xF4)%N.
  { destruct r0 as [|b1 r1]; [discriminate|].
    destruct (second_ok b0 b1) eqn:E1; cbn [List.map]; [|now apply Hskip].
    pose proof (second_ok_cont _ _ E1) as C1.
    pose proof Hc as Hc1. rewrite (cont_not_colon _ _ C1) in Hc1.
    destruct r1 as [|b2 r2]; [discriminate|].
    destruct (is_cont b2) eqn:E2; cbn [List.map];
      [|apply Hskip; [simpl in H0 |- *; lia | exact Hc1]].
    pose proof Hc1 as Hc2. rewrite (cont_not_colon _ _ E2) in Hc2.
    destruct r2 as [|b3 r3]; [discriminate|].
    destruct (is_cont b3) eqn:E3; cbn [List.map].
    - rewrite (cont_not_colon _ _ E3) in Hc2.
      apply Hsome; [simpl in H0 |- *; lia | exact Hc2].
    - apply Hskip; [simpl in H0 |- *; lia | exact Hc2]. }
  cbn [List.map]. now apply Hskip.
Qed.

Lemma split_colon_some (s : str) :
  contains 0x3A%N s = true ->
  exists key value, split_colon s = Some (key, value).
Proof.
  unfold contains.
  induction s as [|c s IH]; cbn [existsb split_colon]; [discriminate|].
  intros H. rewrite N.eqb_sym.
  destruct (N.eqb 0x3A c); [now eexists; eexists|].
  destruct (IH H) as (k & v & ->). now eexists; eexists.
Qed.

(** ** The two kinds of stream *)

Section Reads.
Context {memory : Memory}.

Lemma stream_read_exact (body : bytes) (rest : istream) :
  stream_read (Z.of_nat (List.length body)) (body ++ rest) = Ok (body, rest).
Proof.
  cbn [stream_read buffered_stream]. unfold buffered_read.
  assert (E1 : Z.ltb (Z.of_nat (List.length body)) (-1) = false)
    by (apply Z.ltb_ge; lia).
  assert (E2 : Z.eqb (Z.of_nat (List.length body)) (-1) = false)
    by (apply Z.eqb_neq; lia).
  assert (E3 : Z.leb (Z.of_nat (List.length body))
                     (Z.of_nat (List.length (body ++ rest))) = true)
    by (apply Z.leb_le; rewrite length_app; lia).
  rewrite E1, E2, E3, Nat2Z.id.
  rewrite firstn_app, Nat.sub_diag, firstn_all. simpl. rewrite app_nil_r.
  rewrite skipn_app, Nat.sub_diag, skipn_all. reflexivity.
Qed.

(** A buffered reader asked for more than the stream holds. *)
Lemma stream_read_short (n : Z) (tail : istream) :
  (Z.of_nat (List.length tail) < n)%Z ->
  stream_read n tail = short_read n tail [].
Proof.
  intros H. cbn [stream_read buffered_stream]. unfold buffered_read.
  assert (E1 : Z.ltb n (-1) = false) by (apply Z.ltb_ge; lia).
  assert (E2 : Z.eqb n (-1) = false) by (apply Z.eqb_neq; lia).
  assert (E3 : Z.leb n (Z.of_nat (List.length tail)) = false)
    by (apply Z.leb_gt; lia).
  now rewrite E1, E2, E3.
Qed.

(** What is read and what is left make up what was there. *)
Lemma stream_read_app (n : Z) (stream : istream) (body : bytes)
  (rest : istream) :
  stream_read n stream = Ok (body, rest) -> stream = body ++ rest.
Proof.
  cbn [stream_read buffered_stream]. unfold buffered_read, short_read.
  destruct (Z.ltb n (-1)); [discriminate|].
  destruct (Z.eqb n (-1)); [intros [= <- <-]; now rewrite app_nil_r|].
  destruct (Z.leb n _).
  - intros [= <- <-]. symmetry. apply firstn_skipn.
  - destruct (Z.ltb PY_SSIZE_T_MAX n); [discriminate|].
    destruct (refused n); [discriminate|].
    intros [= <- <-]. now rewrite app_nil_r.
Qed.

Lemma raw_read_app (n : Z) (stream : raw_stream) (body : bytes)
  (rest : raw_stream) :
  stream_read n stream = Ok (body, rest) ->
  arriving stream = body ++ arriving rest /\ ready rest = ready stream.
Proof.
  cbn [stream_read raw_pipe]. unfold raw_read, short_read.
  destruct (Z.ltb n 0);
    [intros [= <- <-]; cbn; now rewrite app_nil_r|].
  destruct (Z.leb n _).
  - intros [= <- <-]. cbn. split; [|reflexivity].
    symmetry. apply firstn_skipn.
  - destruct (Z.ltb PY_SSIZE_T_MAX n); [discriminate|].
    destruct (refused n); [discriminate|].
    intros [= <- <-]. cbn. split; [|reflexivity].
    symmetry. apply firstn_skipn.
Qed.

(** A raw stream asked for no more than the pipe holds. *)
Lemma raw_read_exact (body : bytes) (rest : istream)
  (pace : istream -> nat) :
  (List.length body <= pace (body ++ rest))%nat ->
  stream_read (Z.of_nat (List.length body))
              {| arriving := body ++ rest; ready := pace |}
  = Ok (body, {| arriving := rest; ready := pace |}).
Proof.
  intros H. cbn [stream_read raw_pipe]. unfold raw_read, held, raw_after.
  cbn [arriving ready].
  assert (E1 : Z.ltb (Z.of_nat (List.length body)) 0 = false)
    by (apply Z.ltb_ge; lia).
  assert (E2 : Z.leb (Z.of_nat (List.length body))
                     (Z.of_nat (Nat.min (List.length (body ++ rest))
                                  (Nat.max 1 (pace (body ++ rest)))))
               = true)
    by (apply Z.leb_le; rewrite length_app; lia).
  rewrite E1, E2, Nat2Z.id.
  rewrite firstn_app, Nat.sub_diag, firstn_all. simpl. rewrite app_nil_r.
  rewrite skipn_app, Nat.sub_diag, skipn_all. reflexivity.
Qed.

(** A raw stream asked for more than the pipe holds: what it holds is
    what the read returns, if the buffer asked for is granted. *)
Lemma raw_read_short (n : Z) (stream : raw_stream) :
  (Z.of_nat (held stream) < n)%Z ->
  stream_read n stream
  = short_read n (firstn (held stream) (arriving stream))
               (raw_after stream (skipn (held stream) (arriving stream))).
Proof.
  intros H. cbn [stream_read raw_pipe]. unfold raw_read.
  assert (E1 : Z.ltb n 0 = false) by (apply Z.ltb_ge; lia).
  assert (E2 : Z.leb n (Z.of_nat (held stream)) = false)
    by (apply Z.leb_gt; lia).
  now rewrite E1, E2.
Qed.

End Reads.

(** ** The header loop *)

Section HeaderLoop.
Context {memory : Memory}.

Lemma utf8_encode_length (s : str) (bs : bytes) :
  utf8_encode s = Ok bs -> s <> [] -> bs <> [].
Proof.
  destruct s as [|c s]; [contradiction|]. simpl. intros H _.
  destruct (utf8_encode_char c) as [b|] eqn:Ec; [|discriminate].
  destruct (utf8_encode s) as [r|]; [|discriminate].
  simpl in H. injection H as <-.
  unfold utf8_encode_char in Ec.
  repeat match type of Ec with
         | (if ?x then _ else _) = _ => destruct x
         end; try discriminate; injection Ec as <-; discriminate.
Qed.

Lemma header_eq (content_bytes : bytes) :
  header content_bytes
  = HEADER_NAME ++ decimal (N.of_nat (List.length content_bytes))
      ++ [0x0D; 0x0A; 0x0D; 0x0A]%N.
Proof. reflexivity. Qed.

Lemma header_ascii (content_bytes : bytes) :
  is_ascii (header content_bytes) = true.
Proof.
  rewrite header_eq, !is_ascii_app.
  rewrite (digit_ascii _ (decimal_digits _)). reflexivity.
Qed.

Lemma bytes_eqb_refl (a : bytes) : bytes_eqb a a = true.
Proof.
  induction a as [|x a IH]; [reflexivity|].
  cbn [bytes_eqb]. now rewrite N.eqb_refl, IH.
Qed.

Lemma plain_line_not_blank (line : bytes) :
  plain_line line = true -> bytes_eqb (line ++ [0x0A%N]) CRLF = false.
Proof.
  unfold plain_line. intros H. apply andb_true_iff in H as [_ H].
  apply negb_true_iff in H.
  destruct (bytes_eqb (line ++ [0x0A%N]) CRLF) eqn:E; [|reflexivity].
  apply bytes_eqb_eq in E.
  change CRLF with ([0x0D%N] ++ [0x0A%N]) in E.
  apply app_inj_tail in E as [-> _]. discriminate.
Qed.

Lemma plain_line_colon (line : bytes) :
  contains 0x3A%N (line ++ [0x0A%N]) = contains 0x3A%N line.
Proof. rewrite contains_app. cbn. apply orb_false_r. Qed.

(** The header loop on one line that is not the blank line. *)
Lemma read_headers_step (fuel : nat) (line : bytes) (tail : istream)
  (headers : list (str * str)) :
  plain_line line = true ->
  read_headers (S fuel) ((line ++ [0x0A%N]) ++ tail) headers
  = read_headers fuel tail (header_of_line headers line).
Proof.
  intros Hp. pose proof (plain_line_not_blank line Hp) as Hb.
  pose proof (plain_line_colon line) as Hc.
  assert (Hnl : contains 0x0A%N line = false).
  { unfold plain_line in Hp. apply andb_true_iff in Hp as [Hp _].
    now apply negb_true_iff in Hp. }
  assert (Hsome : contains 0x3A%N line = true ->
                  exists key value,
                    split_colon (utf8_decode_replace (line ++ [0x0A%N]))
                    = Some (key, value)).
  { intros H. apply split_colon_some.
    apply (utf8_decode_replace_colon _ _ (Nat.le_refl _)).
    now rewrite Hc. }
  cbn [read_headers stream_readline buffered_stream].
  rewrite <- app_assoc. cbn [app]. rewrite (readline_line _ _ Hnl).
  unfold header_of_line.
  destruct (line ++ [0x0A%N]) as [|c full] eqn:E;
    [destruct line; discriminate|].
  rewrite Hb, Hc.
  destruct (contains 0x3A%N line); [|reflexivity].
  destruct (Hsome eq_refl) as (key & value & ->). reflexivity.
Qed.

Lemma read_headers_blank (fuel : nat) (tail : istream)
  (headers : list (str * str)) :
  read_headers (S fuel) (CRLF ++ tail) headers = HeadersDone headers tail.
Proof. reflexivity. Qed.

(** The header loop on a block of lines closed by the blank line. *)
Lemma read_headers_lines (lines : list bytes) :
  forall (fuel : nat) (tail : istream) (headers : list (str * str)),
    forallb plain_line lines = true ->
    (List.length lines < fuel)%nat ->
    read_headers fuel (lines_octets lines ++ CRLF ++ tail) headers
    = HeadersDone (fold_left header_of_line lines headers) tail.
Proof.
  induction lines as [|line lines IH]; intros fuel tail headers Hs Hf.
  - destruct fuel; [simpl in Hf; lia|]. apply read_headers_blank.
  - cbn [forallb] in Hs. apply andb_true_iff in Hs as [Hl Hs].
    destruct fuel; [simpl in Hf; lia|].
    unfold lines_octets. cbn [flat_map]. rewrite <- app_assoc.
    fold (lines_octets lines).
    rewrite read_headers_step by exact Hl.
    cbn [fold_left]. apply IH; [exact Hs | simpl in Hf; lia].
Qed.

(** The header loop on a block of lines that the end of the stream cuts
    short. *)
Lemma read_headers_cut (lines : list bytes) :
  forall (fuel : nat) (last : bytes) (headers : list (str * str)),
    forallb plain_line lines = true ->
    contains 0x0A%N last = false ->
    (List.length lines + Nat.min 1 (List.length last) < fuel)%nat ->
    read_headers fuel (lines_octets lines ++ last) headers = HeadersEof [].
Proof.
  induction lines as [|line lines IH]; intros fuel last headers Hs Hl Hf.
  - cbn [lines_octets flat_map app].
    destruct fuel as [|fuel]; [simpl in Hf; lia|].
    assert (Hr : readline last = (last, [])).
    { clear - Hl. unfold contains in Hl.
      induction last as [|b last IH]; [reflexivity|].
      cbn [existsb] in Hl. apply orb_false_iff in Hl as [Hb Hl].
      cbn [readline]. rewrite N.eqb_sym in Hb. now rewrite Hb, (IH Hl). }
    cbn [read_headers stream_readline buffered_stream]. rewrite Hr.
    destruct last as [|c last]; [reflexivity|].
    destruct fuel as [|fuel]; [simpl in Hf; lia|].
    assert (Hb : bytes_eqb (c :: last) CRLF = false).
    { destruct (bytes_eqb (c :: last) CRLF) eqn:E; [|reflexivity].
      apply bytes_eqb_eq in E. rewrite E in Hl. discriminate. }
    rewrite Hb.
    destruct (contains 0x3A%N (c :: last)) eqn:Hc; [|reflexivity].
    destruct (split_colon_some _
                (utf8_decode_replace_colon _ _ (Nat.le_refl _) Hc))
      as (key & value & ->).
    reflexivity.
  - cbn [forallb] in Hs. apply andb_true_iff in Hs as [Hline Hs].
    destruct fuel; [simpl in Hf; lia|].
    unfold lines_octets. cbn [flat_map]. rewrite <- app_assoc.
    fold (lines_octets lines).
    rewrite read_headers_step by exact Hline.
    apply IH; [exact Hs | exact Hl | cbn [Datatypes.length] in Hf; lia].
Qed.

(** The header loop reads a raw stream as it reads the octets the stream
    delivers: [readline] gives whole lines on both. *)
Lemma read_headers_raw (fuel : nat) :
  forall (stream : raw_stream) (headers : list (str * str)),
    read_headers fuel stream headers
    = on_raw stream (read_headers fuel (arriving stream) headers).
Proof.
  induction fuel as [|fuel IH]; intros stream headers; [reflexivity|].
  cbn [read_headers stream_readline buffered_stream raw_pipe].
  unfold raw_readline.
  destruct (readline (arriving stream)) as [line rest].
  destruct line as [|b line]; [reflexivity|].
  destruct (bytes_eqb (b :: line) CRLF); [reflexivity|].
  destruct (contains 0x3A%N (b :: line)).
  - destruct (split_colon _) as [[key value]|]; [|reflexivity].
    rewrite IH. cbn [raw_after arriving].
    now destruct (read_headers fuel rest _).
  - rewrite IH. cbn [raw_after arriving].
    now destruct (read_headers fuel rest _).
Qed.

Lemma lines_octets_length (lines : list bytes) :
  (List.length lines <= List.length (lines_octets lines))%nat.
Proof.
  induction lines as [|line lines IH]; [simpl; lia|].
  unfold lines_octets in *. cbn [flat_map].
  rewrite !length_app. simpl. lia.
Qed.

End HeaderLoop.

(** ** The framer *)

Section Framer.
Context {memory : Memory}.

(** The header loop on a well-formed frame: one header line, then the
    blank line. *)
Lemma read_headers_frame (fuel : nat) (n : N) (tail : istream) :
  read_headers (S (S fuel))
               (HEADER_NAME ++ decimal n ++ [0x0D; 0x0A; 0x0D; 0x0A]%N ++ tail)
               []
  = HeadersDone [(CONTENT_LENGTH, decimal n)] tail.
Proof.
  pose proof (decimal_digits n) as Hds.
  generalize dependent (decimal n). intros ds Hds.
  assert (Hnl : contains 0x0A%N (HEADER_NAME ++ ds ++ [0x0D%N]) = false).
  { rewrite !contains_app.
    now rewrite (digits_no_char 0x0A%N ds eq_refl Hds). }
  assert (Hascii : is_ascii ((HEADER_NAME ++ ds ++ [0x0D%N]) ++ [0x0A%N])
                   = true).
  { rewrite !is_ascii_app. now rewrite (digit_ascii _ Hds). }
  assert (Hsplit : split_colon ((HEADER_NAME ++ ds ++ [0x0D%N]) ++ [0x0A%N])
                   = Some (lit "Content-Length",
                           0x20%N :: ds ++ [0x0D; 0x0A]%N)).
  { rewrite <- !app_assoc. reflexivity. }
  assert (Hvalue : strip (0x20%N :: ds ++ [0x0D; 0x0A]%N) = ds).
  { apply (strip_with_spec is_space [0x20%N] [0x0D; 0x0A]%N ds);
      try reflexivity.
    apply digits_not_space; [apply digit_not_space | exact Hds]. }
  assert (Hcolon : contains 0x3A%N ((HEADER_NAME ++ ds ++ [0x0D%N]) ++ [0x0A%N])
                   = true)
    by (rewrite !contains_app; reflexivity).
  assert (Hcrlf : bytes_eqb ((HEADER_NAME ++ ds ++ [0x0D%N]) ++ [0x0A%N]) CRLF
                  = false) by reflexivity.
  assert (Hshape : exists c l',
             (HEADER_NAME ++ ds ++ [0x0D%N]) ++ [0x0A%N] = c :: l')
    by (now eexists; eexists).
  replace (HEADER_NAME ++ ds ++ [0x0D; 0x0A; 0x0D; 0x0A]%N ++ tail)
    with ((HEADER_NAME ++ ds ++ [0x0D%N])
            ++ 0x0A%N :: ([0x0D; 0x0A]%N ++ tail))
    by (now rewrite <- !app_assoc).
  generalize dependent (HEADER_NAME ++ ds ++ [0x0D%N]). intros line.
  intros Hnl.
  cbn [read_headers stream_readline buffered_stream].
  rewrite (readline_line _ _ Hnl). cbv beta iota.
  unfold istream, bytes, str, char in *.
  generalize (line ++ [0x0A%N]).
  intros full Hascii Hsplit Hcolon Hcrlf (c & l' & ->).
  rewrite Hcrlf, Hcolon.
  rewrite (utf8_decode_replace_ascii _ Hascii), Hsplit, Hvalue.
  change (lower (strip (lit "Content-Length"))) with CONTENT_LENGTH.
  reflexivity.
Qed.

Lemma write_message_open (json_dumps : json -> outcome str)
  (stream : ostream) (m : json) (text : str) (body : bytes) :
  json_dumps m = Ok text ->
  utf8_encode text = Ok body ->
  writable stream = true ->
  write_message json_dumps stream m
  = ({| written := written stream ++ header body ++ body;
        writable := true |}, []).
Proof.
  intros Hd Hb Hw. unfold write_message.
  rewrite Hd. cbn [bind]. rewrite Hb. cbn [bind].
  rewrite (utf8_encode_ascii _ (header_ascii body)). cbn [bind].
  unfold stream_write, stream_flush. rewrite Hw. cbn.
  now rewrite <- app_assoc.
Qed.

Lemma read_message_frame (json_loads : str -> outcome json)
  (m : json) (text : str) (body : bytes) (rest : istream) :
  utf8_encode text = Ok body ->
  body <> [] ->
  json_loads text = Ok m ->
  read_message json_loads ((header body ++ body) ++ rest) = (m, rest, []).
Proof.
  intros Hb Hne Hl. unfold read_message. cbn [unread buffered_stream].
  rewrite header_eq, <- !app_assoc.
  destruct (List.length _) as [|fuel] eqn:Elen at 1.
  { apply (f_equal (fun n => n =? 0)%nat) in Elen.
    rewrite !length_app in Elen. discriminate. }
  rewrite read_headers_frame.
  change (dict_get [(CONTENT_LENGTH, ?v)] CONTENT_LENGTH) with (Some v).
  cbv beta iota.
  rewrite py_int_decimal, nat_N_Z.
  assert (E0 : Z.eqb (Z.of_nat (List.length body)) 0 = false).
  { apply Z.eqb_neq. destruct body; [contradiction | simpl; lia]. }
  rewrite E0, stream_read_exact, Z.eqb_refl. cbn [negb].
  rewrite (utf8_decode_encode _ _ Hb). cbn [bind]. now rewrite Hl.
Qed.

(** C6: a message written to an open stream is framed as
    [Content-Length: <n>], a blank line and the [n] octets of its UTF-8
    text; reading from those octets, whatever follows them, returns the
    message and leaves what follows. The serializer and the parser are
    those of the [json] library: [json_dumps] gives a non-empty text that
    encodes, and [json_loads] reads that text back. *)
Theorem framer_round_trip
  (json_dumps : json -> outcome str) (json_loads : str -> outcome json)
  (m : json) (text : str) (stream : ostream) (rest : istream) :
  json_dumps m = Ok text ->
  json_loads text = Ok m ->
  (0 < List.length text)%nat ->
  encodable text = true ->
  writable stream = true ->
  exists body : bytes,
    utf8_encode text = Ok body
    /\ write_message json_dumps stream m
       = ({| written := written stream ++ header body ++ body;
             writable := true |}, [])
    /\ header body
       = lit "Content-Length: " ++ decimal (N.of_nat (List.length body))
           ++ [0x0D; 0x0A; 0x0D; 0x0A]%N
    /\ read_message json_loads ((header body ++ body) ++ rest)
       = (m, rest, []).
Proof.
  intros Hd Hl Hlen He Hw.
  destruct (utf8_encode_encodable _ He) as [body Hb].
  exists body. split; [exact Hb|]. split; [|split].
  - now apply (write_message_open json_dumps stream m text).
  - reflexivity.
  - apply (read_message_frame json_loads m text); auto.
    apply (utf8_encode_length _ _ Hb). destruct text; simpl in *; [lia|discriminate].
Qed.

(** ** Failures of read_message *)

Lemma read_message_eof (json_loads : str -> outcome json) :
  read_message json_loads ([] : istream) = (JNull, [], []).
Proof. reflexivity. Qed.

Lemma read_message_blank_line (json_loads : str -> outcome json)
  (rest : istream) :
  read_message json_loads (CRLF ++ rest) = (JNull, rest, [NoContentLength]).
Proof. reflexivity. Qed.

(** What [read_message] does once the header block has been read. *)
Lemma read_message_after_block (json_loads : str -> outcome json)
  (lines : list bytes) (tail : istream) :
  forallb plain_line lines = true ->
  read_message json_loads (lines_octets lines ++ CRLF ++ tail)
  = match content_length_of (headers_of_lines lines) with
    | Raise e => (JNull, tail, [ErrorReading e])
    | Ok content_length =>
        if Z.eqb content_length 0 then (JNull, tail, [NoContentLength])
        else
          match stream_read content_length tail with
          | Raise e => (JNull, tail, [ErrorReading e])
          | Ok (body, rest) =>
              if negb (Z.eqb (Z.of_nat (List.length body)) content_length)
              then (JNull, rest,
                    [ShortBody content_length (List.length body)])
              else
                match (text <- utf8_decode body ;; json_loads text) with
                | Ok message => (message, rest, [])
                | Raise JSONDecodeError => (JNull, rest, [JsonDecodeFailed])
                | Raise e => (JNull, rest, [ErrorReading e])
                end
          end
    end.
Proof.
  intros Hl. unfold read_message. cbn [unread buffered_stream].
  rewrite read_headers_lines; [reflexivity | exact Hl |].
  pose proof (lines_octets_length lines). rewrite length_app. lia.
Qed.

(** The same on a raw stream. *)
Lemma read_message_raw_after_block (json_loads : str -> outcome json)
  (lines : list bytes) (tail : istream) (pace : istream -> nat) :
  forallb plain_line lines = true ->
  read_message json_loads
    {| arriving := lines_octets lines ++ CRLF ++ tail; ready := pace |}
  = let rest := {| arriving := tail; ready := pace |} in
    match content_length_of (headers_of_lines lines) with
    | Raise e => (JNull, rest, [ErrorReading e])
    | Ok content_length =>
        if Z.eqb content_length 0 then (JNull, rest, [NoContentLength])
        else
          match stream_read content_length rest with
          | Raise e => (JNull, rest, [ErrorReading e])
          | Ok (body, rest') =>
              if negb (Z.eqb (Z.of_nat (List.length body)) content_length)
              then (JNull, rest',
                    [ShortBody content_length (List.length body)])
              else
                match (text <- utf8_decode body ;; json_loads text) with
                | Ok message => (message, rest', [])
                | Raise JSONDecodeError =>
                    (JNull, rest', [JsonDecodeFailed])
                | Raise e => (JNull, rest', [ErrorReading e])
                end
          end
    end.
Proof.
  intros Hl. unfold read_message. cbn [unread raw_pipe arriving].
  rewrite read_headers_raw. cbn [arriving].
  rewrite read_headers_lines; [reflexivity | exact Hl |].
  pose proof (lines_octets_length lines). rewrite length_app. lia.
Qed.

(** A log record comes with [None] only. *)
Lemma read_message_logged {T : Type} {stream_T : Stream T}
  (json_loads : str -> outcome json) (stream : T) :
  snd (read_message json_loads stream) <> [] ->
  fst (fst (read_message json_loads stream)) = JNull.
Proof.
  unfold read_message.
  destruct (read_headers _ stream []) as [rest|headers rest|e rest|];
    try reflexivity.
  destruct (match dict_get headers CONTENT_LENGTH with
            | Some v => py_int v | None => Ok 0%Z end) as [n|e];
    [|reflexivity].
  destruct (Z.eqb n 0); [reflexivity|].
  destruct (stream_read n rest) as [[body rest']|e]; [|reflexivity].
  destruct (negb _); [reflexivity|].
  destruct (text <- utf8_decode body ;; json_loads text) as [m|[]];
    try reflexivity.
  intros H. now contradiction H.
Qed.

(** C3 (as the code has it): on a malformed message [read_message] logs
    and returns [None], and a log record never comes with a message,
    whichever of the two streams is read. After any block of header
    lines and the blank line: when the block has no content-length or
    its value is zero; when the value is not a number; when the stream
    ends before the body is complete, which is a short body if the buffer
    asked for is granted and an error, with the body unread, if it is
    refused or the length does not fit [Py_ssize_t]; when the length is
    negative; when the body is not UTF-8 or [json.loads] raises on it. On
    a raw stream, as the child's pipe is, a body of which the pipe holds
    a part only is a short body too, and the rest of it stays on the
    stream. [None], without a log record, is also what [read_message]
    returns when the stream ends before a blank header line. *)
Theorem read_message_malformed (json_loads : str -> outcome json) :
  ((forall stream : istream,
       snd (read_message json_loads stream) <> [] ->
       fst (fst (read_message json_loads stream)) = JNull)
   /\ (forall stream : raw_stream,
          snd (read_message json_loads stream) <> [] ->
          fst (fst (read_message json_loads stream)) = JNull))
  /\ (forall (lines : list bytes) (tail : istream),
         forallb plain_line lines = true ->
         let announced := content_length_of (headers_of_lines lines) in
         let stream := lines_octets lines ++ CRLF ++ tail in
         (announced = Ok 0%Z ->
          read_message json_loads stream = (JNull, tail, [NoContentLength]))
         /\ (forall e,
                announced = Raise e ->
                read_message json_loads stream
                = (JNull, tail, [ErrorReading e]))
         /\ (forall n,
                announced = Ok n ->
                (Z.of_nat (List.length tail) < n)%Z ->
                read_message json_loads stream
                = if Z.ltb PY_SSIZE_T_MAX n
                  then (JNull, tail, [ErrorReading OverflowError])
                  else match refused n with
                       | Some e => (JNull, tail, [ErrorReading e])
                       | None =>
                           (JNull, [], [ShortBody n (List.length tail)])
                       end)
         /\ (forall n,
                announced = Ok n ->
                (n < 0)%Z ->
                read_message json_loads stream
                = if Z.eqb n (-1)
                  then (JNull, [], [ShortBody n (List.length tail)])
                  else (JNull, tail, [ErrorReading ValueError]))
         /\ (forall (body : bytes) (rest : istream),
                announced = Ok (Z.of_nat (List.length body)) ->
                body <> [] ->
                tail = body ++ rest ->
                (utf8_decode body = Raise UnicodeDecodeError ->
                 read_message json_loads stream
                 = (JNull, rest, [ErrorReading UnicodeDecodeError]))
                /\ (forall text e,
                       utf8_decode body = Ok text ->
                       json_loads text = Raise e ->
                       read_message json_loads stream
                       = (JNull, rest,
                          [match e with
                           | JSONDecodeError => JsonDecodeFailed
                           | _ => ErrorReading e
                           end])))
         /\ (forall (pace : istream -> nat) (n : Z),
                announced = Ok n ->
                let found :=
                  held {| arriving := tail; ready := pace |} in
                (Z.of_nat found < n <= PY_SSIZE_T_MAX)%Z ->
                refused n = None ->
                read_message json_loads
                  {| arriving := stream; ready := pace |}
                = (JNull,
                   {| arriving := skipn found tail; ready := pace |},
                   [ShortBody n found])))
  /\ (forall (lines : list bytes) (last : bytes),
         forallb plain_line lines = true ->
         contains 0x0A%N last = false ->
         read_message json_loads (lines_octets lines ++ last)
         = (JNull, [], [])).
Proof.
  split; [|split].
  - split; intros stream; apply read_message_logged.
  - intros lines tail Hl announced stream. unfold stream.
    rewrite (read_message_after_block json_loads lines tail Hl).
    fold announced.
    split; [|split; [|split; [|split; [|split]]]].
    + intros ->. reflexivity.
    + intros e ->. reflexivity.
    + intros n -> Hn.
      assert (E0 : Z.eqb n 0 = false) by (apply Z.eqb_neq; lia).
      rewrite E0, (stream_read_short n tail Hn). unfold short_read.
      destruct (Z.ltb PY_SSIZE_T_MAX n); [reflexivity|].
      destruct (refused n); [reflexivity|].
      assert (E1 : Z.eqb (Z.of_nat (List.length tail)) n = false)
        by (apply Z.eqb_neq; lia).
      now rewrite E1.
    + intros n -> Hn.
      assert (E0 : Z.eqb n 0 = false) by (apply Z.eqb_neq; lia).
      rewrite E0. cbn [stream_read buffered_stream]. unfold buffered_read.
      destruct (Z.eqb n (-1)) eqn:E1.
      * apply Z.eqb_eq in E1. subst n.
        assert (E2 : Z.eqb (Z.of_nat (List.length tail)) (-1) = false)
          by (apply Z.eqb_neq; lia).
        change (Z.ltb (-1) (-1)) with false. cbv iota.
        change (Z.eqb (-1) (-1)) with true. cbv iota.
        now rewrite E2.
      * assert (E2 : Z.ltb n (-1) = true)
          by (apply Z.ltb_lt; apply Z.eqb_neq in E1; lia).
        now rewrite E2.
    + intros body rest -> Hne ->.
      assert (E0 : Z.eqb (Z.of_nat (List.length body)) 0 = false).
      { apply Z.eqb_neq. destruct body; [contradiction | simpl; lia]. }
      rewrite E0, stream_read_exact, Z.eqb_refl. cbn [negb].
      split.
      * intros ->. reflexivity.
      * intros text e -> Hj. cbn [bind]. rewrite Hj.
        now destruct e.
    + intros pace n Hlen Hn Hr.
      set (found := held {| arriving := tail; ready := pace |}) in *.
      rewrite (read_message_raw_after_block json_loads lines tail pace Hl).
      cbv zeta. fold announced. rewrite Hlen.
      assert (E0 : Z.eqb n 0 = false) by (apply Z.eqb_neq; lia).
      rewrite E0, raw_read_short by (fold found; lia).
      unfold short_read.
      assert (E1 : Z.ltb PY_SSIZE_T_MAX n = false) by (apply Z.ltb_ge; lia).
      rewrite E1, Hr. fold found. cbn [arriving raw_after ready].
      assert (Hf : List.length (firstn found tail) = found).
      { apply firstn_length_le. unfold found, held. cbn [arriving].
        apply Nat.le_min_l. }
      rewrite Hf.
      assert (E2 : Z.eqb (Z.of_nat found) n = false)
        by (apply Z.eqb_neq; lia).
      now rewrite E2.
  - intros lines last Hl Hlast. unfold read_message.
    cbn [unread buffered_stream].
    rewrite read_headers_cut; [reflexivity | exact Hl | exact Hlast |].
    pose proof (lines_octets_length lines). rewrite length_app. lia.
Qed.

End Framer.

Section FramerExamples.
#[local] Existing Instance ample_memory.

Lemma framer_round_trip_witness :
  exists body : bytes,
    utf8_encode
      hover_request_text
    = Ok body
    /\ write_message Json.dumps open_stream hover_request
       = ({| written := written open_stream ++ header body ++ body;
             writable := true |}, [])
    /\ header body
       = lit "Content-Length: " ++ decimal (N.of_nat (List.length body))
           ++ [0x0D; 0x0A; 0x0D; 0x0A]%N
    /\ read_message Json.loads ((header body ++ body) ++ lit "Content-")
       = (hover_request, lit "Content-", []).
Proof.
  apply (framer_round_trip Json.dumps Json.loads hover_request);
    [vm_compute; reflexivity | vm_compute; reflexivity | simpl; lia
    | reflexivity | reflexivity].
Defined.

Lemma read_message_malformed_witness :
  read_message Json.loads
    (lit "X-Header: 1" ++ CRLF ++ CRLF ++ qlit "{'id':1}")
  = (JNull, qlit "{'id':1}", [NoContentLength])
  /\ read_message Json.loads
       (lit "Content-Length: 0" ++ CRLF ++ CRLF ++ qlit "{'id':1}")
     = (JNull, qlit "{'id':1}", [NoContentLength])
  /\ read_message Json.loads
       (lit "Content-Length: eight" ++ CRLF ++ CRLF ++ qlit "{'id':1}")
     = (JNull, qlit "{'id':1}", [ErrorReading ValueError])
  /\ read_message Json.loads
       (lit "Content-Length: 40" ++ CRLF ++ CRLF ++ qlit "{'id':1}")
     = (JNull, [], [ShortBody 40 8])
  /\ read_message Json.loads
       (lit "Content-Length: 9223372036854775808" ++ CRLF ++ CRLF
          ++ qlit "{'id':1}")
     = (JNull, qlit "{'id':1}", [ErrorReading OverflowError])
  /\ read_message (stream_T := @buffered_stream tight_memory) Json.loads
       (lit "Content-Length: 1000000000000" ++ CRLF ++ CRLF
          ++ qlit "{'id':1}")
     = (JNull, qlit "{'id':1}", [ErrorReading MemoryError])
  /\ read_message Json.loads
       (lit "Content-Length: -8" ++ CRLF ++ CRLF ++ qlit "{'id':1}")
     = (JNull, qlit "{'id':1}", [ErrorReading ValueError])
  /\ read_message Json.loads
       (lit "Content-Length: 1" ++ CRLF ++ CRLF ++ [0xC3%N]
          ++ lit "Content-")
     = (JNull, lit "Content-", [ErrorReading UnicodeDecodeError])
  /\ read_message Json.loads
       (lit "Content-Length: 7" ++ CRLF ++ CRLF ++ qlit "{'id':}"
          ++ lit "Content-")
     = (JNull, lit "Content-", [JsonDecodeFailed])
  /\ read_message Json.loads
       (trickling 5
          (lit "Content-Length: 8" ++ CRLF ++ CRLF ++ qlit "{'id':1}"))
     = (JNull, trickling 5 (lit ":1}"), [ShortBody 8 5])
  /\ read_message Json.loads
       (lit "Content-Length: 8" ++ CRLF ++ lit "Content-Type")
     = (JNull, [], []).
Proof.
  destruct (read_message_malformed (memory := tight_memory) Json.loads)
    as (_ & Hrefused & _).
  destruct (read_message_malformed Json.loads) as (_ & Hblock & Hcut).
  pose (block := fun value : string =>
                   [lit "Content-Length: " ++ lit value ++ [0x0D%N]]).
  repeat apply conj.
  - exact (proj1 (Hblock [lit "X-Header: 1" ++ [0x0D%N]] (qlit "{'id':1}")
                    eq_refl) eq_refl).
  - exact (proj1 (Hblock (block "0"%string) (qlit "{'id':1}") eq_refl)
             eq_refl).
  - exact (proj1 (proj2 (Hblock (block "eight"%string) (qlit "{'id':1}")
                           eq_refl)) ValueError eq_refl).
  - refine (proj1 (proj2 (proj2 (Hblock (block "40"%string)
                                   (qlit "{'id':1}") eq_refl)))
              40%Z eq_refl _).
    vm_compute. reflexivity.
  - refine (proj1 (proj2 (proj2 (Hblock (block "9223372036854775808"%string)
                                   (qlit "{'id':1}") eq_refl)))
              9223372036854775808%Z eq_refl _).
    vm_compute. reflexivity.
  - refine (proj1 (proj2 (proj2 (Hrefused (block "1000000000000"%string)
                                   (qlit "{'id':1}") eq_refl)))
              1000000000000%Z eq_refl _).
    vm_compute. reflexivity.
  - refine (proj1 (proj2 (proj2 (proj2
                                   (Hblock (block "-8"%string)
                                      (qlit "{'id':1}") eq_refl))))
              (-8)%Z eq_refl _).
    vm_compute. reflexivity.
  - refine (proj1 (proj1 (proj2 (proj2 (proj2 (proj2
                                   (Hblock (block "1"%string)
                                      ([0xC3%N] ++ lit "Content-")
                                      eq_refl)))))
                     [0xC3%N] (lit "Content-") eq_refl _ eq_refl) eq_refl).
    discriminate.
  - refine (proj2 (proj1 (proj2 (proj2 (proj2 (proj2
                                   (Hblock (block "7"%string)
                                      (qlit "{'id':}" ++ lit "Content-")
                                      eq_refl)))))
                     (qlit "{'id':}") (lit "Content-") eq_refl _ eq_refl)
              (qlit "{'id':}") JSONDecodeError eq_refl eq_refl).
    discriminate.
  - refine (proj2 (proj2 (proj2 (proj2 (proj2
                                   (Hblock (block "8"%string)
                                      (qlit "{'id':1}") eq_refl)))))
              (fun _ => 5%nat) 8%Z eq_refl _ eq_refl).
    vm_compute. split; [reflexivity | discriminate].
  - exact (Hcut [lit "Content-Length: 8" ++ [0x0D%N]] (lit "Content-Type")
             eq_refl eq_refl).
Defined.

(** C3, where it fails: the value returned for a malformed message is the
    value returned at the end of the stream, [None]. *)
Lemma framing_error_returns_what_eof_returns :
  fst (fst (read_message Json.loads (lit "X-Header: 1" ++ CRLF ++ CRLF
                                       ++ qlit "{'id':1}")))
  = fst (fst (read_message Json.loads []))
  /\ fst (fst (read_message Json.loads
                 (lit "Content-Length: 9" ++ CRLF ++ CRLF ++ qlit "{'id':1")))
     = fst (fst (read_message Json.loads []))
  /\ fst (fst (read_message Json.loads
                 (lit "Content-Length: 7" ++ CRLF ++ CRLF ++ qlit "{'id':}")))
     = fst (fst (read_message Json.loads []))
  /\ fst (fst (read_message Json.loads [])) = JNull.
Proof. repeat split; vm_compute; reflexivity. Qed.

End FramerExamples.
(** ** The proxy loop *)

Lemma readline_length (stream : istream) :
  (List.length (fst (readline stream)) + List.length (snd (readline stream))
   = List.length stream)%nat.
Proof.
  induction stream as [|b r IH]; simpl; [reflexivity|].
  destruct (N.eqb b 0x0A); simpl; [reflexivity|].
  destruct (readline r); simpl in *. lia.
Qed.

(** The header loop never runs out of its fuel, and a header block that
    ends has taken at least its blank line from the stream. *)
Lemma read_headers_progress {memory : Memory} (fuel : nat) :
  forall (stream : istream) (headers : list (str * str)),
    (List.length stream < fuel)%nat ->
    match read_headers fuel stream headers with
    | HeadersFuel => False
    | HeadersDone _ rest => (List.length rest < List.length stream)%nat
    | HeadersEof rest | HeadersRaise _ rest =>
        (List.length rest <= List.length stream)%nat
    end.
Proof.
  induction fuel as [|fuel IH]; intros stream headers Hlen; [lia|].
  cbn [read_headers stream_readline buffered_stream].
  pose proof (readline_length stream) as Hrl.
  destruct (readline stream) as [line rest]. simpl in Hrl.
  destruct line as [|b line]; [simpl in Hrl; lia|].
  simpl in Hrl.
  assert (Hrest : (List.length rest < fuel)%nat) by lia.
  destruct (bytes_eqb (b :: line) CRLF); [lia|].
  destruct (contains 0x3A%N (b :: line)).
  - destruct (split_colon _) as [[key value]|]; [|lia].
    specialize (IH rest (dict_set headers (lower (strip key)) (strip value))
                   Hrest).
    destruct (read_headers fuel rest _); try lia; exact IH.
  - specialize (IH rest headers Hrest).
    destruct (read_headers fuel rest _); try lia; exact IH.
Qed.

Lemma stream_read_length {memory : Memory} (n : Z) (stream : istream)
  (body : bytes) (rest : istream) :
  stream_read n stream = Ok (body, rest) ->
  (List.length rest <= List.length stream)%nat.
Proof.
  cbn [stream_read buffered_stream]. unfold buffered_read, short_read.
  destruct (Z.ltb n (-1)); [discriminate|].
  destruct (Z.eqb n (-1)); [intros [= _ <-]; simpl; lia|].
  destruct (Z.leb n _).
  - intros [= _ <-]. rewrite length_skipn. lia.
  - destruct (Z.ltb PY_SSIZE_T_MAX n); [discriminate|].
    destruct (refused n); [discriminate|].
    intros [= _ <-]. simpl. lia.
Qed.

Section Loop.
Context {memory : Memory}.
Variables HOST_ROOT CONTAINER_ROOT : str.
Variable json_dumps : json -> outcome str.
Variable json_loads : str -> outcome json.

(** A message read from a stream has taken at least one octet of it. *)
Lemma read_message_progress (stream : istream) :
  let '(message, rest, _) := read_message json_loads stream in
  (List.length rest <= List.length stream)%nat
  /\ (message <> JNull -> (List.length rest < List.length stream)%nat).
Proof.
  unfold read_message. cbn [unread buffered_stream].
  pose proof (read_headers_progress (S (List.length stream)) stream []
                (Nat.lt_succ_diag_r _)) as H.
  destruct (read_headers _ stream []) as [rest|headers rest|e rest|];
    try (split; [lia | congruence]).
  destruct (match dict_get headers CONTENT_LENGTH with
            | Some v => py_int v | None => Ok 0%Z end) as [n|e];
    [|split; [lia | congruence]].
  destruct (Z.eqb n 0); [split; [lia | congruence]|].
  pose proof (stream_read_length n rest) as Hr.
  destruct (stream_read n rest) as [[body rest']|e];
    [|split; [lia | congruence]].
  specialize (Hr body rest' eq_refl).
  destruct (negb _); [split; [lia | congruence]|].
  destruct (text <- utf8_decode body ;; json_loads text) as [m|[]];
    split; try lia; congruence.
Qed.

Ltac on_process_message tac :=
  match goal with
  | |- context [process_message ?h ?c ?m ?d] =>
      destruct (process_message h c m d) as [?msg|?e]; [|tac]
  end.

Ltac on_contains_id tac :=
  match goal with
  | |- context [contains_id ?m] =>
      destruct (contains_id m) as [[|]|?e]; try tac
  end.

(** A turn that goes on has read at least one octet of [stdin]. *)
Lemma iteration_progress (st : proxy) :
  match iteration HOST_ROOT CONTAINER_ROOT json_dumps json_loads st with
  | Continue st' =>
      (List.length (stdin st') < List.length (stdin st))%nat
      /\ running st' = running st
  | _ => True
  end.
Proof.
  unfold iteration.
  pose proof (read_message_progress (stdin st)) as Hp.
  destruct (read_message json_loads (stdin st)) as [[client_msg rest] recs].
  destruct Hp as [_ Hp].
  destruct client_msg; try exact I;
    (on_process_message ltac:(exact I);
     destruct (write_message _ _ _) as [pipe recs'];
     on_contains_id ltac:(exact I);
     [ destruct (read_message json_loads _) as [[resp rest'] recs''];
       destruct resp; try exact I;
       (on_process_message ltac:(exact I);
        destruct (write_message _ _ _) as [out recs3]; simpl;
        split; [apply Hp; discriminate | reflexivity])
     | simpl; split; [apply Hp; discriminate | reflexivity] ]).
Qed.

Lemma run_loop_terminates (fuel : nat) :
  forall st : proxy,
    (List.length (stdin st) < fuel)%nat ->
    exists st',
      run_loop HOST_ROOT CONTAINER_ROOT json_dumps json_loads fuel st
      = Some st'.
Proof.
  induction fuel as [|fuel IH]; intros st Hlen; [lia|].
  cbn [run_loop].
  destruct (running st); [|now eexists].
  pose proof (iteration_progress st) as Hp.
  destruct (iteration HOST_ROOT CONTAINER_ROOT json_dumps json_loads st)
    as [st'|st'|e st']; try (now eexists).
  apply IH. lia.
Qed.

(** The proxy always comes to its end, with [shutdown] done. *)
Lemma run_terminates (st : proxy) :
  exists st',
    run HOST_ROOT CONTAINER_ROOT json_dumps json_loads st
    = Some (shutdown st').
Proof.
  unfold run.
  destruct (run_loop_terminates (S (List.length (stdin st)))
              (log st [StartingLoop])) as [st' ->]; [simpl; lia|].
  now exists st'.
Qed.

Lemma write_message_closed (stream : ostream) (m : json) :
  writable stream = false ->
  exists e, write_message json_dumps stream m = (stream, [ErrorWriting e]).
Proof.
  intros Hw. unfold write_message.
  destruct (json_dumps m) as [content|e]; cbn [bind]; [|now exists e].
  destruct (utf8_encode content) as [content_bytes|e]; cbn [bind];
    [|now exists e].
  destruct (utf8_encode (header content_bytes)) as [header_bytes|e];
    cbn [bind]; [|now exists e].
  unfold stream_write. rewrite Hw. now exists OSError.
Qed.

(** C4 (as the code has it): an I/O error while writing is caught inside
    [write_message], which logs it and returns; the loop does not learn of
    it. Whether a turn goes on, breaks or raises, and what it leaves on the
    two input streams, is the same whatever the state of the two output
    streams. *)
Theorem write_error_absorbed :
  (forall (stream : ostream) (m : json),
      writable stream = false ->
      exists e,
        write_message json_dumps stream m = (stream, [ErrorWriting e]))
  /\ (forall (st : proxy) (pipe out : ostream),
         let turn :=
           iteration HOST_ROOT CONTAINER_ROOT json_dumps json_loads st in
         let turn' :=
           iteration HOST_ROOT CONTAINER_ROOT json_dumps json_loads
                     (set_stdout (set_child_stdin st pipe) out) in
         kind_of turn' = kind_of turn
         /\ stdin (state_of turn') = stdin (state_of turn)
         /\ child_stdout (state_of turn') = child_stdout (state_of turn)).
Proof.
  split; [exact write_message_closed|].
  intros st pipe out turn turn'.
  unfold turn, turn', iteration.
  cbn [stdin set_stdout set_child_stdin].
  destruct (read_message json_loads (stdin st)) as [[client_msg rest] recs].
  destruct client_msg; try (now repeat split);
    (on_process_message ltac:(now repeat split);
     cbn [child_stdin log set_stdin set_stdout set_child_stdin];
     destruct (write_message json_dumps pipe msg) as [p1 r1];
     destruct (write_message json_dumps (child_stdin st) msg) as [p2 r2];
     on_contains_id ltac:(now repeat split);
     cbn [child_stdout log set_stdin set_stdout set_child_stdin];
     destruct (read_message json_loads (child_stdout st))
       as [[resp rest'] recs''];
     destruct resp; try (now repeat split);
     (on_process_message ltac:(now repeat split);
      cbn [stdout log set_stdin set_stdout set_child_stdin set_child_stdout];
      match goal with
      | |- context [write_message json_dumps out ?r] =>
          destruct (write_message json_dumps out r);
          destruct (write_message json_dumps (stdout st) r)
      end;
      now repeat split)).
Qed.

(** One turn on a request whose response never comes. *)
Lemma iteration_child_eof (st s : proxy) (d : list (str * json)) :
  fst (fst (read_message json_loads (stdin st))) = JDict d ->
  existsb (str_eqb ID) (List.map fst d) = true ->
  fst (fst (read_message json_loads (child_stdout st))) = JNull ->
  stdin s = stdin st -> child_stdout s = child_stdout st ->
  child_calls s = child_calls st ->
  exists t : proxy,
    stdin t = snd (fst (read_message json_loads (stdin st)))
    /\ child_calls t = child_calls st
    /\ ((iteration HOST_ROOT CONTAINER_ROOT json_dumps json_loads s = Break t
         /\ In ServerDisconnected (logged t))
        \/ exists e,
            iteration HOST_ROOT CONTAINER_ROOT json_dumps json_loads s
            = Raised e t).
Proof.
  intros Hmsg Hid Heof Hs Hc Hcalls.
  unfold iteration. rewrite Hs.
  destruct (read_message json_loads (stdin st)) as [[client_msg rest] recs].
  simpl in Hmsg. subst client_msg.
  destruct (process_message HOST_ROOT CONTAINER_ROOT (JDict d) TO_CONTAINER)
    as [server_msg|e].
  - cbn [child_stdin log set_stdin].
    destruct (write_message json_dumps (child_stdin s) server_msg)
      as [pipe recs'].
    cbn [contains_id]. rewrite Hid.
    cbn [child_stdout log set_stdin set_child_stdin]. rewrite Hc.
    destruct (read_message json_loads (child_stdout st))
      as [[resp rest'] recs''].
    simpl in Heof. subst resp.
    eexists. split; [|split; [|left; split; [reflexivity|]]];
      try (simpl; auto; fail).
    simpl. rewrite !in_app_iff. right. now left.
  - eexists. split; [|split; [|right; exists e; reflexivity]]; simpl; auto.
Qed.

(** C9: when the client's message is a mapping with an [id] and reading
    the child's output yields no message (its stream has ended), the turn
    does not go on: the loop is left in that very turn, nothing more is
    read from the client, and [shutdown] puts [running] to false and
    terminates the child. *)
Theorem child_eof_stops_loop (st : proxy) (d : list (str * json)) :
  running st = true ->
  fst (fst (read_message json_loads (stdin st))) = JDict d ->
  existsb (str_eqb ID) (List.map fst d) = true ->
  fst (fst (read_message json_loads (child_stdout st))) = JNull ->
  kind_of (iteration HOST_ROOT CONTAINER_ROOT json_dumps json_loads st)
  <> Continues
  /\ exists final : proxy,
      run HOST_ROOT CONTAINER_ROOT json_dumps json_loads st = Some final
      /\ running final = false
      /\ stdin final = snd (fst (read_message json_loads (stdin st)))
      /\ (exists calls,
             child_calls final = child_calls st ++ Terminate :: calls)
      /\ (In ServerDisconnected (logged final)
          \/ exists e, In (UnexpectedError e) (logged final)).
Proof.
  intros Hrun Hmsg Hid Heof. split.
  - destruct (iteration_child_eof st st d Hmsg Hid Heof
                eq_refl eq_refl eq_refl)
      as (t & _ & _ & [[-> _]|[e ->]]); discriminate.
  - unfold run. cbn [run_loop running log]. rewrite Hrun.
    destruct (iteration_child_eof st (log st [StartingLoop]) d Hmsg Hid Heof
                eq_refl eq_refl eq_refl)
      as (t & Hin & Hcalls & [[-> Hlog]|[e ->]]).
    + eexists. split; [reflexivity|]. split; [reflexivity|].
      split; [exact Hin|]. split.
      * cbn [shutdown child_calls]. rewrite Hcalls.
        destruct (child_exits_in_time t); now eexists.
      * left. cbn [shutdown logged]. rewrite in_app_iff. now left.
    + eexists. split; [reflexivity|]. split; [reflexivity|].
      split; [exact Hin|]. split.
      * cbn [shutdown child_calls child_exits_in_time log]. rewrite Hcalls.
        destruct (child_exits_in_time t); now eexists.
      * right. exists e. cbn [shutdown logged log].
        rewrite !in_app_iff. left. right. now left.
Qed.

End Loop.

Section LoopExamples.
#[local] Existing Instance ample_memory.

Lemma write_error_absorbed_witness :
  exists e,
    write_message Json.dumps closed_stream hover_request
    = (closed_stream, [ErrorWriting e]).
Proof.
  apply (proj1 (write_error_absorbed DEFAULT_HOST_ROOT DEFAULT_CONTAINER_ROOT
                  Json.dumps Json.loads) closed_stream hover_request).
  reflexivity.
Defined.

(** C4, where it fails: with the pipe to the child closed, the turn that
    forwards a notification logs the write error and goes on; the loop
    reads the next message too and stops only when the client's stream
    ends. *)
Lemma write_error_does_not_stop_loop :
  let st := start (frame initialized_notification
                     ++ frame did_open_notification) closed_stream [] in
  kind_of (default_iteration st) = Continues
  /\ logged (state_of (default_iteration st)) = [ErrorWriting OSError]
  /\ exists final,
      default_run st = Some final
      /\ stdin final = []
      /\ logged final
         = [StartingLoop; ErrorWriting OSError; ErrorWriting OSError;
            ClientDisconnected; ShuttingDown; ShutdownComplete].
Proof.
  split; [vm_compute; reflexivity|]. split; [vm_compute; reflexivity|].
  eexists. split; [vm_compute; reflexivity|]. split; reflexivity.
Qed.

Lemma child_eof_stops_loop_witness :
  let st := start (frame hover_request_text ++ frame initialized_notification)
                  open_stream [] in
  kind_of (default_iteration st) <> Continues
  /\ exists final : proxy,
      default_run st = Some final
      /\ running final = false
      /\ stdin final = frame initialized_notification
      /\ (exists calls, child_calls final = [] ++ Terminate :: calls)
      /\ (In ServerDisconnected (logged final)
          \/ exists e, In (UnexpectedError e) (logged final)).
Proof.
  intros st.
  refine (child_eof_stops_loop DEFAULT_HOST_ROOT DEFAULT_CONTAINER_ROOT
            Json.dumps Json.loads st hover_request_items _ _ _ _);
    vm_compute; reflexivity.
Defined.

End LoopExamples.
(** * Further properties *)

(** ** Percent-encoding round trip *)

Lemma quote_byte_ok_all (b : N) : (b < 256)%N -> quote_byte_ok b = true.
Proof.
  intros Hb.
  assert (Hall : forallb quote_byte_ok (range 0 256) = true)
    by (vm_cast_no_check (eq_refl true)).
  apply (forallb_range _ _ _ Hall b). simpl. lia.
Qed.

Lemma unquote_tokens_quote_byte (b : N) (rest : str) :
  (b < 256)%N ->
  unquote_tokens (quote_byte b ++ rest) = inl b :: unquote_tokens rest.
Proof.
  intros Hb. pose proof (quote_byte_ok_all b Hb) as H.
  unfold quote_byte_ok in H.
  destruct (quote_byte b) as [|c [|h1 [|h2 [|]]]]; try discriminate.
  - apply andb_true_iff in H as [H Hc]. apply andb_true_iff in H as [Hp Ha].
    apply N.eqb_eq in Hc; subst c. apply negb_true_iff in Hp.
    cbn [app unquote_tokens]. now rewrite Hp, Ha.
  - apply andb_true_iff in H as [Hp H]. apply N.eqb_eq in Hp; subst c.
    cbn [app unquote_tokens]. change (N.eqb 0x25 0x25) with true. cbv iota.
    destruct (hex_val h1) as [x|]; [|discriminate].
    destruct (hex_val h2) as [y|]; [|discriminate].
    apply N.eqb_eq in H. now rewrite H.
Qed.

Lemma unquote_tokens_quote (bs : bytes) :
  forallb (fun b => N.ltb b 256) bs = true ->
  unquote_tokens (flat_map quote_byte bs) = List.map inl bs.
Proof.
  induction bs as [|b bs IH]; cbn [flat_map forallb List.map]; intros H;
    [reflexivity|].
  apply andb_true_iff in H as [Hb Hs]. apply N.ltb_lt in Hb.
  rewrite unquote_tokens_quote_byte by exact Hb. now rewrite IH.
Qed.

Lemma decode_tokens_octets (bs run : bytes) :
  decode_tokens (List.map inl bs) run = utf8_decode_replace (rev run ++ bs).
Proof.
  revert run; induction bs as [|b bs IH]; intros run; cbn [List.map decode_tokens].
  - now rewrite app_nil_r.
  - rewrite IH. cbn [rev]. now rewrite <- app_assoc.
Qed.

Lemma utf8_encode_char_octets (c : char) (bs : bytes) :
  utf8_encode_char c = Some bs -> forallb (fun b => N.ltb b 256) bs = true.
Proof.
  intros E. pose proof (encoding_ok_all c) as H.
  unfold encoding_ok in H. rewrite E in H.
  unfold lead2, lead3, lead4 in H.
  destruct bs as [|b0 [|b1 [|b2 [|b3 [|]]]]]; try discriminate;
    cbn [forallb];
    repeat match goal with
           | H : (_ && _) = true |- _ => apply andb_true_iff in H; destruct H
           | H : second_ok _ _ = true |- _ => apply second_ok_cont in H
           | H : is_cont _ = true |- _ => apply is_cont_range in H
           | H : N.leb _ _ = true |- _ => apply N.leb_le in H
           | H : N.ltb _ _ = true |- _ => apply N.ltb_lt in H
           end;
    repeat (apply andb_true_iff; split); try reflexivity;
    apply N.ltb_lt; simpl in *; lia.
Qed.

Lemma utf8_encode_octets (s : str) (bs : bytes) :
  utf8_encode s = Ok bs -> forallb (fun b => N.ltb b 256) bs = true.
Proof.
  revert bs; induction s as [|c s IH]; simpl; intros bs H.
  - now injection H as <-.
  - destruct (utf8_encode_char c) as [b|] eqn:Ec; [|discriminate].
    destruct (utf8_encode s) as [r|]; [|discriminate].
    simpl in H. injection H as <-.
    rewrite forallb_app, (utf8_encode_char_octets _ _ Ec). now rewrite (IH r).
Qed.

Lemma utf8_decode_replace_encode (s : str) (bs : bytes) :
  utf8_encode s = Ok bs -> utf8_decode_replace bs = s.
Proof.
  intros H. unfold utf8_decode_replace.
  rewrite (utf8_items_encode _ _ H), map_map. apply map_id.
Qed.

(** Without a percent sign in it, the quoted text is the octets
    themselves, all ASCII. *)
Lemma quote_no_percent (bs : bytes) :
  forallb (fun b => N.ltb b 256) bs = true ->
  contains 0x25%N (flat_map quote_byte bs) = false ->
  flat_map quote_byte bs = bs /\ is_ascii bs = true.
Proof.
  unfold contains.
  induction bs as [|b bs IH]; cbn [flat_map forallb]; intros Hb Hp;
    [split; reflexivity|].
  apply andb_true_iff in Hb as [Hb Hs]. apply N.ltb_lt in Hb.
  pose proof (quote_byte_ok_all b Hb) as H. unfold quote_byte_ok in H.
  rewrite existsb_app in Hp. apply orb_false_iff in Hp as [Hp1 Hp2].
  destruct (IH Hs Hp2) as [E A].
  destruct (quote_byte b) as [|c [|h1 [|h2 [|]]]]; try discriminate.
  - apply andb_true_iff in H as [H Hc]. apply andb_true_iff in H as [_ Ha].
    apply N.eqb_eq in Hc; subst c. cbn [app is_ascii forallb].
    rewrite E. split; [reflexivity|]. rewrite Ha. exact A.
  - apply andb_true_iff in H as [Hc _]. apply N.eqb_eq in Hc; subst c.
    cbn [existsb] in Hp1. discriminate.
Qed.

Lemma unquote_quote (s q : str) : quote s = Ok q -> unquote q = s.
Proof.
  unfold quote. intros H.
  destruct (utf8_encode s) as [bs|] eqn:E; [|discriminate].
  cbn [bind] in H. injection H as <-.
  pose proof (utf8_encode_octets _ _ E) as Hb.
  unfold unquote. destruct (contains _ _) eqn:Hp.
  - rewrite (unquote_tokens_quote _ Hb), decode_tokens_octets.
    apply (utf8_decode_replace_encode _ _ E).
  - destruct (quote_no_percent _ Hb Hp) as [-> Ha].
    rewrite <- (utf8_decode_replace_encode _ _ E).
    symmetry. now apply utf8_decode_replace_ascii.
Qed.

(** X1: decoding what [encode_uri_component] wrote gives the path back, for
    every path the encoder accepts (no lone surrogate). *)
Theorem decode_encode_uri_component (path : str) :
  encodable path = true ->
  (enc <- encode_uri_component path ;; Ok (decode_uri_component enc))
  = Ok path.
Proof.
  intros H. unfold encode_uri_component, decode_uri_component.
  destruct (quote_encodable _ H) as [q Hq]. rewrite Hq. cbn [bind].
  now rewrite (unquote_quote _ _ Hq).
Qed.

Lemma decode_encode_uri_component_witness :
  (enc <- encode_uri_component
            (lit "/work/host/my file%~" ++ [0xE9; 0x20AC; 0x1F600]%N) ;;
   Ok (decode_uri_component enc))
  = Ok (lit "/work/host/my file%~" ++ [0xE9; 0x20AC; 0x1F600]%N).
Proof.
  apply (decode_encode_uri_component
           (lit "/work/host/my file%~" ++ [0xE9; 0x20AC; 0x1F600]%N)).
  reflexivity.
Defined.

(** The path the [file://] case works on, for a URI written by the
    encoder. *)
Lemma file2_branch_canonical (path q from_prefix to_prefix : str) :
  quote path = Ok q ->
  file2_branch (FILE2 ++ q) from_prefix to_prefix
  = if startswith path from_prefix then
      enc <- encode_uri_component
               (to_prefix ++ skipn (List.length from_prefix) path) ;;
      Ok (FILE2 ++ enc)
    else Ok (FILE2 ++ q).
Proof.
  intros Hq. unfold file2_branch.
  change (skipn 7 (FILE2 ++ q)) with q.
  assert (E : (if contains PERCENT q then decode_uri_component q else q)
              = path).
  { pose proof (unquote_quote _ _ Hq) as Hu.
    unfold decode_uri_component.
    destruct (contains PERCENT q) eqn:Hc; [exact Hu|].
    unfold unquote in Hu. fold PERCENT in Hu. now rewrite Hc in Hu. }
  now rewrite E.
Qed.

(** X2: a [file://] URI written by the encoder for a path under
    [from_prefix] is rewritten to the URI the encoder writes for the same
    path under [to_prefix]. *)
Theorem rewrite_path_file_uri (rest from_prefix to_prefix : str) :
  encodable (from_prefix ++ rest) = true ->
  (enc <- encode_uri_component (from_prefix ++ rest) ;;
   rewrite_path (JStr (FILE2 ++ enc)) from_prefix to_prefix)
  = (enc' <- encode_uri_component (to_prefix ++ rest) ;;
     Ok (JStr (FILE2 ++ enc'))).
Proof.
  intros H. unfold encode_uri_component.
  destruct (quote_encodable _ H) as [q Hq]. rewrite Hq. cbn [bind].
  unfold rewrite_path, rewrite_path_str.
  rewrite startswith_app, (file2_branch_canonical _ _ _ _ Hq).
  rewrite startswith_app, skipn_length_app.
  unfold encode_uri_component. now destruct (quote (to_prefix ++ rest)).
Qed.

Lemma rewrite_path_file_uri_witness :
  (enc <- encode_uri_component (DEFAULT_HOST_ROOT ++ lit "/src/my file.py") ;;
   rewrite_path (JStr (FILE2 ++ enc)) DEFAULT_HOST_ROOT DEFAULT_CONTAINER_ROOT)
  = (enc' <- encode_uri_component
               (DEFAULT_CONTAINER_ROOT ++ lit "/src/my file.py") ;;
     Ok (JStr (FILE2 ++ enc'))).
Proof.
  apply (rewrite_path_file_uri (lit "/src/my file.py")). reflexivity.
Defined.

(** X3: rewriting such a URI to [to_prefix] and the result back to
    [from_prefix] returns the URI. *)
Theorem rewrite_path_file_uri_round_trip (rest from_prefix to_prefix : str) :
  encodable (from_prefix ++ rest) = true ->
  encodable to_prefix = true ->
  (enc <- encode_uri_component (from_prefix ++ rest) ;;
   there <- rewrite_path (JStr (FILE2 ++ enc)) from_prefix to_prefix ;;
   rewrite_path there to_prefix from_prefix)
  = (enc <- encode_uri_component (from_prefix ++ rest) ;;
     Ok (JStr (FILE2 ++ enc))).
Proof.
  intros Hf Ht.
  assert (Hto : encodable (to_prefix ++ rest) = true).
  { rewrite encodable_app in *. apply andb_true_iff in Hf as [_ Hr].
    now rewrite Ht, Hr. }
  unfold encode_uri_component.
  destruct (quote_encodable _ Hf) as [q Hq].
  destruct (quote_encodable _ Hto) as [q' Hq'].
  rewrite Hq. cbn [bind].
  assert (Hgo : forall a b x y,
             quote (a ++ rest) = Ok x -> quote (b ++ rest) = Ok y ->
             rewrite_path (JStr (FILE2 ++ x)) a b = Ok (JStr (FILE2 ++ y))).
  { intros a b x y Hx Hy. unfold rewrite_path, rewrite_path_str.
    rewrite startswith_app, (file2_branch_canonical _ _ _ _ Hx).
    rewrite startswith_app, skipn_length_app.
    unfold encode_uri_component. now rewrite Hy. }
  rewrite (Hgo _ _ _ _ Hq Hq'). cbn [bind].
  apply (Hgo _ _ _ _ Hq' Hq).
Qed.

Lemma rewrite_path_file_uri_round_trip_witness :
  (enc <- encode_uri_component (DEFAULT_HOST_ROOT ++ lit "/src/my file.py") ;;
   there <- rewrite_path (JStr (FILE2 ++ enc))
              DEFAULT_HOST_ROOT DEFAULT_CONTAINER_ROOT ;;
   rewrite_path there DEFAULT_CONTAINER_ROOT DEFAULT_HOST_ROOT)
  = (enc <- encode_uri_component (DEFAULT_HOST_ROOT ++ lit "/src/my file.py") ;;
     Ok (JStr (FILE2 ++ enc))).
Proof.
  apply (rewrite_path_file_uri_round_trip (lit "/src/my file.py"));
    reflexivity.
Defined.

(** ** rewrite_object as a map over string values *)

Lemma rewrite_path_str_fallback (s from_prefix to_prefix : str) :
  rewrite_object (JStr s) from_prefix to_prefix
  = (r <- rewrite_path_str s from_prefix to_prefix ;; Ok (JStr r)).
Proof.
  cbn [rewrite_object].
  destruct (startswith s from_prefix) eqn:Hf; [reflexivity|].
  destruct (startswith s FILE2) eqn:H2; [reflexivity|].
  cbn [orb]. now rewrite (rewrite_path_str_other _ _ to_prefix H2 Hf).
Qed.

Lemma mapM_ext_Forall {A B} (f g : A -> outcome B) (l : list A) :
  Forall (fun x => f x = g x) l -> mapM f l = mapM g l.
Proof.
  intros H. apply mapM_ext_in. now apply Forall_forall.
Qed.

Lemma rewrite_object_as_map (from_prefix to_prefix : str) (m : json) :
  json_wf m = true ->
  rewrite_object m from_prefix to_prefix
  = map_strings (fun s => rewrite_path_str s from_prefix to_prefix) m.
Proof.
  set (f := fun s => rewrite_path_str s from_prefix to_prefix).
  pose (P := fun x => json_wf x = true ->
                      rewrite_object x from_prefix to_prefix
                      = map_strings f x).
  enough (H : P m /\ (forall l, m = JList l -> Forall P l)) by apply H.
  induction m as [| | | |s|l IH|d IH] using json_ind;
    (split; [intros Hwf | try discriminate]); try reflexivity.
  - apply rewrite_path_str_fallback.
  - rewrite rewrite_object_list. cbn [map_strings].
    apply json_wf_list in Hwf.
    rewrite (mapM_ext_Forall _ (map_strings f)); [reflexivity|].
    rewrite Forall_forall in *. intros x Hx.
    now apply (IH x Hx), Hwf.
  - intros l0 [= <-]. rewrite Forall_forall in *.
    intros x Hx. apply (IH x Hx).
  - rewrite rewrite_object_dict. cbn [map_strings].
    apply json_wf_dict in Hwf as [Hnd Hwf].
    rewrite rewrite_items_map by exact Hnd. cbn [app].
    rewrite (mapM_ext_Forall _
               (fun kv => v <- map_strings f (snd kv) ;; Ok (fst kv, v)));
      [reflexivity|].
    rewrite Forall_forall in *. intros [k v] Hin.
    specialize (IH _ Hin). specialize (Hwf _ Hin).
    cbn [fst snd] in *. destruct IH as [IHv IHl].
    assert (Hv : rewrite_value k v from_prefix to_prefix = map_strings f v);
      [|now rewrite Hv].
    unfold rewrite_value.
    destruct (in_path_keys k).
    + destruct v; try (now apply IHv); [reflexivity|].
      cbn [map_strings].
      apply json_wf_list in Hwf. specialize (IHl _ eq_refl).
      rewrite (mapM_ext_Forall _ (map_strings f)); [reflexivity|].
      rewrite Forall_forall in *. intros x Hx.
      specialize (IHl x Hx (Hwf x Hx)).
      destruct x; try exact IHl. reflexivity.
    + destruct (_ && _); [|now apply IHv].
      destruct v; now apply IHv.
Qed.

Lemma mapM_length {A B} (f : A -> outcome B) (l : list A) (l' : list B) :
  mapM f l = Ok l' -> List.length l' = List.length l.
Proof.
  revert l'; induction l as [|x l IH]; simpl; intros l' H.
  - now injection H as <-.
  - destruct (f x); [|discriminate]. destruct (mapM f l); [|discriminate].
    simpl in H. injection H as <-. simpl. f_equal. now apply IH.
Qed.

(** What [mapM] returns, element by element. *)
Lemma mapM_Forall2 {A B} (f : A -> outcome B) (l : list A) (l' : list B) :
  mapM f l = Ok l' -> Forall2 (fun x y => f x = Ok y) l l'.
Proof.
  revert l'; induction l as [|x l IH]; simpl; intros l' H.
  - injection H as <-. constructor.
  - destruct (f x) eqn:Ex; [|discriminate].
    destruct (mapM f l); [|discriminate].
    simpl in H. injection H as <-. constructor; auto.
Qed.

Lemma map_strings_skeleton (f : str -> outcome str) (m : json) :
  forall m', map_strings f m = Ok m' -> skeleton m' = skeleton m.
Proof.
  induction m as [| | | |s|l IH|d IH] using json_ind; intros m' H;
    cbn [map_strings] in H; try (injection H as <-; reflexivity).
  - destruct (f s); [|discriminate]. now injection H as <-.
  - destruct (mapM _ l) as [l'|] eqn:El; [|discriminate].
    cbn [bind] in H. injection H as <-. cbn [skeleton]. f_equal.
    apply mapM_Forall2 in El.
    induction El as [|x y l l' Hxy _ IHl]; [reflexivity|].
    inversion IH; subst. cbn [List.map]. f_equal; auto.
  - destruct (mapM _ d) as [d'|] eqn:Ed; [|discriminate].
    cbn [bind] in H. injection H as <-. cbn [skeleton]. f_equal.
    apply mapM_Forall2 in Ed.
    induction Ed as [|[k v] [k' v'] d d' Hxy _ IHd]; [reflexivity|].
    inversion IH; subst. cbn [List.map fst snd] in *.
    destruct (map_strings f v) as [w|] eqn:Ev; [|discriminate].
    cbn [bind] in Hxy. injection Hxy as <- <-.
    f_equal; [f_equal|]; auto.
Qed.

Lemma skeleton_wf (m : json) :
  forall m', skeleton m' = skeleton m -> json_wf m = true -> json_wf m' = true.
Proof.
  induction m as [| | | |s|l IH|d IH] using json_ind; intros m' H Hwf;
    destruct m'; cbn [skeleton] in H; try discriminate; try reflexivity.
  - injection H as H. apply json_wf_list in Hwf. apply json_wf_list.
    revert l0 H. induction l as [|x l IHl]; intros [|y l0] H;
      try discriminate; constructor.
    + inversion IH; inversion Hwf; subst. injection H as Hx _. eauto.
    + inversion IH; inversion Hwf; subst. injection H as _ Hl. eauto.
  - injection H as H. apply json_wf_dict in Hwf as [Hnd Hwf].
    apply json_wf_dict. split.
    + assert (E : List.map fst d0 = List.map fst d).
      { apply (f_equal (List.map fst)) in H. rewrite !map_map in H.
        exact H. }
      now rewrite E.
    + clear Hnd. revert d0 H.
      induction d as [|[k v] d IHd]; intros [|[k' v'] d0] H;
        try discriminate; constructor.
      * inversion IH; inversion Hwf; subst. injection H as _ Hv _.
        cbn [snd] in *. eauto.
      * inversion IH; inversion Hwf; subst. injection H as _ _ Hd. eauto.
Qed.




(** X5: the case for the key [workspaceFolders] at line 152 is never
    entered, that key being a known path key: the loop body is the one
    without that case. *)
Theorem workspace_folders_case_unreachable :
  (forall key : str,
      str_eqb key WORKSPACE_FOLDERS = true -> in_path_keys key = true)
  /\ (forall (key : str) (value : json) (from_prefix to_prefix : str),
         rewrite_value key value from_prefix to_prefix
         = rewrite_value_no_workspace key value from_prefix to_prefix).
Proof.
  assert (H : forall key,
             str_eqb key WORKSPACE_FOLDERS = true -> in_path_keys key = true).
  { intros key E. apply str_eqb_eq in E. subst key. reflexivity. }
  split; [exact H|].
  intros key value from_prefix to_prefix.
  unfold rewrite_value, rewrite_value_no_workspace.
  destruct (in_path_keys key) eqn:Ek; [reflexivity|].
  destruct (str_eqb key WORKSPACE_FOLDERS) eqn:Ew; [|reflexivity].
  rewrite (H key Ew) in Ek. discriminate.
Qed.

Lemma workspace_folders_case_unreachable_witness :
  in_path_keys WORKSPACE_FOLDERS = true.
Proof.
  apply (proj1 workspace_folders_case_unreachable WORKSPACE_FOLDERS).
  reflexivity.
Defined.

(** X6: rewriting changes the text of string values and nothing else: the
    result has the keys of the message in their order, lists of the same
    length, and the same numbers, booleans and nulls at the same places;
    its dicts have distinct keys again. *)
Theorem rewrite_object_keeps_skeleton (m m' : json)
  (from_prefix to_prefix : str) :
  json_wf m = true ->
  rewrite_object m from_prefix to_prefix = Ok m' ->
  skeleton m' = skeleton m /\ json_wf m' = true.
Proof.
  intros Hwf H. rewrite rewrite_object_as_map in H by exact Hwf.
  pose proof (map_strings_skeleton _ _ _ H) as Hs.
  split; [exact Hs|]. exact (skeleton_wf m m' Hs Hwf).
Qed.

Lemma rewrite_object_keeps_skeleton_witness :
  skeleton
    (JDict [(lit "uri", JStr (lit "file:///work/container/x.py"));
            (lit "otherField", JInt 42)])
  = skeleton
      (JDict [(lit "uri", JStr (lit "file:///work/host/x.py"));
              (lit "otherField", JInt 42)])
  /\ json_wf
       (JDict [(lit "uri", JStr (lit "file:///work/container/x.py"));
               (lit "otherField", JInt 42)]) = true.
Proof.
  apply (rewrite_object_keeps_skeleton
           (JDict [(lit "uri", JStr (lit "file:///work/host/x.py"));
                   (lit "otherField", JInt 42)])
           _ DEFAULT_HOST_ROOT DEFAULT_CONTAINER_ROOT); reflexivity.
Defined.






(** ** What a rewritten message is made of *)









(** ** Header blocks *)

Lemma dict_get_set {V} (d : list (str * V)) (k k' : str) (v : V) :
  dict_get (dict_set d k v) k'
  = if str_eqb k k' then Some v else dict_get d k'.
Proof.
  induction d as [|[k0 w] d IH]; cbn [dict_set dict_get].
  - destruct (str_eqb k k'); reflexivity.
  - destruct (str_eqb k0 k) eqn:E0; cbn [dict_get].
    + apply str_eqb_eq in E0. subst k0.
      destruct (str_eqb k k'); reflexivity.
    + rewrite IH. destruct (str_eqb k0 k') eqn:E1; [|reflexivity].
      apply str_eqb_eq in E1. subst k0.
      destruct (str_eqb k k') eqn:E2; [|reflexivity].
      apply str_eqb_eq in E2. subst k'.
      rewrite str_eqb_refl in E0. discriminate.
Qed.

Lemma lstrip_all_spaces (space : char -> bool) (s : str) :
  forallb space s = true -> lstrip_with space s = [].
Proof.
  intros H. rewrite <- (app_nil_r s). now rewrite lstrip_spaces.
Qed.

Lemma lstrip_app (space : char -> bool) (s post : str) :
  lstrip_with space s <> [] ->
  lstrip_with space (s ++ post) = lstrip_with space s ++ post.
Proof.
  induction s as [|c s IH]; cbn [lstrip_with app]; intros H;
    [contradiction|].
  destruct (space c); [now apply IH | reflexivity].
Qed.

Lemma lstrip_forallb (space : char -> bool) (s : str) :
  lstrip_with space s = [] -> forallb space s = true.
Proof.
  induction s as [|c s IH]; cbn [lstrip_with forallb]; intros H;
    [reflexivity|].
  destruct (space c); [now apply IH | discriminate].
Qed.

(** White space after a text does not change what stripping leaves. *)
Lemma strip_with_trailing (space : char -> bool) (s post : str) :
  forallb space post = true ->
  strip_with space (s ++ post) = strip_with space s.
Proof.
  intros Hpost. unfold strip_with.
  destruct (lstrip_with space s) as [|c t] eqn:E.
  - pose proof (lstrip_forallb _ _ E) as Hs.
    rewrite (lstrip_all_spaces space (s ++ post)); [reflexivity|].
    now rewrite forallb_app, Hs, Hpost.
  - rewrite lstrip_app by (rewrite E; discriminate).
    rewrite E, rev_app_distr.
    now rewrite lstrip_spaces by (now apply forallb_rev_true).
Qed.

Lemma split_colon_line (name rest : str) :
  contains 0x3A%N name = false ->
  split_colon (name ++ 0x3A%N :: rest) = Some (name, rest).
Proof.
  unfold contains.
  induction name as [|c name IH]; cbn [existsb app split_colon]; intros H;
    [reflexivity|].
  apply orb_false_iff in H as [Hc Hn].
  rewrite N.eqb_sym in Hc. now rewrite Hc, (IH Hn).
Qed.

Section HeaderBlocks.
Context {memory : Memory}.

Lemma read_headers_line (fuel : nat) (h : str * str) (tail : istream)
  (headers : list (str * str)) :
  simple_header h = true ->
  read_headers (S fuel) (header_line (fst h) (snd h) ++ tail) headers
  = read_headers fuel tail
      (dict_set headers (lower (strip (fst h))) (strip (snd h))).
Proof.
  destruct h as [name value]. cbn [fst snd]. unfold simple_header.
  cbn [fst snd]. intros H.
  repeat match goal with
         | H : (_ && _) = true |- _ => apply andb_true_iff in H; destruct H
         | H : negb _ = true |- _ => apply negb_true_iff in H
         end.
  set (line := name ++ 0x3A%N :: value ++ [0x0D%N]).
  assert (Hline : header_line name value ++ tail = line ++ 0x0A%N :: tail).
  { unfold header_line, line, CRLF.
    rewrite <- !app_assoc. cbn [app]. rewrite <- !app_assoc. reflexivity. }
  assert (Hnl : contains 0x0A%N line = false).
  { unfold line. rewrite contains_app.
    change (contains 0x0A%N (0x3A%N :: value ++ [0x0D%N]))
      with (contains 0x0A%N (value ++ [0x0D%N])).
    rewrite contains_app.
    match goal with
    | H1 : contains 0x0A%N name = false,
      H2 : contains 0x0A%N value = false |- _ => now rewrite H1, H2
    end. }
  assert (Hfull : line ++ [0x0A%N] = name ++ 0x3A%N :: value ++ CRLF).
  { unfold line, CRLF. rewrite <- !app_assoc. cbn [app].
    rewrite <- !app_assoc. reflexivity. }
  assert (Hascii : is_ascii (line ++ [0x0A%N]) = true).
  { rewrite Hfull, is_ascii_app.
    change (is_ascii (0x3A%N :: value ++ CRLF))
      with (is_ascii (value ++ CRLF)).
    rewrite is_ascii_app.
    match goal with
    | H1 : is_ascii name = true, H2 : is_ascii value = true |- _ =>
        now rewrite H1, H2
    end. }
  assert (Hcolon : contains 0x3A%N (line ++ [0x0A%N]) = true).
  { rewrite Hfull, contains_app. unfold contains at 2. cbn [existsb].
    change (N.eqb 0x3A 0x3A) with true. cbn [orb].
    apply orb_true_r. }
  assert (Hcrlf : bytes_eqb (line ++ [0x0A%N]) CRLF = false).
  { destruct (bytes_eqb (line ++ [0x0A%N]) CRLF) eqn:E; [|reflexivity].
    apply bytes_eqb_eq in E. rewrite E in Hcolon. discriminate. }
  assert (Hshape : exists c l', line ++ [0x0A%N] = c :: l').
  { destruct (line ++ [0x0A%N]) as [|c l'] eqn:E; [|now eexists; eexists].
    destruct line; discriminate. }
  assert (Hsplit : split_colon (line ++ [0x0A%N])
                   = Some (name, value ++ CRLF)).
  { rewrite Hfull. apply split_colon_line. assumption. }
  assert (Hvalue : strip (value ++ CRLF) = strip value)
    by (now apply strip_with_trailing).
  rewrite Hline. clear Hline Hfull.
  cbn [read_headers stream_readline buffered_stream]. rewrite (readline_line _ _ Hnl). cbv beta iota.
  unfold istream, bytes, str, char in *.
  revert Hascii Hcolon Hcrlf Hshape Hsplit.
  generalize (line ++ [0x0A%N]).
  intros full Hascii Hcolon Hcrlf (c & l' & ->) Hsplit.
  rewrite Hcrlf, Hcolon.
  rewrite (utf8_decode_replace_ascii _ Hascii), Hsplit, Hvalue.
  reflexivity.
Qed.

Lemma read_headers_block (hs : list (str * str)) :
  forall (fuel : nat) (tail : istream) (headers : list (str * str)),
    forallb simple_header hs = true ->
    (List.length hs < fuel)%nat ->
    read_headers fuel (header_block hs ++ CRLF ++ tail) headers
    = HeadersDone
        (fold_left (fun d h => dict_set d (lower (strip (fst h)))
                                          (strip (snd h))) hs headers)
        tail.
Proof.
  induction hs as [|h hs IH]; intros fuel tail headers Hs Hf.
  - destruct fuel; [simpl in Hf; lia|]. apply read_headers_blank.
  - cbn [forallb] in Hs. apply andb_true_iff in Hs as [Hh Hs].
    destruct fuel; [simpl in Hf; lia|].
    unfold header_block. cbn [flat_map]. rewrite <- app_assoc.
    fold (header_block hs).
    rewrite read_headers_line by exact Hh.
    cbn [fold_left]. apply IH; [exact Hs | simpl in Hf; lia].
Qed.

Lemma dict_get_headers (key : str) (hs : list (str * str)) :
  forall headers : list (str * str),
    dict_get (fold_left (fun d h => dict_set d (lower (strip (fst h)))
                                               (strip (snd h))) hs headers)
             key
    = last_header key hs (dict_get headers key).
Proof.
  unfold last_header.
  induction hs as [|h hs IH]; intros headers; cbn [fold_left];
    [reflexivity|].
  rewrite IH, dict_get_set. reflexivity.
Qed.

Lemma header_block_length (hs : list (str * str)) :
  (List.length hs <= List.length (header_block hs))%nat.
Proof.
  induction hs as [|h hs IH]; [simpl; lia|].
  unfold header_block in *. cbn [flat_map]. unfold header_line at 1.
  rewrite !length_app. cbn [List.length]. rewrite !length_app. simpl. lia.
Qed.

(** X9: the header block may hold any simple headers, in any order and in
    any case of letters: the length read is the trimmed value of the last
    header whose name, trimmed and in lower case, is [content-length];
    the other headers are passed over. *)
Theorem read_message_header_block (json_loads : str -> outcome json)
  (hs : list (str * str)) (v text : str) (body : bytes) (m : json)
  (rest : istream) :
  forallb simple_header hs = true ->
  last_header CONTENT_LENGTH hs None = Some v ->
  py_int v = Ok (Z.of_nat (List.length body)) ->
  (0 < List.length body)%nat ->
  utf8_decode body = Ok text ->
  json_loads text = Ok m ->
  read_message json_loads (header_block hs ++ CRLF ++ body ++ rest)
  = (m, rest, []).
Proof.
  intros Hs Hlast Hint Hlen Hdec Hl. unfold read_message.
  cbn [unread buffered_stream].
  rewrite read_headers_block; [|exact Hs|].
  - rewrite (dict_get_headers CONTENT_LENGTH hs []). cbn [dict_get].
    rewrite Hlast, Hint.
    assert (E0 : Z.eqb (Z.of_nat (List.length body)) 0 = false)
      by (apply Z.eqb_neq; lia).
    rewrite E0, stream_read_exact, Z.eqb_refl. cbn [negb].
    rewrite Hdec. cbn [bind]. now rewrite Hl.
  - pose proof (header_block_length hs). rewrite length_app. lia.
Qed.

End HeaderBlocks.

Section HeaderBlockExamples.
#[local] Existing Instance ample_memory.

Lemma read_message_header_block_witness :
  read_message Json.loads
    (header_block
       [(lit "Content-Length", lit " 999");
        (lit "Content-Type", lit " application/vscode-jsonrpc; charset=utf-8");
        (lit " CONTENT-length ", lit "  9 ")]
       ++ CRLF ++ qlit "{'id': 1}" ++ lit "Content-")
  = (JDict [(lit "id", JInt 1)], lit "Content-", []).
Proof.
  apply (read_message_header_block Json.loads
           [(lit "Content-Length", lit " 999");
            (lit "Content-Type",
             lit " application/vscode-jsonrpc; charset=utf-8");
            (lit " CONTENT-length ", lit "  9 ")]
           (lit "9") (qlit "{'id': 1}") (qlit "{'id': 1}"));
    try reflexivity.
  simpl. lia.
Defined.

End HeaderBlockExamples.

(** ** Header lines never fail *)

Section HeaderLines.
Context {memory : Memory}.

(** X10: the header loop raises on no input. A line that holds a colon
    still holds one after it is decoded with [errors='replace'], so that
    the split at line 238 always gives the two parts the assignment
    unpacks; whatever octets arrive, the loop ends with the end of the
    stream or with the blank line. *)
Theorem read_headers_never_raises (fuel : nat) :
  forall (stream : istream) (headers : list (str * str)) (e : exn)
         (rest : istream),
    read_headers fuel stream headers <> HeadersRaise e rest.
Proof.
  induction fuel as [|fuel IH]; intros stream headers e rest;
    [discriminate|].
  cbn [read_headers stream_readline buffered_stream].
  destruct (readline stream) as [line rest'].
  destruct line as [|b line]; [discriminate|].
  destruct (bytes_eqb (b :: line) CRLF); [discriminate|].
  destruct (contains 0x3A%N (b :: line)) eqn:Hc; [|apply IH].
  destruct (split_colon_some _
              (utf8_decode_replace_colon _ _ (Nat.le_refl _) Hc))
    as (key & value & ->).
  apply IH.
Qed.

End HeaderLines.

(** ** The loop as a whole *)

Lemma readline_app (stream : istream) :
  stream = fst (readline stream) ++ snd (readline stream).
Proof.
  induction stream as [|b r IH]; [reflexivity|].
  cbn [readline]. destruct (N.eqb b 0x0A); [reflexivity|].
  destruct (readline r) as [line rest]. cbn [fst snd] in *.
  cbn [app]. now f_equal.
Qed.

Section Suffixes.
Context {memory : Memory}.

Lemma read_headers_suffix (fuel : nat) :
  forall (stream : istream) (headers : list (str * str)),
    match read_headers fuel stream headers with
    | HeadersEof rest | HeadersDone _ rest | HeadersRaise _ rest =>
        exists consumed, stream = consumed ++ rest
    | HeadersFuel => True
    end.
Proof.
  induction fuel as [|fuel IH]; intros stream headers; [exact I|].
  cbn [read_headers stream_readline buffered_stream].
  pose proof (readline_app stream) as Happ.
  destruct (readline stream) as [line rest]. cbn [fst snd] in Happ.
  destruct line as [|b line]; [now exists []|].
  destruct (bytes_eqb (b :: line) CRLF); [now exists (b :: line)|].
  assert (Hstep : forall h,
             match read_headers fuel rest h with
             | HeadersEof rest' | HeadersDone _ rest'
             | HeadersRaise _ rest' =>
                 exists consumed, stream = consumed ++ rest'
             | HeadersFuel => True
             end).
  { intros h. specialize (IH rest h).
    destruct (read_headers fuel rest h); try exact I;
      destruct IH as [c Hc]; exists ((b :: line) ++ c);
      rewrite <- app_assoc, <- Hc; exact Happ. }
  destruct (contains 0x3A%N (b :: line)); [|apply Hstep].
  destruct (split_colon _) as [[key value]|]; [apply Hstep|].
  now exists (b :: line).
Qed.

(** [read_message] leaves a suffix of the stream. *)
Lemma read_message_suffix (json_loads : str -> outcome json)
  (stream : istream) :
  exists consumed,
    stream = consumed ++ snd (fst (read_message json_loads stream)).
Proof.
  unfold read_message. cbn [unread buffered_stream].
  pose proof (read_headers_suffix (S (List.length stream)) stream [])
    as H.
  destruct (read_headers _ stream []) as [rest|headers rest|e rest|];
    try exact H; [|now exists []].
  destruct (match dict_get headers CONTENT_LENGTH with
            | Some v => py_int v | None => Ok 0%Z end) as [n|e];
    [|exact H].
  destruct (Z.eqb n 0); [exact H|].
  pose proof (stream_read_app n rest) as Hr.
  destruct (stream_read n rest) as [[body rest']|e]; [|exact H].
  specialize (Hr body rest' eq_refl).
  destruct H as [c Hc].
  assert (Hall : exists consumed, stream = consumed ++ rest').
  { exists (c ++ body). rewrite <- app_assoc, <- Hr. exact Hc. }
  destruct (negb _); [exact Hall|].
  destruct (text <- utf8_decode body ;; json_loads text) as [m|[]];
    exact Hall.
Qed.

(** On the child's pipe too, and the pipe delivers as before. *)
Lemma read_message_raw_suffix (json_loads : str -> outcome json)
  (stream : raw_stream) :
  (exists consumed,
      arriving stream
      = consumed ++ arriving (snd (fst (read_message json_loads stream))))
  /\ ready (snd (fst (read_message json_loads stream))) = ready stream.
Proof.
  unfold read_message. cbn [unread raw_pipe].
  rewrite read_headers_raw.
  pose proof (read_headers_suffix (S (List.length (arriving stream)))
                (arriving stream) []) as H.
  destruct (read_headers _ (arriving stream) [])
    as [rest|headers rest|e rest|]; cbn [on_raw fst snd raw_after arriving
                                         ready];
    try (split; [exact H | reflexivity]);
    [|split; [now exists [] | reflexivity]].
  destruct (match dict_get headers CONTENT_LENGTH with
            | Some v => py_int v | None => Ok 0%Z end) as [n|e];
    cbn [fst snd raw_after arriving ready];
    [|split; [exact H | reflexivity]].
  destruct (Z.eqb n 0); cbn [fst snd raw_after arriving ready];
    [split; [exact H | reflexivity]|].
  pose proof (raw_read_app n (raw_after stream rest)) as Hr.
  destruct (stream_read n (raw_after stream rest)) as [[body rest']|e];
    cbn [fst snd raw_after arriving ready];
    [|split; [exact H | reflexivity]].
  destruct (Hr body rest' eq_refl) as [Ha Hp].
  cbn [raw_after arriving ready] in Ha, Hp.
  destruct H as [c Hc].
  assert (Hall : (exists consumed,
                     arriving stream = consumed ++ arriving rest')
                 /\ ready rest' = ready stream).
  { split; [|exact Hp]. exists (c ++ body).
    rewrite <- app_assoc, <- Ha. exact Hc. }
  destruct (negb _); [exact Hall|].
  destruct (text <- utf8_decode body ;; json_loads text) as [m|[]];
    exact Hall.
Qed.

End Suffixes.

(** [write_message] only adds to what the stream holds. *)
Lemma write_message_extends (json_dumps : json -> outcome str)
  (stream : ostream) (m : json) :
  exists data,
    written (fst (write_message json_dumps stream m))
    = written stream ++ data.
Proof.
  unfold write_message.
  destruct (content <- json_dumps m ;; _) as [[header_bytes content_bytes]|e];
    [|exists []; cbn; now rewrite app_nil_r].
  unfold stream_write, stream_flush.
  destruct (writable stream); [|exists []; cbn; now rewrite app_nil_r].
  cbn. eexists. rewrite <- app_assoc. reflexivity.
Qed.

Lemma grows_refl (st : proxy) : grows st st.
Proof.
  unfold grows. repeat split; try (exists []; now rewrite ?app_nil_r).
Qed.

Lemma grows_trans (a b c : proxy) : grows a b -> grows b c -> grows a c.
Proof.
  unfold grows.
  intros (R1 & E1 & C1 & [i1 I1] & [o1 O1] & Y1 & [w1 W1] & [p1 P1]
          & [l1 L1])
         (R2 & E2 & C2 & [i2 I2] & [o2 O2] & Y2 & [w2 W2] & [p2 P2]
          & [l2 L2]).
  repeat split; try congruence.
  - exists (i1 ++ i2). rewrite <- app_assoc. congruence.
  - exists (o1 ++ o2). rewrite <- app_assoc. congruence.
  - exists (w1 ++ w2). rewrite app_assoc. congruence.
  - exists (p1 ++ p2). rewrite app_assoc. congruence.
  - exists (l1 ++ l2). rewrite app_assoc. congruence.
Qed.

Lemma grows_log (st : proxy) (records : list log_record) :
  grows st (log st records).
Proof.
  unfold grows. cbn.
  repeat split; try (exists []; now rewrite ?app_nil_r).
  now exists records.
Qed.

Lemma grows_set_stdin (st : proxy) (rest : istream) :
  (exists consumed, stdin st = consumed ++ rest) ->
  grows st (set_stdin st rest).
Proof.
  intros H. unfold grows. cbn.
  repeat split; try exact H; try (exists []; now rewrite ?app_nil_r).
Qed.

Lemma grows_set_child_stdout (st : proxy) (rest : raw_stream) :
  (exists consumed, arriving (child_stdout st) = consumed ++ arriving rest)
  /\ ready rest = ready (child_stdout st) ->
  grows st (set_child_stdout st rest).
Proof.
  intros [H Hp]. unfold grows. cbn.
  repeat split; try exact H; try exact Hp;
    try (exists []; now rewrite ?app_nil_r).
Qed.

Lemma grows_set_stdout (st : proxy) (out : ostream) :
  (exists data, written out = written (stdout st) ++ data) ->
  grows st (set_stdout st out).
Proof.
  intros H. unfold grows. cbn.
  repeat split; try exact H; try (exists []; now rewrite ?app_nil_r).
Qed.

Lemma grows_set_child_stdin (st : proxy) (pipe : ostream) :
  (exists data, written pipe = written (child_stdin st) ++ data) ->
  grows st (set_child_stdin st pipe).
Proof.
  intros H. unfold grows. cbn.
  repeat split; try exact H; try (exists []; now rewrite ?app_nil_r).
Qed.

Section SessionFacts.
Context {memory : Memory}.
Variables HOST_ROOT CONTAINER_ROOT : str.
Variable json_dumps : json -> outcome str.
Variable json_loads : str -> outcome json.

Lemma grows_read_stdin (st : proxy) :
  grows st
    (log (set_stdin st (snd (fst (read_message json_loads (stdin st)))))
         (snd (read_message json_loads (stdin st)))).
Proof.
  eapply grows_trans; [|apply grows_log].
  apply grows_set_stdin, read_message_suffix.
Qed.

Lemma grows_read_child (st : proxy) :
  grows st
    (log (set_child_stdout st
            (snd (fst (read_message json_loads (child_stdout st)))))
         (snd (read_message json_loads (child_stdout st)))).
Proof.
  eapply grows_trans; [|apply grows_log].
  apply grows_set_child_stdout, read_message_raw_suffix.
Qed.

Lemma grows_write_child (st : proxy) (m : json) :
  grows st
    (log (set_child_stdin st
            (fst (write_message json_dumps (child_stdin st) m)))
         (snd (write_message json_dumps (child_stdin st) m))).
Proof.
  eapply grows_trans; [|apply grows_log].
  apply grows_set_child_stdin, write_message_extends.
Qed.

Lemma grows_write_stdout (st : proxy) (m : json) :
  grows st
    (log (set_stdout st (fst (write_message json_dumps (stdout st) m)))
         (snd (write_message json_dumps (stdout st) m))).
Proof.
  eapply grows_trans; [|apply grows_log].
  apply grows_set_stdout, write_message_extends.
Qed.

(** One turn of the loop, as the steps it is made of. *)
Lemma iteration_steps (st : proxy) :
  let st1 :=
    log (set_stdin st (snd (fst (read_message json_loads (stdin st)))))
        (snd (read_message json_loads (stdin st))) in
  let client_msg := fst (fst (read_message json_loads (stdin st))) in
  iteration HOST_ROOT CONTAINER_ROOT json_dumps json_loads st
  = match client_msg with
    | JNull => Break (log st1 [ClientDisconnected])
    | _ =>
        match process_message HOST_ROOT CONTAINER_ROOT client_msg
                              TO_CONTAINER with
        | Raise e => Raised e st1
        | Ok server_msg =>
            let st2 :=
              log (set_child_stdin st1
                     (fst (write_message json_dumps (child_stdin st1)
                                         server_msg)))
                  (snd (write_message json_dumps (child_stdin st1)
                                      server_msg)) in
            match contains_id client_msg with
            | Raise e => Raised e st2
            | Ok false => Continue st2
            | Ok true =>
                let st3 :=
                  log (set_child_stdout st2
                         (snd (fst (read_message json_loads
                                                 (child_stdout st2)))))
                      (snd (read_message json_loads (child_stdout st2))) in
                match fst (fst (read_message json_loads
                                             (child_stdout st2))) with
                | JNull => Break (log st3 [ServerDisconnected])
                | server_response =>
                    match process_message HOST_ROOT CONTAINER_ROOT
                                          server_response TO_HOST with
                    | Raise e => Raised e st3
                    | Ok client_response =>
                        Continue
                          (log (set_stdout st3
                                  (fst (write_message json_dumps
                                          (stdout st3) client_response)))
                               (snd (write_message json_dumps
                                       (stdout st3) client_response)))
                    end
                end
            end
        end
    end.
Proof.
  unfold iteration.
  destruct (read_message json_loads (stdin st)) as [[client_msg rest] recs].
  cbn [fst snd].
  destruct client_msg; try reflexivity;
    (destruct (process_message _ _ _ _) as [server_msg|e]; [|reflexivity];
     destruct (write_message json_dumps _ server_msg) as [pipe recs'];
     cbn [fst snd];
     destruct (contains_id _) as [[|]|e]; try reflexivity;
     destruct (read_message json_loads _) as [[resp rest'] recs''];
     cbn [fst snd];
     destruct resp; try reflexivity;
     (destruct (process_message _ _ _ _) as [client_response|e];
      [|reflexivity];
      destruct (write_message json_dumps _ client_response) as [out recs3];
      reflexivity)).
Qed.

(** A turn of the loop only consumes input and only adds output. *)
Lemma iteration_grows (st : proxy) :
  grows st
    (state_of (iteration HOST_ROOT CONTAINER_ROOT json_dumps json_loads st)).
Proof.
  rewrite iteration_steps. cbv zeta.
  pose proof (grows_read_stdin st) as G1.
  set (st1 := log (set_stdin st _) _) in *.
  assert (Gd : grows st (log st1 [ClientDisconnected]))
    by (eapply grows_trans; [exact G1 | apply grows_log]).
  assert (Hrest :
            grows st
              (state_of
                 match process_message HOST_ROOT CONTAINER_ROOT
                         (fst (fst (read_message json_loads (stdin st))))
                         TO_CONTAINER with
                 | Raise e => Raised e st1
                 | Ok server_msg =>
                     let st2 :=
                       log (set_child_stdin st1
                              (fst (write_message json_dumps
                                      (child_stdin st1) server_msg)))
                           (snd (write_message json_dumps
                                   (child_stdin st1) server_msg)) in
                     match contains_id
                             (fst (fst (read_message json_loads (stdin st))))
                     with
                     | Raise e => Raised e st2
                     | Ok false => Continue st2
                     | Ok true =>
                         let st3 :=
                           log (set_child_stdout st2
                                  (snd (fst (read_message json_loads
                                               (child_stdout st2)))))
                               (snd (read_message json_loads
                                       (child_stdout st2))) in
                         match fst (fst (read_message json_loads
                                           (child_stdout st2))) with
                         | JNull => Break (log st3 [ServerDisconnected])
                         | server_response =>
                             match process_message HOST_ROOT CONTAINER_ROOT
                                     server_response TO_HOST with
                             | Raise e => Raised e st3
                             | Ok client_response =>
                                 Continue
                                   (log (set_stdout st3
                                           (fst (write_message json_dumps
                                                   (stdout st3)
                                                   client_response)))
                                        (snd (write_message json_dumps
                                                (stdout st3)
                                                client_response)))
                             end
                         end
                     end
                 end)).
  { destruct (process_message _ _ _ TO_CONTAINER) as [server_msg|e];
      [|exact G1].
    cbv zeta.
    pose proof (grows_trans _ _ _ G1 (grows_write_child st1 server_msg))
      as G2.
    set (st2 := log (set_child_stdin st1 _) _) in *.
    destruct (contains_id _) as [[|]|e]; try exact G2.
    pose proof (grows_trans _ _ _ G2 (grows_read_child st2)) as G3.
    set (st3 := log (set_child_stdout st2 _) _) in *.
    assert (Gs : grows st (log st3 [ServerDisconnected]))
      by (eapply grows_trans; [exact G3 | apply grows_log]).
    destruct (fst (fst (read_message json_loads (child_stdout st2))));
      try exact Gs;
      (destruct (process_message _ _ _ TO_HOST) as [client_response|e];
       [|exact G3];
       exact (grows_trans _ _ _ G3
                (grows_write_stdout st3 client_response))). }
  destruct (fst (fst (read_message json_loads (stdin st))));
    [exact Gd | exact Hrest ..].
Qed.

Lemma run_loop_grows (fuel : nat) :
  forall st st' : proxy,
    run_loop HOST_ROOT CONTAINER_ROOT json_dumps json_loads fuel st
    = Some st' ->
    grows st st'.
Proof.
  induction fuel as [|fuel IH]; intros st st' H; [discriminate|].
  cbn [run_loop] in H.
  destruct (running st); [|injection H as <-; apply grows_refl].
  pose proof (iteration_grows st) as G.
  destruct (iteration _ _ _ _ st) as [s|s|e s]; cbn [state_of] in G.
  - eapply grows_trans; [exact G | now apply IH].
  - now injection H as <-.
  - injection H as <-. eapply grows_trans; [exact G | apply grows_log].
Qed.

(** X11: whatever arrives on the two input streams, [run] comes to an end
    and shuts down: the flag is cleared, the child is asked once to
    terminate and is killed only if it does not exit in time, the log
    starts and ends with the lines of the loop and of [shutdown], the
    input left is a suffix of the input given, and nothing written before
    is lost. *)
Theorem run_shuts_down (st : proxy) :
  exists final : proxy,
    run HOST_ROOT CONTAINER_ROOT json_dumps json_loads st = Some final
    /\ running final = false
    /\ child_calls final
       = child_calls st
           ++ (if child_exits_in_time st then [Terminate; WaitTimeout]
               else [Terminate; WaitTimeout; Kill; Wait])
    /\ (exists records,
           logged final
           = logged st ++ [StartingLoop] ++ records
               ++ [ShuttingDown; ShutdownComplete])
    /\ (exists consumed, stdin st = consumed ++ stdin final)
    /\ (exists consumed,
           arriving (child_stdout st)
           = consumed ++ arriving (child_stdout final))
    /\ ready (child_stdout final) = ready (child_stdout st)
    /\ (exists data, written (stdout final) = written (stdout st) ++ data)
    /\ (exists data,
           written (child_stdin final)
           = written (child_stdin st) ++ data).
Proof.
  unfold run.
  destruct (run_loop_terminates HOST_ROOT CONTAINER_ROOT json_dumps
              json_loads (S (List.length (stdin st)))
              (log st [StartingLoop])) as [st' E]; [simpl; lia|].
  rewrite E. exists (shutdown st'). split; [reflexivity|].
  apply run_loop_grows in E.
  destruct E as (R & X & C & I & O & Y & W & P & [l L]).
  cbn [log running child_exits_in_time child_calls stdin child_stdout
       stdout child_stdin logged] in *.
  cbn [shutdown running child_exits_in_time child_calls stdin child_stdout
       stdout child_stdin logged].
  split; [reflexivity|]. split; [now rewrite C, X|].
  split; [|now repeat split].
  exists l. rewrite L, <- !app_assoc. reflexivity.
Qed.

End SessionFacts.

(** ** Sessions *)

Section SessionRun.
Context {memory : Memory}.
Variables HOST_ROOT CONTAINER_ROOT : str.
Variable json_dumps : json -> outcome str.
Variable json_loads : str -> outcome json.

Lemma wire_sendable (m : json) :
  sendable json_dumps m ->
  exists text body,
    json_dumps m = Ok text /\ utf8_encode text = Ok body
    /\ wire json_dumps m = header body ++ body.
Proof.
  intros (text & Hd & He).
  destruct (utf8_encode_encodable _ He) as [body Hb].
  exists text, body. repeat split; auto.
  unfold wire. now rewrite Hd; cbn [bind]; rewrite Hb.
Qed.

Lemma wire_body_sendable (m : json) (text : str) (body : bytes) :
  json_dumps m = Ok text -> utf8_encode text = Ok body ->
  wire_body json_dumps m = body /\ wire json_dumps m = header body ++ body.
Proof.
  intros Hd Hb. unfold wire_body, wire.
  now rewrite Hd; cbn [bind]; rewrite Hb.
Qed.

Lemma carried_sendable (m : json) :
  carried json_dumps json_loads m -> sendable json_dumps m.
Proof. intros (text & Hd & _ & _ & He). now exists text. Qed.

(** Reading what [wire] gives for a carried message. *)
Lemma read_message_wire (m : json) (rest : istream) :
  carried json_dumps json_loads m ->
  read_message (T := istream) json_loads (wire json_dumps m ++ rest)
  = (m, rest, []).
Proof.
  intros (text & Hd & Hl & Hne & He).
  destruct (utf8_encode_encodable _ He) as [body Hb].
  unfold wire. rewrite Hd; cbn [bind]; rewrite Hb; cbn [bind].
  apply (read_message_frame json_loads m text); auto.
  exact (utf8_encode_length _ _ Hb Hne).
Qed.

(** Reading from the child's pipe what [wire] gives for a carried
    message: the header line by line, then the body in one [read], which
    gives the body when the pipe holds all of it. *)
Lemma read_message_raw_wire (m : json) (rest : istream)
  (pace : istream -> nat) :
  carried json_dumps json_loads m ->
  (List.length (wire_body json_dumps m)
   <= pace (wire_body json_dumps m ++ rest))%nat ->
  read_message json_loads
    {| arriving := wire json_dumps m ++ rest; ready := pace |}
  = (m, {| arriving := rest; ready := pace |}, []).
Proof.
  intros (text & Hd & Hl & Hne & He) Hpace.
  destruct (utf8_encode_encodable _ He) as [body Hb].
  destruct (wire_body_sendable m text body Hd Hb) as [Ew ->].
  rewrite Ew in Hpace.
  pose proof (utf8_encode_length _ _ Hb Hne) as Hbody.
  unfold read_message. cbn [unread raw_pipe arriving].
  rewrite read_headers_raw. cbn [arriving].
  rewrite header_eq, <- !app_assoc.
  match goal with
  | |- context [read_headers (S ?n)] => destruct n as [|fuel] eqn:Elen
  end.
  { apply (f_equal (fun n => n =? 0)%nat) in Elen.
    rewrite !length_app in Elen. discriminate. }
  rewrite read_headers_frame. cbn [on_raw raw_after ready].
  change (dict_get [(CONTENT_LENGTH, ?v)] CONTENT_LENGTH) with (Some v).
  cbv beta iota.
  rewrite py_int_decimal, nat_N_Z.
  assert (E0 : Z.eqb (Z.of_nat (List.length body)) 0 = false).
  { apply Z.eqb_neq. destruct body; [contradiction | simpl; lia]. }
  rewrite E0, (raw_read_exact body rest pace Hpace), Z.eqb_refl.
  cbn [negb].
  rewrite (utf8_decode_encode _ _ Hb). cbn [bind]. now rewrite Hl.
Qed.

(** The same when the pipe holds a part of the body only: the [read]
    returns that part, and the message is lost. *)
Lemma read_message_raw_pieces (m : json) (rest : istream)
  (pace : istream -> nat) :
  carried json_dumps json_loads m ->
  let body := wire_body json_dumps m in
  let found := held {| arriving := body ++ rest; ready := pace |} in
  (found < List.length body)%nat ->
  (Z.of_nat (List.length body) <= PY_SSIZE_T_MAX)%Z ->
  refused (Z.of_nat (List.length body)) = None ->
  read_message json_loads
    {| arriving := wire json_dumps m ++ rest; ready := pace |}
  = (JNull,
     {| arriving := skipn found (body ++ rest); ready := pace |},
     [ShortBody (Z.of_nat (List.length body)) found]).
Proof.
  intros (text & Hd & Hl & Hne & He).
  destruct (utf8_encode_encodable _ He) as [body' Hb].
  destruct (wire_body_sendable m text body' Hd Hb) as [-> ->].
  intros body found Hfound Hmax Hgrant. subst body.
  pose proof (utf8_encode_length _ _ Hb Hne) as Hbody.
  unfold read_message. cbn [unread raw_pipe arriving].
  rewrite read_headers_raw. cbn [arriving].
  rewrite header_eq, <- !app_assoc.
  match goal with
  | |- context [read_headers (S ?n)] => destruct n as [|fuel] eqn:Elen
  end.
  { apply (f_equal (fun n => n =? 0)%nat) in Elen.
    rewrite !length_app in Elen. discriminate. }
  rewrite read_headers_frame. cbn [on_raw raw_after ready].
  change (dict_get [(CONTENT_LENGTH, ?v)] CONTENT_LENGTH) with (Some v).
  cbv beta iota.
  rewrite py_int_decimal, nat_N_Z.
  assert (E0 : Z.eqb (Z.of_nat (List.length body')) 0 = false).
  { apply Z.eqb_neq. destruct body'; [contradiction | simpl; lia]. }
  assert (Hheld : (Z.of_nat
                     (held {| arriving := body' ++ rest; ready := pace |})
                   < Z.of_nat (List.length body'))%Z)
    by (apply Nat2Z.inj_lt; exact Hfound).
  rewrite E0, (raw_read_short _ _ Hheld).
  unfold short_read. fold found.
  assert (E1 : Z.ltb PY_SSIZE_T_MAX (Z.of_nat (List.length body')) = false)
    by (apply Z.ltb_ge; lia).
  rewrite E1, Hgrant. cbn [arriving raw_after ready].
  assert (Hf : List.length (firstn found (body' ++ rest)) = found).
  { apply firstn_length_le. unfold found, held. cbn [arriving].
    apply Nat.le_min_l. }
  rewrite Hf.
  assert (E2 : Z.eqb (Z.of_nat found) (Z.of_nat (List.length body')) = false)
    by (apply Z.eqb_neq; lia).
  now rewrite E2.
Qed.

(** Writing a message that can be sent to an open stream. *)
Lemma write_message_wire (stream : ostream) (m : json) :
  sendable json_dumps m ->
  writable stream = true ->
  write_message json_dumps stream m
  = ({| written := written stream ++ wire json_dumps m;
        writable := true |}, []).
Proof.
  intros Hs Hw. destruct (wire_sendable m Hs) as (text & body & Hd & Hb & ->).
  now apply (write_message_open json_dumps stream m text).
Qed.

Lemma wire_not_nil (m : json) :
  sendable json_dumps m -> (0 < List.length (wire json_dumps m))%nat.
Proof.
  intros Hs. destruct (wire_sendable m Hs) as (text & body & _ & _ & ->).
  unfold header. rewrite !length_app. simpl. lia.
Qed.

Lemma from_client_length (script : list (json * option json)) :
  Forall (sound_exchange HOST_ROOT CONTAINER_ROOT json_dumps json_loads)
         script ->
  (List.length script <= List.length (from_client json_dumps script))%nat.
Proof.
  induction 1 as [|x script Hx _ IH]; [simpl; lia|].
  unfold from_client in *. cbn [flat_map]. rewrite length_app.
  destruct Hx as (Hc & _).
  pose proof (wire_not_nil _ (carried_sendable _ Hc)). simpl. lia.
Qed.

(** One turn of the loop on the first exchange of a session. *)
Lemma iteration_exchange (st : proxy) (x : json * option json)
  (rest extra : istream) :
  sound_exchange HOST_ROOT CONTAINER_ROOT json_dumps json_loads x ->
  stdin st = wire json_dumps (fst x) ++ rest ->
  arriving (child_stdout st)
  = match snd x with
    | Some r => wire json_dumps r
    | None => []
    end ++ extra ->
  match snd x with
  | Some r =>
      (List.length (wire_body json_dumps r)
       <= ready (child_stdout st) (wire_body json_dumps r ++ extra))%nat
  | None => True
  end ->
  writable (child_stdin st) = true ->
  writable (stdout st) = true ->
  exists st',
    iteration HOST_ROOT CONTAINER_ROOT json_dumps json_loads st
    = Continue st'
    /\ running st' = running st
    /\ stdin st' = rest
    /\ arriving (child_stdout st') = extra
    /\ ready (child_stdout st') = ready (child_stdout st)
    /\ written (child_stdin st')
       = written (child_stdin st)
           ++ wire json_dumps
                (forwarded HOST_ROOT CONTAINER_ROOT (fst x) TO_CONTAINER)
    /\ writable (child_stdin st') = true
    /\ written (stdout st')
       = written (stdout st)
           ++ match snd x with
              | Some r =>
                  wire json_dumps
                    (forwarded HOST_ROOT CONTAINER_ROOT r TO_HOST)
              | None => []
              end
    /\ writable (stdout st') = true
    /\ logged st' = logged st.
Proof.
  destruct x as [m reply]. unfold sound_exchange. cbn [fst snd].
  intros (Hc & (m' & Hp & Hs) & Hreply) Hin Hout Hpace Hw1 Hw2.
  rewrite iteration_steps. cbv zeta.
  rewrite Hin, (read_message_wire m rest Hc). cbn [fst snd].
  assert (Hd : exists d, m = JDict d).
  { unfold process_message in Hp.
    destruct (str_eqb _ _); destruct m; try discriminate; now eexists. }
  destruct Hd as [d ->].
  unfold forwarded. rewrite Hp.
  cbn [log set_stdin child_stdin].
  rewrite (write_message_wire _ m' Hs Hw1). cbn [fst snd].
  destruct reply as [r|].
  - destruct Hreply as (Hid & Hcr & (r' & Hpr & Hsr)).
    rewrite Hid.
    cbn [log set_stdin set_child_stdin child_stdout].
    destruct (child_stdout st) as [octets pace] eqn:Echild.
    cbn [arriving ready] in Hout, Hpace. subst octets.
    rewrite (read_message_raw_wire r extra pace Hcr Hpace). cbn [fst snd].
    assert (Hd : exists d', r = JDict d').
    { unfold process_message in Hpr.
      destruct (str_eqb _ _); destruct r; try discriminate; now eexists. }
    destruct Hd as [d' ->].
    rewrite Hpr.
    cbn [log set_stdin set_child_stdin set_child_stdout stdout].
    rewrite (write_message_wire _ r' Hsr Hw2). cbn [fst snd].
    eexists. split; [reflexivity|].
    cbn. rewrite ?Echild, !app_nil_r. repeat split; reflexivity.
  - rewrite Hreply.
    eexists. split; [reflexivity|].
    cbn. rewrite !app_nil_r. repeat split; auto.
Qed.

Lemma run_loop_session (script : list (json * option json)) :
  forall (fuel : nat) (st : proxy) (extra : istream),
    Forall (sound_exchange HOST_ROOT CONTAINER_ROOT json_dumps json_loads)
           script ->
    (List.length script < fuel)%nat ->
    running st = true ->
    stdin st = from_client json_dumps script ->
    arriving (child_stdout st) = from_server json_dumps script ++ extra ->
    whole_replies json_dumps (ready (child_stdout st)) script extra
    = true ->
    writable (child_stdin st) = true ->
    writable (stdout st) = true ->
    exists st',
      run_loop HOST_ROOT CONTAINER_ROOT json_dumps json_loads fuel st
      = Some st'
      /\ stdin st' = []
      /\ arriving (child_stdout st') = extra
      /\ ready (child_stdout st') = ready (child_stdout st)
      /\ written (child_stdin st')
         = written (child_stdin st)
             ++ to_server HOST_ROOT CONTAINER_ROOT json_dumps script
      /\ written (stdout st')
         = written (stdout st)
             ++ to_client HOST_ROOT CONTAINER_ROOT json_dumps script
      /\ logged st' = logged st ++ [ClientDisconnected].
Proof.
  induction script as [|x script IH];
    intros fuel st extra Hs Hf Hrun Hin Hout Hwhole Hw1 Hw2;
    (destruct fuel as [|fuel]; [simpl in Hf; lia|]);
    cbn [run_loop]; rewrite Hrun.
  - rewrite iteration_steps. cbv zeta.
    cbn [from_client from_server flat_map app] in Hin, Hout.
    rewrite Hin, read_message_eof. cbn [fst snd].
    eexists. split; [reflexivity|].
    cbn. rewrite !app_nil_r. repeat split; auto.
  - inversion Hs as [|? ? Hx Hs']; subst.
    unfold from_client, from_server in Hin, Hout.
    cbn [flat_map] in Hin, Hout. rewrite <- app_assoc in Hout.
    fold (from_server json_dumps script) in Hout.
    cbn [whole_replies] in Hwhole.
    apply andb_true_iff in Hwhole as [Hfirst Hwhole].
    assert (Hpace :
              match snd x with
              | Some r =>
                  (List.length (wire_body json_dumps r)
                   <= ready (child_stdout st)
                        (wire_body json_dumps r
                           ++ from_server json_dumps script ++ extra))%nat
              | None => True
              end).
    { destruct (snd x); [now apply Nat.leb_le | exact I]. }
    destruct (iteration_exchange st x _ _ Hx Hin Hout Hpace Hw1 Hw2)
      as (st1 & -> & R1 & I1 & O1 & Y1 & P1 & Pw1 & W1 & Ww1 & L1).
    destruct (IH fuel st1 extra Hs')
      as (st' & E & I & O & Y & P & W & L);
      auto; [simpl in Hf; lia | congruence | now rewrite Y1 |].
    exists st'. split; [exact E|].
    split; [exact I|]. split; [exact O|]. split; [congruence|].
    unfold to_server, to_client in *. cbn [flat_map].
    rewrite P, P1, W, W1, L, L1, <- !app_assoc. repeat split; reflexivity.
Qed.

(** A reply of which the pipe holds a part only ends the loop: the turn
    forwards the request, reads a short body from the child, takes it
    for the end of the child's stream and breaks, with nothing written
    to the client. *)
Lemma iteration_reply_in_pieces (st : proxy) (m r : json)
  (rest extra : istream) :
  sound_exchange HOST_ROOT CONTAINER_ROOT json_dumps json_loads
                 (m, Some r) ->
  stdin st = wire json_dumps m ++ rest ->
  arriving (child_stdout st) = wire json_dumps r ++ extra ->
  let body := wire_body json_dumps r in
  let found :=
    held {| arriving := body ++ extra; ready := ready (child_stdout st) |}
  in
  (found < List.length body)%nat ->
  (Z.of_nat (List.length body) <= PY_SSIZE_T_MAX)%Z ->
  refused (Z.of_nat (List.length body)) = None ->
  writable (child_stdin st) = true ->
  exists st',
    iteration HOST_ROOT CONTAINER_ROOT json_dumps json_loads st = Break st'
    /\ stdin st' = rest
    /\ arriving (child_stdout st') = skipn found (body ++ extra)
    /\ stdout st' = stdout st
    /\ logged st'
       = logged st ++ [ShortBody (Z.of_nat (List.length body)) found;
                       ServerDisconnected].
Proof.
  unfold sound_exchange. cbn [fst snd].
  intros (Hc & (m' & Hp & Hs) & Hid & Hcr & _) Hin Hout
         Hfound Hmax Hgrant Hw1.
  rewrite iteration_steps. cbv zeta.
  rewrite Hin, (read_message_wire m rest Hc). cbn [fst snd].
  assert (Hd : exists d, m = JDict d).
  { unfold process_message in Hp.
    destruct (str_eqb _ _); destruct m; try discriminate; now eexists. }
  destruct Hd as [d ->].
  rewrite Hp. cbn [log set_stdin child_stdin].
  rewrite (write_message_wire _ m' Hs Hw1). cbn [fst snd].
  rewrite Hid. cbn [log set_stdin set_child_stdin child_stdout].
  destruct (child_stdout st) as [octets pace] eqn:Echild.
  cbn [arriving ready] in Hout, Hfound |- *. subst octets.
  rewrite (read_message_raw_pieces r extra pace Hcr Hfound Hmax Hgrant).
  cbn [fst snd].
  eexists. split; [reflexivity|].
  cbn. rewrite !app_nil_r, <- !app_assoc. repeat split; reflexivity.
Qed.

(** X12: a session in lock step. The client sends the messages of the
    script one after the other and closes its stream; the server answers
    each message that has an [id] with one message, and the pipe from the
    server, which is read unbuffered, holds the whole body of each answer
    when the proxy reads it. Then [run] passes every message of the client
    on to the server and every message of the server on to the client,
    each rewritten by [process_message] and framed, in the order of the
    script and with nothing between them; what the server sent beyond the
    script is left unread, and the log holds the four lines of an orderly
    end. (An answer that the pipe holds in part only ends the loop:
    [iteration_reply_in_pieces].) *)
Theorem run_session (st : proxy) (script : list (json * option json))
  (extra : istream) :
  Forall (sound_exchange HOST_ROOT CONTAINER_ROOT json_dumps json_loads)
         script ->
  running st = true ->
  stdin st = from_client json_dumps script ->
  arriving (child_stdout st) = from_server json_dumps script ++ extra ->
  whole_replies json_dumps (ready (child_stdout st)) script extra = true ->
  writable (child_stdin st) = true ->
  writable (stdout st) = true ->
  exists final : proxy,
    run HOST_ROOT CONTAINER_ROOT json_dumps json_loads st = Some final
    /\ written (child_stdin final)
       = written (child_stdin st)
           ++ to_server HOST_ROOT CONTAINER_ROOT json_dumps script
    /\ written (stdout final)
       = written (stdout st)
           ++ to_client HOST_ROOT CONTAINER_ROOT json_dumps script
    /\ stdin final = []
    /\ arriving (child_stdout final) = extra
    /\ logged final
       = logged st ++ [StartingLoop; ClientDisconnected;
                       ShuttingDown; ShutdownComplete].
Proof.
  intros Hs Hrun Hin Hout Hwhole Hw1 Hw2. unfold run.
  destruct (run_loop_session script (S (List.length (stdin st)))
              (log st [StartingLoop]) extra Hs)
    as (st' & -> & I & O & Y & P & W & L); auto.
  - rewrite Hin. pose proof (from_client_length script Hs). lia.
  - exists (shutdown st'). split; [reflexivity|].
    cbn [shutdown log stdin stdout child_stdin child_stdout logged] in *.
    rewrite L, <- !app_assoc. repeat split; auto.
Qed.

(** X13: a message of the client that is not a mapping ends the session.
    JSON [null] is taken for the end of the client's stream; any other
    value makes [process_message] raise [AttributeError], which [run]
    logs. Either way nothing is passed on to the server, the messages
    that follow stay unread, and [shutdown] runs. *)
Theorem run_not_a_mapping (st : proxy) (m : json) (text : str)
  (body : bytes) (rest : istream) :
  is_mapping m = false ->
  running st = true ->
  utf8_encode text = Ok body ->
  body <> [] ->
  json_loads text = Ok m ->
  stdin st = (header body ++ body) ++ rest ->
  exists final : proxy,
    run HOST_ROOT CONTAINER_ROOT json_dumps json_loads st = Some final
    /\ stdin final = rest
    /\ child_stdin final = child_stdin st
    /\ stdout final = stdout st
    /\ child_stdout final = child_stdout st
    /\ logged final
       = logged st
           ++ [StartingLoop;
               match m with
               | JNull => ClientDisconnected
               | _ => UnexpectedError AttributeError
               end;
               ShuttingDown; ShutdownComplete].
Proof.
  intros Hm Hrun Hb Hne Hl Hin. unfold run.
  cbn [run_loop log running stdin]. rewrite Hrun.
  rewrite iteration_steps. cbv zeta.
  cbn [log stdin]. rewrite Hin.
  assert (Hr : read_message (T := istream) json_loads
                 ((header body ++ body) ++ rest) = (m, rest, []))
    by (apply (read_message_frame json_loads m text); auto).
  rewrite Hr. cbn [fst snd].
  assert (Hp : forall dir,
             process_message HOST_ROOT CONTAINER_ROOT m dir
             = match m with
               | JDict _ => process_message HOST_ROOT CONTAINER_ROOT m dir
               | _ => Raise AttributeError
               end).
  { intros dir. unfold process_message.
    destruct (str_eqb _ _); destruct m; reflexivity. }
  rewrite Hp.
  destruct m; try discriminate;
    (eexists; split; [reflexivity|]; cbn; rewrite ?app_nil_r, <- ?app_assoc;
     repeat split; reflexivity).
Qed.

End SessionRun.

Section SessionExamples.
#[local] Existing Instance ample_memory.

Lemma run_session_witness :
  exists final : proxy,
    default_run (start (from_client Json.dumps hover_session) open_stream
                       (from_server Json.dumps hover_session))
    = Some final
    /\ written (child_stdin final)
       = frame (qlit ("{'jsonrpc':'2.0','method':'textDocument/didOpen',"
                      ++ "'params':{'textDocument':"
                      ++ "{'uri':'file:///work/container/a.py',"
                      ++ "'version':1}}}"))
         ++ frame (qlit ("{'jsonrpc':'2.0','id':1,"
                         ++ "'method':'textDocument/hover','params':"
                         ++ "{'textDocument':"
                         ++ "{'uri':'file:///work/container/a%20b.py'},"
                         ++ "'position':{'line':3,'character':0}}}"))
    /\ written (stdout final)
       = frame (qlit ("{'jsonrpc':'2.0','id':1,'result':"
                      ++ "{'uri':'file:///work/host/a%20b.py'}}"))
    /\ logged final
       = [StartingLoop; ClientDisconnected; ShuttingDown; ShutdownComplete].
Proof.
  assert (Hs : Forall (sound_exchange DEFAULT_HOST_ROOT DEFAULT_CONTAINER_ROOT
                         Json.dumps Json.loads) hover_session).
  { unfold hover_session, sound_exchange.
    constructor; [|constructor; [|constructor]]; cbn [fst snd].
    - split; [|split].
      + eexists. split; [vm_compute; reflexivity|].
        split; [vm_compute; reflexivity|].
        split; [discriminate | vm_compute; reflexivity].
      + eexists. split; [vm_compute; reflexivity|].
        eexists. split; [vm_compute; reflexivity | vm_compute; reflexivity].
      + reflexivity.
    - split; [|split; [|split; [|split]]].
      + eexists. split; [vm_compute; reflexivity|].
        split; [vm_compute; reflexivity|].
        split; [discriminate | vm_compute; reflexivity].
      + eexists. split; [vm_compute; reflexivity|].
        eexists. split; [vm_compute; reflexivity | vm_compute; reflexivity].
      + reflexivity.
      + eexists. split; [vm_compute; reflexivity|].
        split; [vm_compute; reflexivity|].
        split; [discriminate | vm_compute; reflexivity].
      + eexists. split; [vm_compute; reflexivity|].
        eexists. split; [vm_compute; reflexivity | vm_compute; reflexivity]. }
  destruct (run_session DEFAULT_HOST_ROOT DEFAULT_CONTAINER_ROOT
              Json.dumps Json.loads
              (start (from_client Json.dumps hover_session) open_stream
                     (from_server Json.dumps hover_session))
              hover_session [] Hs eq_refl eq_refl
              (eq_sym (app_nil_r _)) eq_refl eq_refl eq_refl)
    as (final & E & P & W & _ & _ & L).
  exists final. split; [exact E|]. split; [|split].
  - rewrite P. vm_compute. reflexivity.
  - rewrite W. vm_compute. reflexivity.
  - exact L.
Defined.

Lemma run_not_a_mapping_witness :
  exists final : proxy,
    default_run (start (frame (qlit "[{'jsonrpc':'2.0','method':'exit'}]")
                        ++ frame initialized_notification)
                       open_stream [])
    = Some final
    /\ stdin final = frame initialized_notification
    /\ written (child_stdin final) = []
    /\ logged final
       = [StartingLoop; UnexpectedError AttributeError;
          ShuttingDown; ShutdownComplete].
Proof.
  destruct (run_not_a_mapping DEFAULT_HOST_ROOT DEFAULT_CONTAINER_ROOT
              Json.dumps Json.loads
              (start (frame (qlit "[{'jsonrpc':'2.0','method':'exit'}]")
                      ++ frame initialized_notification)
                     open_stream [])
              (JList [JDict [(lit "jsonrpc", JStr (lit "2.0"));
                             (lit "method", JStr (lit "exit"))]])
              (qlit "[{'jsonrpc':'2.0','method':'exit'}]")
              (qlit "[{'jsonrpc':'2.0','method':'exit'}]")
              (frame initialized_notification))
    as (final & E & I & P & _ & _ & L);
    try reflexivity; try discriminate.
  exists final. split; [exact E|]. split; [exact I|].
  split; [now rewrite P | exact L].
Defined.

(** The proviso of X12 at work: the same session over a pipe that holds
    sixteen octets at a time. The header of the reply is read line by
    line; the one [read] for the body of 73 octets returns sixteen, the
    proxy logs the short body, takes it for the end of the server's
    stream and shuts down with nothing sent to the client. *)
Lemma reply_in_pieces_ends_session :
  exists final : proxy,
    default_run
      (set_child_stdout
         (start (from_client Json.dumps hover_session) open_stream [])
         (trickling 16 (from_server Json.dumps hover_session)))
    = Some final
    /\ written (stdout final) = []
    /\ List.length (arriving (child_stdout final)) = 57%nat
    /\ logged final
       = [StartingLoop; ShortBody 73 16; ServerDisconnected;
          ShuttingDown; ShutdownComplete].
Proof.
  eexists. split; [vm_compute; reflexivity|].
  split; [reflexivity|]. split; reflexivity.
Qed.

End SessionExamples.

(** ** The thread that forwards standard error *)

Lemma readline_nil (stream : istream) :
  fst (readline stream) = [] -> stream = [].
Proof.
  destruct stream as [|b r]; [reflexivity|]. cbn [readline].
  destruct (N.eqb b 0x0A); [discriminate|].
  destruct (readline r); discriminate.
Qed.

Lemma forward_stderr_from (running : nat -> bool) (fuel : nat) :
  forall (i : nat) (child_stderr : istream) (stderr : ostream),
    (List.length child_stderr < fuel)%nat ->
    exists copied dropped rest out err,
      forward_stderr fuel running i child_stderr stderr
      = Some (rest, out, err)
      /\ child_stderr = copied ++ dropped ++ rest
      /\ written out = written stderr ++ copied
      /\ (err = None -> dropped = [])
      /\ ((forall j, running j = true) -> writable stderr = true ->
          rest = [] /\ err = None).
Proof.
  induction fuel as [|fuel IH]; intros i child_stderr stderr Hlen; [lia|].
  cbn [forward_stderr].
  destruct (running i) eqn:Ei.
  - pose proof (readline_app child_stderr) as Happ.
    pose proof (readline_length child_stderr) as Hl.
    pose proof (readline_nil child_stderr) as Hnil.
    destruct (readline child_stderr) as [line rest]. cbn [fst snd] in *.
    destruct line as [|b line].
    + exists [], [], rest, stderr, None.
      repeat split; auto; try (now rewrite app_nil_r).
      rewrite (Hnil eq_refl) in Happ. now destruct rest.
    + unfold stream_write, stream_flush.
      destruct (writable stderr) eqn:Ew; cbn [bind writable].
      * destruct (IH (S i) rest
                    {| written := written stderr ++ b :: line;
                       writable := true |})
          as (copied & dropped & rest' & out & err & E & Hs & Hw & Hd & Ha);
          [simpl in Hl; lia|].
        exists ((b :: line) ++ copied), dropped, rest', out, err.
        split; [exact E|]. split; [|split; [|split]].
        -- rewrite <- app_assoc, <- Hs. exact Happ.
        -- rewrite Hw. cbn [written]. now rewrite app_assoc.
        -- exact Hd.
        -- intros Hall _. now apply Ha.
      * exists [], (b :: line), rest, stderr, (Some OSError).
        repeat split; auto; try discriminate.
        now rewrite app_nil_r.
  - exists [], [], child_stderr, stderr, None.
    split; [reflexivity|]. split; [reflexivity|].
    split; [now rewrite app_nil_r|]. split; [reflexivity|].
    intros Hall _. rewrite Hall in Ei. discriminate.
Qed.

(** X14: the thread that forwards the child's standard error writes what
    it reads as it is, in order: what it has written is a start of the
    child's output, what it leaves is an end of it, and nothing lies
    between them unless a write failed (the line just read is then
    lost). While the flag stays up and our standard error takes data,
    everything up to the end of the child's stream is copied. *)
Theorem forward_stderr_copies (running : nat -> bool)
  (child_stderr : istream) (stderr : ostream) :
  exists copied dropped rest out err,
    forward_stderr (S (List.length child_stderr)) running 0
                   child_stderr stderr
    = Some (rest, out, err)
    /\ child_stderr = copied ++ dropped ++ rest
    /\ written out = written stderr ++ copied
    /\ (err = None -> dropped = [])
    /\ ((forall j, running j = true) -> writable stderr = true ->
        copied = child_stderr /\ err = None).
Proof.
  destruct (forward_stderr_from running (S (List.length child_stderr)) 0
              child_stderr stderr (Nat.lt_succ_diag_r _))
    as (copied & dropped & rest & out & err & E & Hs & Hw & Hd & Ha).
  exists copied, dropped, rest, out, err.
  repeat split; auto.
  - destruct (Ha H H0) as [-> ->]. rewrite (Hd eq_refl) in Hs.
    now rewrite !app_nil_r in Hs.
  - now destruct (Ha H H0).
Qed.
